(** * The deferred removal queue of [MapService] (ngx-mapbox-gl)

    Source: projects/ngx-mapbox-gl/src/lib/map/map.service.ts.

    [MapService] buffers removals of layers, sources, markers, popups and
    images in five private arrays and applies them in [applyChanges], which
    [createMap] subscribes to the zone's [onMicrotaskEmpty] stream.

    The mapbox-gl engine is outside the repository.  It is modelled as an
    oracle that, for every call the service issues, says whether the call
    throws and which removal requests the callbacks it fires issue on the
    service before the call returns (callbacks are taken to call nothing
    of the service but its five removal methods).  Every call and every
    request is recorded in a ghost log, so that orderings can be stated.

    The methods that forward a request to the engine at once ([addLayer],
    [addSource], [move], [setLayerZoomRange], [setAllLayerPaintProperty],
    [setAllLayerLayoutProperty], [addImage], [loadAndAddImage],
    [addPopupToMap], [addMarker], [hookEvents]) are modelled in a second
    part, over JavaScript values and objects, with the calls they forward
    recorded in a ghost list of their own. *)

From Stdlib Require Import List String Bool Arith Lia Permutation.
From Stdlib Require Import PArith.
From Stdlib Require SpecFloat.
Import ListNotations.
Open Scope string_scope.
Open Scope list_scope.

(** ** Engine handles, calls and events *)

(** [Marker] and [Popup] objects are engine objects; only their identity
    matters to the service. *)
Definition Marker := nat.
Definition Popup := nat.

(** The instance built by [new MbMap(options)]. *)
Record MbMap := { map_id : nat }.

Inductive Kind := Layer | Source | MarkerKind | PopupKind | Image.

(** The four delegated layer events [removeLayers] unbinds. *)
Inductive LayerEvent := click | mouseenter | mouseleave | mousemove.

(** The engine calls issued by the modelled methods. *)
Inductive EngineCall :=
| map_off (type : LayerEvent) (layerId : string)   (* mapInstance.off(type, layerId) *)
| map_removeLayer (layerId : string)               (* mapInstance.removeLayer(layerId) *)
| map_removeSource (sourceId : string)             (* mapInstance.removeSource(sourceId) *)
| marker_remove (marker : Marker)                  (* marker.remove() *)
| popup_remove (popup : Popup)                     (* popup.remove() *)
| map_removeImage (imageId : string)               (* mapInstance.removeImage(imageId) *)
| map_remove.                                      (* mapInstance.remove() *)

(** The public removal methods, as requests a caller (or a callback fired
    by the engine) can issue. *)
Inductive Request :=
| ReqLayer (layerId : string)                          (* removeLayer(layerId) *)
| ReqSource (sourceId : string)                        (* removeSource(sourceId) *)
| ReqMarker (marker : Marker)                          (* removeMarker(marker) *)
| ReqPopup (popup : Popup) (skipCloseEvent : bool)     (* removePopupFromMap(popup, skipCloseEvent) *)
| ReqImage (imageId : string).                         (* removeImage(imageId) *)

(** A pending entry: an identifier or handle together with its kind. *)
Inductive Entry :=
| layer_entry (layerId : string)
| source_entry (sourceId : string)
| marker_entry (marker : Marker)
| popup_entry (popup : Popup)
| image_entry (imageId : string).

Definition kind_of (e : Entry) : Kind :=
  match e with
  | layer_entry _ => Layer
  | source_entry _ => Source
  | marker_entry _ => MarkerKind
  | popup_entry _ => PopupKind
  | image_entry _ => Image
  end.

Definition entry_of (r : Request) : Entry :=
  match r with
  | ReqLayer layerId => layer_entry layerId
  | ReqSource sourceId => source_entry sourceId
  | ReqMarker marker => marker_entry marker
  | ReqPopup popup _ => popup_entry popup
  | ReqImage imageId => image_entry imageId
  end.

(** Ghost log: [Called c threw] is written when the engine call [c] ends
    ([threw] tells how), [Enqueued r] when a removal method pushes. *)
Inductive Event :=
| Called (c : EngineCall) (threw : bool)
| Enqueued (r : Request).

(** What the engine does on one call. *)
Record Outcome := {
  throws : bool;               (* the call ends by throwing *)
  reentrant : list Request     (* removals requested by the callbacks it fires *)
}.

(** The engine and the callbacks registered on it: their reaction to a call
    may depend on everything that happened before. *)
Definition Oracle := list Event -> EngineCall -> Outcome.

Inductive JsError :=
| EngineError (c : EngineCall)   (* thrown by the engine inside call [c] *)
| TypeError (c : EngineCall).    (* [c] was attempted on an undefined mapInstance *)

Inductive Completion :=
| Normal
| Throw (e : JsError)
| OutOfFuel.                     (* the loop bound of the model was reached *)

(** ** The service and its environment *)

Record World := {
  (* fields of MapService *)
  mapInstance : option MbMap;
  layerIdsToRemove : list string;
  sourceIdsToRemove : list string;
  markersToRemove : list Marker;
  popupsToRemove : list Popup;
  imageIdsToRemove : list string;
  subscription_closed : bool;    (* this.subscription has been unsubscribed *)
  subChanges : nat;              (* the live subscriptions to onMicrotaskEmpty made by createMap *)
  (* engine objects the service writes to: the [_listeners] table of each
     popup, absent when the popup has none *)
  popup_listeners : list (Popup * list string);
  (* ghost *)
  log : list Event
}.

Definition set_mapInstance (v : option MbMap) (w : World) : World :=
  {| mapInstance := v;
     layerIdsToRemove := layerIdsToRemove w; sourceIdsToRemove := sourceIdsToRemove w;
     markersToRemove := markersToRemove w; popupsToRemove := popupsToRemove w;
     imageIdsToRemove := imageIdsToRemove w;
     subscription_closed := subscription_closed w; subChanges := subChanges w;
     popup_listeners := popup_listeners w; log := log w |}.

Definition set_layerIdsToRemove (v : list string) (w : World) : World :=
  {| mapInstance := mapInstance w;
     layerIdsToRemove := v; sourceIdsToRemove := sourceIdsToRemove w;
     markersToRemove := markersToRemove w; popupsToRemove := popupsToRemove w;
     imageIdsToRemove := imageIdsToRemove w;
     subscription_closed := subscription_closed w; subChanges := subChanges w;
     popup_listeners := popup_listeners w; log := log w |}.

Definition set_sourceIdsToRemove (v : list string) (w : World) : World :=
  {| mapInstance := mapInstance w;
     layerIdsToRemove := layerIdsToRemove w; sourceIdsToRemove := v;
     markersToRemove := markersToRemove w; popupsToRemove := popupsToRemove w;
     imageIdsToRemove := imageIdsToRemove w;
     subscription_closed := subscription_closed w; subChanges := subChanges w;
     popup_listeners := popup_listeners w; log := log w |}.

Definition set_markersToRemove (v : list Marker) (w : World) : World :=
  {| mapInstance := mapInstance w;
     layerIdsToRemove := layerIdsToRemove w; sourceIdsToRemove := sourceIdsToRemove w;
     markersToRemove := v; popupsToRemove := popupsToRemove w;
     imageIdsToRemove := imageIdsToRemove w;
     subscription_closed := subscription_closed w; subChanges := subChanges w;
     popup_listeners := popup_listeners w; log := log w |}.

Definition set_popupsToRemove (v : list Popup) (w : World) : World :=
  {| mapInstance := mapInstance w;
     layerIdsToRemove := layerIdsToRemove w; sourceIdsToRemove := sourceIdsToRemove w;
     markersToRemove := markersToRemove w; popupsToRemove := v;
     imageIdsToRemove := imageIdsToRemove w;
     subscription_closed := subscription_closed w; subChanges := subChanges w;
     popup_listeners := popup_listeners w; log := log w |}.

Definition set_imageIdsToRemove (v : list string) (w : World) : World :=
  {| mapInstance := mapInstance w;
     layerIdsToRemove := layerIdsToRemove w; sourceIdsToRemove := sourceIdsToRemove w;
     markersToRemove := markersToRemove w; popupsToRemove := popupsToRemove w;
     imageIdsToRemove := v;
     subscription_closed := subscription_closed w; subChanges := subChanges w;
     popup_listeners := popup_listeners w; log := log w |}.

Definition set_subscription (closed : bool) (live : nat) (w : World) : World :=
  {| mapInstance := mapInstance w;
     layerIdsToRemove := layerIdsToRemove w; sourceIdsToRemove := sourceIdsToRemove w;
     markersToRemove := markersToRemove w; popupsToRemove := popupsToRemove w;
     imageIdsToRemove := imageIdsToRemove w;
     subscription_closed := closed; subChanges := live;
     popup_listeners := popup_listeners w; log := log w |}.

Definition set_popup_listeners (v : list (Popup * list string)) (w : World) : World :=
  {| mapInstance := mapInstance w;
     layerIdsToRemove := layerIdsToRemove w; sourceIdsToRemove := sourceIdsToRemove w;
     markersToRemove := markersToRemove w; popupsToRemove := popupsToRemove w;
     imageIdsToRemove := imageIdsToRemove w;
     subscription_closed := subscription_closed w; subChanges := subChanges w;
     popup_listeners := v; log := log w |}.

Definition record (ev : Event) (w : World) : World :=
  {| mapInstance := mapInstance w;
     layerIdsToRemove := layerIdsToRemove w; sourceIdsToRemove := sourceIdsToRemove w;
     markersToRemove := markersToRemove w; popupsToRemove := popupsToRemove w;
     imageIdsToRemove := imageIdsToRemove w;
     subscription_closed := subscription_closed w; subChanges := subChanges w;
     popup_listeners := popup_listeners w; log := log w ++ [ev] |}.

(** The field initialisers and the constructor: the five arrays start empty,
    [subscription] is a fresh (open) Subscription, [mapInstance] is not
    assigned yet. *)
Definition new_MapService : World :=
  {| mapInstance := None;
     layerIdsToRemove := []; sourceIdsToRemove := [];
     markersToRemove := []; popupsToRemove := [];
     imageIdsToRemove := [];
     subscription_closed := false; subChanges := 0;
     popup_listeners := []; log := [] |}.

(** ** Commands *)

(** A method body: it ends normally or by throwing, in a new world. *)
Definition Cmd := World -> Completion * World.

Definition seq (m1 m2 : Cmd) : Cmd :=
  fun w => match m1 w with
           | (Normal, w1) => m2 w1
           | r => r
           end.

Notation "m1 ;; m2" := (seq m1 m2) (at level 61, right associativity).

Definition assign (f : World -> World) : Cmd := fun w => (Normal, f w).

(** ** The removal methods (enqueue side) *)

(** [popup._listeners], when the popup has such a table. *)
Fixpoint listeners_of (popup : Popup) (tbl : list (Popup * list string)) : option (list string) :=
  match tbl with
  | [] => None
  | (p, ks) :: tbl' => if Nat.eqb p popup then Some ks else listeners_of popup tbl'
  end.

(** [delete popup._listeners['close']]. *)
Fixpoint delete_close (popup : Popup) (tbl : list (Popup * list string)) : list (Popup * list string) :=
  match tbl with
  | [] => []
  | (p, ks) :: tbl' =>
      if Nat.eqb p popup
      then (p, filter (fun k => negb (String.eqb k "close")) ks) :: tbl'
      else (p, ks) :: delete_close popup tbl'
  end.

(** JavaScript truthiness of a value that is an object or undefined. *)
Definition truthy {A : Type} (v : option A) : bool :=
  match v with Some _ => true | None => false end.

Definition removeLayer (layerId : string) : Cmd :=
  assign (fun w => record (Enqueued (ReqLayer layerId))
                     (set_layerIdsToRemove (layerIdsToRemove w ++ [layerId]) w)).

Definition removeMarker (marker : Marker) : Cmd :=
  assign (fun w => record (Enqueued (ReqMarker marker))
                     (set_markersToRemove (markersToRemove w ++ [marker]) w)).

Definition removePopupFromMap (popup : Popup) (skipCloseEvent : bool) : Cmd :=
  assign (fun w =>
            if skipCloseEvent && truthy (listeners_of popup (popup_listeners w))
            then set_popup_listeners (delete_close popup (popup_listeners w)) w
            else w) ;;
  assign (fun w => record (Enqueued (ReqPopup popup skipCloseEvent))
                     (set_popupsToRemove (popupsToRemove w ++ [popup]) w)).

Definition removeImage (imageId : string) : Cmd :=
  assign (fun w => record (Enqueued (ReqImage imageId))
                     (set_imageIdsToRemove (imageIdsToRemove w ++ [imageId]) w)).

Definition removeSource (sourceId : string) : Cmd :=
  assign (fun w => record (Enqueued (ReqSource sourceId))
                     (set_sourceIdsToRemove (sourceIdsToRemove w ++ [sourceId]) w)).

(** The method a request stands for. *)
Definition perform (r : Request) : Cmd :=
  match r with
  | ReqLayer layerId => removeLayer layerId
  | ReqSource sourceId => removeSource sourceId
  | ReqMarker marker => removeMarker marker
  | ReqPopup popup skipCloseEvent => removePopupFromMap popup skipCloseEvent
  | ReqImage imageId => removeImage imageId
  end.

(** A run of requests, one after the other, as long as none throws. *)
Fixpoint performAll (rs : list Request) : Cmd :=
  match rs with
  | [] => assign (fun w => w)
  | r :: rs' => perform r ;; performAll rs'
  end.

(** ** Engine calls *)

(** A call on an engine object: the callbacks it fires run first (their
    requests are served by the service's own methods), then the call
    returns or throws. *)
Definition engineCall (o : Oracle) (c : EngineCall) : Cmd :=
  fun w =>
    let out := o (log w) c in
    match performAll (reentrant out) w with
    | (Normal, w1) =>
        (if throws out then Throw (EngineError c) else Normal,
         record (Called c (throws out)) w1)
    | r => r
    end.

(** A call on [this.mapInstance]: a TypeError while the field is undefined. *)
Definition mapCall (o : Oracle) (c : EngineCall) : Cmd :=
  fun w => match mapInstance w with
           | Some _ => engineCall o c w
           | None => (Throw (TypeError c), w)
           end.

(** ** The flush *)

(** [for (const x of arr) body]: the array iterator reads the live array at
    every step, so elements pushed while the loop runs are visited too.
    [fuel] bounds the number of iterations. *)
Fixpoint for_of {A : Type} (fuel : nat) (arr : World -> list A) (body : A -> Cmd)
  (i : nat) (w : World) : Completion * World :=
  match nth_error (arr w) i with
  | None => (Normal, w)
  | Some x =>
      match fuel with
      | O => (OutOfFuel, w)
      | S fuel' =>
          match body x w with
          | (Normal, w1) => for_of fuel' arr body (S i) w1
          | r => r
          end
      end
  end.

Definition removeLayers (o : Oracle) (fuel : nat) : Cmd :=
  for_of fuel layerIdsToRemove
    (fun layerId =>
       mapCall o (map_off click layerId) ;;
       mapCall o (map_off mouseenter layerId) ;;
       mapCall o (map_off mouseleave layerId) ;;
       mapCall o (map_off mousemove layerId) ;;
       mapCall o (map_removeLayer layerId)) 0 ;;
  assign (set_layerIdsToRemove []).

Definition removeSources (o : Oracle) (fuel : nat) : Cmd :=
  for_of fuel sourceIdsToRemove
    (fun sourceId => mapCall o (map_removeSource sourceId)) 0 ;;
  assign (set_sourceIdsToRemove []).

Definition removeMarkers (o : Oracle) (fuel : nat) : Cmd :=
  for_of fuel markersToRemove
    (fun marker => engineCall o (marker_remove marker)) 0 ;;
  assign (set_markersToRemove []).

Definition removePopups (o : Oracle) (fuel : nat) : Cmd :=
  for_of fuel popupsToRemove
    (fun popup => engineCall o (popup_remove popup)) 0 ;;
  assign (set_popupsToRemove []).

Definition removeImages (o : Oracle) (fuel : nat) : Cmd :=
  for_of fuel imageIdsToRemove
    (fun imageId => mapCall o (map_removeImage imageId)) 0 ;;
  assign (set_imageIdsToRemove []).

(** [zone.runOutsideAngular(fn)] runs [fn] at once. *)
Definition applyChanges (o : Oracle) (fuel : nat) : Cmd :=
  removeLayers o fuel ;;
  removeSources o fuel ;;
  removeMarkers o fuel ;;
  removePopups o fuel ;;
  removeImages o fuel.

(** ** Map life cycle *)

(** [createMap], in the runs in which the zone assertion passes and
    [new MbMap(options)] returns the instance [m] (in the others it throws
    before it assigns or subscribes anything).  It subscribes once more to
    [onMicrotaskEmpty] and adds the subscription to [this.subscription];
    adding to a Subscription that is already closed unsubscribes the added
    one at once (RxJS).  The clean-up of the options and the optional resize
    subscription do not touch the queue and are left out. *)
Definition createMap (m : MbMap) : Cmd :=
  assign (set_mapInstance (Some m)) ;;
  assign (fun w => set_subscription (subscription_closed w)
                     (if subscription_closed w then subChanges w else S (subChanges w)) w).

(** [destroyMap]: unsubscribing [this.subscription] closes it and every
    subscription added to it. *)
Definition destroyMap (o : Oracle) : Cmd :=
  assign (set_subscription true 0) ;;
  mapCall o map_remove.

(** One subscriber [() => this.applyChanges()] handling a firing.  What the
    handler throws does not reach the emitter: the subscriber (RxJS 6)
    catches it, unsubscribes itself and reports the error asynchronously. *)
Definition flushSubscriber (o : Oracle) (fuel : nat) : Cmd :=
  fun w => match applyChanges o fuel w with
           | (Throw _, w1) =>
               (Normal, set_subscription (subscription_closed w1) (Nat.pred (subChanges w1)) w1)
           | r => r
           end.

(** [n] subscribers handling a firing, one after the other. *)
Fixpoint notify (n : nat) (subscriber : Cmd) : Cmd :=
  match n with
  | O => assign (fun w => w)
  | S n' => subscriber ;; notify n' subscriber
  end.

(** One firing of [zone.onMicrotaskEmpty], the flush trigger: the
    subscribers that are live when it fires are notified. *)
Definition onMicrotaskEmpty (o : Oracle) (fuel : nat) : Cmd :=
  fun w => notify (subChanges w) (flushSubscriber o fuel) w.

(** ** Reading the ghost log *)

Definition Kind_eqb (a b : Kind) : bool :=
  match a, b with
  | Layer, Layer | Source, Source | MarkerKind, MarkerKind
  | PopupKind, PopupKind | Image, Image => true
  | _, _ => false
  end.

(** The entries of one kind, in their order. *)
Definition of_kind (k : Kind) (l : list Entry) : list Entry :=
  filter (fun e => Kind_eqb (kind_of e) k) l.

(** The pending sequence of a kind. *)
Definition pending (k : Kind) (w : World) : list Entry :=
  match k with
  | Layer => map layer_entry (layerIdsToRemove w)
  | Source => map source_entry (sourceIdsToRemove w)
  | MarkerKind => map marker_entry (markersToRemove w)
  | PopupKind => map popup_entry (popupsToRemove w)
  | Image => map image_entry (imageIdsToRemove w)
  end.

(** The engine calls that tear one entry down, in the order the loop body
    of its kind issues them. *)
Definition teardown_calls (e : Entry) : list EngineCall :=
  match e with
  | layer_entry layerId =>
      [map_off click layerId; map_off mouseenter layerId;
       map_off mouseleave layerId; map_off mousemove layerId;
       map_removeLayer layerId]
  | source_entry sourceId => [map_removeSource sourceId]
  | marker_entry marker => [marker_remove marker]
  | popup_entry popup => [popup_remove popup]
  | image_entry imageId => [map_removeImage imageId]
  end.

(** The entry a removal call removes ([off] and [map.remove()] remove none). *)
Definition removal_of (c : EngineCall) : option Entry :=
  match c with
  | map_removeLayer layerId => Some (layer_entry layerId)
  | map_removeSource sourceId => Some (source_entry sourceId)
  | marker_remove marker => Some (marker_entry marker)
  | popup_remove popup => Some (popup_entry popup)
  | map_removeImage imageId => Some (image_entry imageId)
  | map_off _ _ | map_remove => None
  end.

(** The entries pushed in a stretch of the log. *)
Definition enqueued (seg : list Event) : list Entry :=
  flat_map (fun ev => match ev with
                      | Enqueued r => [entry_of r]
                      | Called _ _ => []
                      end) seg.

(** The entries whose removal call returned in a stretch of the log. *)
Definition removed (seg : list Event) : list Entry :=
  flat_map (fun ev => match ev with
                      | Called c false =>
                          match removal_of c with Some e => [e] | None => [] end
                      | _ => []
                      end) seg.

(** The entries whose removal call was made (it returned or threw). *)
Definition attempted (seg : list Event) : list Entry :=
  flat_map (fun ev => match ev with
                      | Called c _ =>
                          match removal_of c with Some e => [e] | None => [] end
                      | _ => []
                      end) seg.

Definition is_call (ev : Event) : bool :=
  match ev with Called _ _ => true | Enqueued _ => false end.

(** The engine calls of a stretch of the log, with how each ended. *)
Definition engine_calls (seg : list Event) : list Event := filter is_call seg.

(** The log of calls that all return. *)
Definition returned (cs : list EngineCall) : list Event :=
  map (fun c => Called c false) cs.

(** Everything the queue holds, in the order a flush visits it. *)
Definition plan (w : World) : list Entry :=
  pending Layer w ++ pending Source w ++ pending MarkerKind w ++
  pending PopupKind w ++ pending Image w.

Definition all_empty (w : World) : Prop :=
  layerIdsToRemove w = [] /\ sourceIdsToRemove w = [] /\ markersToRemove w = [] /\
  popupsToRemove w = [] /\ imageIdsToRemove w = [].

(** An engine that returns from every call and never calls back. *)
Definition quiet (o : Oracle) : Prop :=
  forall h c, throws (o h c) = false /\ reentrant (o h c) = [].

(** * Vocabulary of the statements *)

(** ** Pieces of a flush *)

(** The body of the loop of each kind, as [removeLayers] ... [removeImages]
    write it. *)
Definition body (o : Oracle) (e : Entry) : Cmd :=
  match e with
  | layer_entry layerId =>
      mapCall o (map_off click layerId) ;;
      mapCall o (map_off mouseenter layerId) ;;
      mapCall o (map_off mouseleave layerId) ;;
      mapCall o (map_off mousemove layerId) ;;
      mapCall o (map_removeLayer layerId)
  | source_entry sourceId => mapCall o (map_removeSource sourceId)
  | marker_entry marker => engineCall o (marker_remove marker)
  | popup_entry popup => engineCall o (popup_remove popup)
  | image_entry imageId => mapCall o (map_removeImage imageId)
  end.

(** The method that drains the array of a kind. *)
Definition removeKind (o : Oracle) (fuel : nat) (k : Kind) : Cmd :=
  match k with
  | Layer => removeLayers o fuel
  | Source => removeSources o fuel
  | MarkerKind => removeMarkers o fuel
  | PopupKind => removePopups o fuel
  | Image => removeImages o fuel
  end.

(** The kinds in the order [applyChanges] drains them. *)
Definition kinds : list Kind := [Layer; Source; MarkerKind; PopupKind; Image].

Definition rank (k : Kind) : nat :=
  match k with
  | Layer => 0 | Source => 1 | MarkerKind => 2 | PopupKind => 3 | Image => 4
  end.

Fixpoint removeKinds (o : Oracle) (fuel : nat) (ks : list Kind) : Cmd :=
  match ks with
  | [] => assign (fun w => w)
  | k :: ks' => removeKind o fuel k ;; removeKinds o fuel ks'
  end.

(** The call an error comes from. *)
Definition error_call (e : JsError) : EngineCall :=
  match e with EngineError c | TypeError c => c end.

(** The log written between two worlds. *)
Definition written (w w' : World) : list Event := skipn (List.length (log w)) (log w').

(** The order in which a flush visits the entries [l] were they all
    pending: by kind, and within a kind as in [l]. *)
Definition by_kind (l : list Entry) : list Entry :=
  of_kind Layer l ++ of_kind Source l ++ of_kind MarkerKind l ++
  of_kind PopupKind l ++ of_kind Image l.

(** ** Properties of runs

    A property of runs [I w r w' seg] reads: the run from [w] ends with [r]
    in [w'] after writing [seg] to the log.  [sat I m]: every run of the
    command [m] has it. *)

Definition sat (I : World -> Completion -> World -> list Event -> Prop) (m : Cmd) : Prop :=
  forall w, exists seg, I w (fst (m w)) (snd (m w)) seg.

(** [grows w w' seg]: the run wrote [seg] to the log, pushed the entries
    [seg] says on the five arrays, and assigned none of the service's
    fields. *)
Definition grows (w w' : World) (seg : list Event) : Prop :=
  log w' = log w ++ seg /\
  mapInstance w' = mapInstance w /\
  subscription_closed w' = subscription_closed w /\
  subChanges w' = subChanges w /\
  forall k, pending k w' = pending k w ++ of_kind k (enqueued seg).

Definition Grow (w : World) (r : Completion) (w' : World) (seg : list Event) : Prop :=
  grows w w' seg.

(** [CallsShape cs r evs]: a body that issues the calls [cs] ended with [r]
    after the calls [evs]: all of them when it ends normally, those up to
    the failing one otherwise. *)
Definition CallsShape (cs : list EngineCall) (r : Completion) (evs : list Event) : Prop :=
  match r with
  | Normal => evs = returned cs
  | Throw (EngineError c) =>
      exists pre post, cs = pre ++ c :: post /\ evs = returned pre ++ [Called c true]
  | Throw (TypeError c) =>
      exists pre post, cs = pre ++ c :: post /\ evs = returned pre
  | OutOfFuel => False
  end.

(** One call. *)
Definition Step (c : EngineCall) (w : World) (r : Completion) (w' : World)
  (seg : list Event) : Prop :=
  grows w w' seg /\
  match r with
  | Normal => engine_calls seg = [Called c false]
  | Throw (EngineError c') => c' = c /\ engine_calls seg = [Called c true]
  | Throw (TypeError c') => c' = c /\ engine_calls seg = []
  | OutOfFuel => False
  end.

(** A chain of calls. *)
Definition Shape (cs : list EngineCall) (w : World) (r : Completion) (w' : World)
  (seg : list Event) : Prop :=
  grows w w' seg /\ CallsShape cs r (engine_calls seg).

(** One phase, the loop of kind [k] and the assignment after it.  When it
    returns, the array of [k] is empty and the loop has removed what the
    array held at first and what was pushed on it meanwhile; when it throws,
    the array is not reset and still holds the entry that failed.  The other
    arrays are only pushed on. *)
Definition PhaseResult (k : Kind) (w : World) (r : Completion) (w' : World)
  (seg : list Event) : Prop :=
  log w' = log w ++ seg /\
  mapInstance w' = mapInstance w /\
  subscription_closed w' = subscription_closed w /\
  subChanges w' = subChanges w /\
  (forall j, j <> k -> pending j w' = pending j w ++ of_kind j (enqueued seg)) /\
  match r with
  | Normal =>
      pending k w' = [] /\
      removed seg = pending k w ++ of_kind k (enqueued seg) /\
      engine_calls seg = returned (flat_map teardown_calls (removed seg))
  | Throw err =>
      pending k w' = pending k w ++ of_kind k (enqueued seg) /\
      exists x, In x (pending k w') /\ In (error_call err) (teardown_calls x)
  | OutOfFuel =>
      pending k w' = pending k w ++ of_kind k (enqueued seg)
  end.

(** A flush that returns, phase by phase: [sL], [sS], [sM], [sP] and [sI]
    are what the five loops wrote to the log.  Each loop removed what its
    array held when the flush began and what was pushed on it until the
    loop ended; what was pushed on it later is what it holds at the end. *)
Definition Phases (w w' : World) (sL sS sM sP sI : list Event) : Prop :=
  log w' = log w ++ sL ++ sS ++ sM ++ sP ++ sI /\
  (removed sL = pending Layer w ++ of_kind Layer (enqueued sL) /\
   removed sS = pending Source w ++ of_kind Source (enqueued (sL ++ sS)) /\
   removed sM = pending MarkerKind w ++ of_kind MarkerKind (enqueued (sL ++ sS ++ sM)) /\
   removed sP = pending PopupKind w ++ of_kind PopupKind (enqueued (sL ++ sS ++ sM ++ sP)) /\
   removed sI = pending Image w ++ of_kind Image (enqueued (sL ++ sS ++ sM ++ sP ++ sI))) /\
  (pending Layer w' = of_kind Layer (enqueued (sS ++ sM ++ sP ++ sI)) /\
   pending Source w' = of_kind Source (enqueued (sM ++ sP ++ sI)) /\
   pending MarkerKind w' = of_kind MarkerKind (enqueued (sP ++ sI)) /\
   pending PopupKind w' = of_kind PopupKind (enqueued sI) /\
   pending Image w' = []) /\
  (engine_calls sL = returned (flat_map teardown_calls (removed sL)) /\
   engine_calls sS = returned (flat_map teardown_calls (removed sS)) /\
   engine_calls sM = returned (flat_map teardown_calls (removed sM)) /\
   engine_calls sP = returned (flat_map teardown_calls (removed sP)) /\
   engine_calls sI = returned (flat_map teardown_calls (removed sI))).

(** [kept]: the array of kind [k] was only pushed on.  [drained]: whatever
    it holds was pushed during the stretch [seg]. *)
Definition kept (k : Kind) (w w' : World) (seg : list Event) : Prop :=
  pending k w' = pending k w ++ of_kind k (enqueued seg).

Definition drained (k : Kind) (w' : World) (seg : list Event) : Prop :=
  exists X, of_kind k (enqueued seg) = X ++ pending k w'.

(** The phases of [ks] in a row, however the run ends. *)
Definition FlushResult (ks : list Kind) (w : World) (r : Completion) (w' : World)
  (seg : list Event) : Prop :=
  log w' = log w ++ seg /\
  match r with
  | Normal =>
      (forall k, In k ks -> drained k w' seg) /\
      (forall k, ~ In k ks -> kept k w w' seg)
  | Throw err =>
      exists pre k post x,
        ks = pre ++ k :: post /\
        In x (pending k w') /\ In (error_call err) (teardown_calls x) /\
        (forall j, In j pre -> drained j w' seg) /\
        (forall j, ~ In j pre -> kept j w w' seg)
  | OutOfFuel => True
  end.

(** What is known of a flush however it ends: a flush that returns leaves
    in every array only what was pushed during the flush; a flush that
    throws leaves the entry that failed in its array, and in the arrays of
    the kinds before it only what was pushed during the flush. *)
Definition Outcome_of_flush (w : World) (r : Completion) (w' : World)
  (seg : list Event) : Prop :=
  log w' = log w ++ seg /\
  match r with
  | Normal => forall k, drained k w' seg
  | Throw err =>
      exists x, In x (pending (kind_of x) w') /\
                In (error_call err) (teardown_calls x) /\
                forall j, rank j < rank (kind_of x) -> drained j w' seg
  | OutOfFuel => True
  end.

(** ** Failures *)

Definition no_failure (seg : list Event) : Prop :=
  forall c, ~ In (Called c true) seg.

(** [FailLast]: no call of the run threw, except the last one when the run
    ends by throwing that call's error. *)
Definition FailLast (w : World) (r : Completion) (w' : World) (seg : list Event) : Prop :=
  log w' = log w ++ seg /\
  match r with
  | Throw (EngineError c) => exists s0, seg = s0 ++ [Called c true] /\ no_failure s0
  | _ => no_failure seg
  end.

(** [MapNeeded]: the run does not assign [mapInstance], and ends with a
    TypeError only on a service without a map. *)
Definition MapNeeded (w : World) (r : Completion) (w' : World) (seg : list Event) : Prop :=
  mapInstance w' = mapInstance w /\
  match r with
  | Throw (TypeError _) => mapInstance w = None
  | _ => True
  end.

(** [SubscriptionKept]: the run subscribes and unsubscribes nothing. *)
Definition SubscriptionKept (w : World) (r : Completion) (w' : World) (seg : list Event)
  : Prop :=
  (subscription_closed w', subChanges w') = (subscription_closed w, subChanges w).

(** ** Runs against an engine that returns from every call *)

Definition add_log (evs : list Event) (w : World) : World :=
  {| mapInstance := mapInstance w;
     layerIdsToRemove := layerIdsToRemove w; sourceIdsToRemove := sourceIdsToRemove w;
     markersToRemove := markersToRemove w; popupsToRemove := popupsToRemove w;
     imageIdsToRemove := imageIdsToRemove w;
     subscription_closed := subscription_closed w; subChanges := subChanges w;
     popup_listeners := popup_listeners w; log := log w ++ evs |}.

(** The world a flush against such an engine ends in: the five arrays are
    empty and the log has the teardown calls of [plan w], all returned. *)
Definition flushed (w : World) : World :=
  {| mapInstance := mapInstance w;
     layerIdsToRemove := []; sourceIdsToRemove := [];
     markersToRemove := []; popupsToRemove := [];
     imageIdsToRemove := [];
     subscription_closed := subscription_closed w; subChanges := subChanges w;
     popup_listeners := popup_listeners w;
     log := log w ++ returned (flat_map teardown_calls (plan w)) |}.

(** The length of the longest of the five arrays: a loop bound that is
    enough when nothing is pushed during the flush. *)
Definition queue_bound (w : World) : nat :=
  Nat.max (List.length (layerIdsToRemove w))
    (Nat.max (List.length (sourceIdsToRemove w))
       (Nat.max (List.length (markersToRemove w))
          (Nat.max (List.length (popupsToRemove w)) (List.length (imageIdsToRemove w))))).

(** ** The order of the calls *)

Definition layer_call (c : EngineCall) : bool :=
  match c with
  | map_off _ _ | map_removeLayer _ => true
  | _ => false
  end.

(** The four [off] calls of one layer, all returned. *)
Definition unbind_calls (layerId : string) : list Event :=
  returned [map_off click layerId; map_off mouseenter layerId;
            map_off mouseleave layerId; map_off mousemove layerId].

(** Every [removeLayer(id)] call comes right after the four [off] calls for
    [id]. *)
Definition unbound_first (cs : list Event) : Prop :=
  forall pre layerId b post,
    cs = pre ++ Called (map_removeLayer layerId) b :: post ->
    exists pre', pre = pre' ++ unbind_calls layerId.

(** No call on a layer comes after a [removeSource] call. *)
Definition layers_before_sources (cs : list Event) : Prop :=
  forall pre sourceId b post,
    cs = pre ++ Called (map_removeSource sourceId) b :: post ->
    forall c b', In (Called c b') post -> layer_call c = false.

Definition only_layer_calls (seg : list Event) : Prop :=
  forall c b, In (Called c b) seg -> layer_call c = true.

Definition no_layer_calls (seg : list Event) : Prop :=
  forall c b, In (Called c b) seg -> layer_call c = false.

Definition LayerPhase (w : World) (r : Completion) (w' : World) (seg : list Event) : Prop :=
  log w' = log w ++ seg /\ unbound_first (engine_calls seg) /\ only_layer_calls seg.

Definition OtherPhase (w : World) (r : Completion) (w' : World) (seg : list Event) : Prop :=
  log w' = log w ++ seg /\ no_layer_calls seg.

(** The calls that tear one layer down, all returned: the four [off] calls
    and then [removeLayer]. *)
Definition layer_teardown (layerId : string) : list Event :=
  unbind_calls layerId ++ [Called (map_removeLayer layerId) false].

(** The call that removes one source, returned. *)
Definition source_teardown (sourceId : string) : Event :=
  Called (map_removeSource sourceId) false.

(** ** Engines and worlds of the examples *)

Definition ok : Outcome := {| throws := false; reentrant := [] |}.

(** An engine that returns from every call and fires no callback. *)
Definition silent : Oracle := fun _ _ => ok.

(** An engine that throws whenever asked to remove layer [bad]. *)
Definition rejects_layer (bad : string) : Oracle :=
  fun _ c =>
    match c with
    | map_removeLayer layerId => {| throws := String.eqb layerId bad; reentrant := [] |}
    | _ => ok
    end.

(** An engine that throws the first time it is asked to remove layer [bad]. *)
Definition rejects_layer_once (bad : string) : Oracle :=
  fun h c =>
    match c with
    | map_removeLayer layerId =>
        {| throws := String.eqb layerId bad &&
                     negb (existsb (fun ev => match ev with
                                              | Called (map_removeLayer _) true => true
                                              | _ => false
                                              end) h);
           reentrant := [] |}
    | _ => ok
    end.

(** An engine whose callbacks call the service back: removing marker 1
    requests the removal of marker 2, and removing popup 7 requests the
    removal of layer [late]. *)
Definition calls_back : Oracle :=
  fun _ c =>
    match c with
    | marker_remove 1 => {| throws := false; reentrant := [ReqMarker 2] |}
    | popup_remove 7 => {| throws := false; reentrant := [ReqLayer "late"] |}
    | _ => ok
    end.

(** The service once the map is created. *)
Definition with_map : World := snd (createMap {| map_id := 0 |} new_MapService).

Definition c1_queue : World :=
  snd (performAll [ReqLayer "l1"; ReqSource "s1"; ReqLayer "l2"] with_map).

Definition c2_queue : World :=
  snd (performAll [ReqLayer "bad"; ReqLayer "good"; ReqImage "i"] with_map).

Definition c3_queue : World := snd (performAll [ReqMarker 1] with_map).

Definition c3_both : World := snd (performAll [ReqMarker 1; ReqPopup 7 false] with_map).

Definition c4_queue : World := snd (performAll [ReqLayer "l1"] with_map).

Definition c4_destroyed : World :=
  snd (onMicrotaskEmpty silent 1 (snd (destroyMap silent c4_queue))).

(** Popup 7 has listeners for 'open' and 'close'. *)
Definition c6_world : World :=
  set_popup_listeners [(7, ["open"; "close"])] with_map.

Definition c7_queue : World := snd (performAll [ReqLayer "l1"] with_map).

Definition c7_failed : World := snd (applyChanges (rejects_layer_once "l1") 1 c7_queue).

Definition c8_queue : World := snd (performAll [ReqLayer "x"; ReqSource "y"] with_map).

Definition c8_failed : World := snd (applyChanges (rejects_layer_once "x") 2 c8_queue).

(** ** Engines and worlds of the life-cycle properties *)

(** Every removal of a marker makes a callback request the removal of a
    marker. *)
Definition requeues_markers (o : Oracle) : Prop :=
  forall h marker,
    of_kind MarkerKind (map entry_of (reentrant (o h (marker_remove marker)))) <> [].

(** An engine on which removing a marker enqueues the same marker again. *)
Definition requeues_same_marker : Oracle :=
  fun _ c =>
    match c with
    | marker_remove marker => {| throws := false; reentrant := [ReqMarker marker] |}
    | _ => ok
    end.

(** The phases of [ks] in a row, when the run throws: the removals of the
    failing kind that had returned are all still pending. *)
Definition RetryResult (ks : list Kind) (w : World) (r : Completion) (w' : World)
  (seg : list Event) : Prop :=
  log w' = log w ++ seg /\
  (forall e, In e (removed seg) -> In (kind_of e) ks) /\
  match r with
  | Throw err =>
      exists x, In (kind_of x) ks /\
                In (error_call err) (teardown_calls x) /\
                In x (pending (kind_of x) w') /\
                forall e, kind_of e = kind_of x -> In e (removed seg) ->
                          In e (pending (kind_of x) w')
  | _ => True
  end.

(** Layers a and b are pending and removeLayer(b) throws: a, which was
    removed, is still pending with b. *)
Definition retry_queue : World := snd (performAll [ReqLayer "a"; ReqLayer "b"] with_map).

(** * The methods that forward to the engine *)

(** ** JavaScript values and objects *)

(** A number is an IEEE 754 double. *)
Definition JsNumber := SpecFloat.spec_float.

(** [NaN], [0] and [-0] are falsy, every other number is truthy. *)
Definition number_truthy (n : JsNumber) : bool :=
  match n with
  | SpecFloat.S754_zero _ | SpecFloat.S754_nan => false
  | SpecFloat.S754_infinity _ | SpecFloat.S754_finite _ _ _ => true
  end.

Definition zero : JsNumber := SpecFloat.S754_zero false.

(** 20, as a double: 5629499534213120 * 2^-48. *)
Definition twenty : JsNumber :=
  SpecFloat.S754_finite false 5629499534213120%positive (BinNums.Zneg 48%positive).

(** The values the service handles; objects, arrays and functions are
    references. *)
Inductive Value :=
| undefined
| null
| boolean (b : bool)
| number (n : JsNumber)
| str (s : string)
| reference (r : nat).

Definition is_undefined (v : Value) : bool :=
  match v with undefined => true | _ => false end.

Definition value_truthy (v : Value) : bool :=
  match v with
  | undefined | null => false
  | boolean b => b
  | number n => number_truthy n
  | str s => negb (String.eqb s "")
  | reference _ => true
  end.

(** An object: its own enumerable properties in the order [Object.keys]
    lists them (no property name is an array index here). *)
Definition Obj := list (string * Value).

(** [Object.keys(o)]. *)
Definition keys (o : Obj) : list string := map fst o.

(** [o[k]]. *)
Fixpoint obj_get (k : string) (o : Obj) : Value :=
  match o with
  | [] => undefined
  | (k', v) :: o' => if String.eqb k' k then v else obj_get k o'
  end.

(** [delete o[k]]. *)
Definition obj_delete (k : string) (o : Obj) : Obj :=
  filter (fun kv => negb (String.eqb (fst kv) k)) o.

(** [o[k] = v]: an existing property keeps its place, a new one comes last. *)
Fixpoint obj_set (k : string) (v : Value) (o : Obj) : Obj :=
  match o with
  | [] => [(k, v)]
  | (k', v') :: o' => if String.eqb k' k then (k, v) :: o' else (k', v') :: obj_set k v o'
  end.

(** The clean-up that [addLayer], [addSource], [createPopup] and
    [createMap] run on the options they are given:
    [Object.keys(o).forEach(key => o[key] === undefined && delete o[key])]. *)
Definition deleteUndefined (o : Obj) : Obj :=
  fold_left (fun acc key => if is_undefined (obj_get key acc) then obj_delete key acc else acc)
    (keys o) o.

(** A well-formed object has no property twice. *)
Definition well_formed (o : Obj) : Prop := NoDup (keys o).

Definition defined_property (kv : string * Value) : bool := negb (is_undefined (snd kv)).

(** ** The engine, seen from the forwarding methods

    The calls below reach the engine when the service forwards a request.
    An object handed over is recorded with the properties it has at the
    time of the call; a listener is recorded by the emitter it emits on.
    The engine answers each call by returning a value or by throwing; it
    is taken not to call back into the service before the call returns. *)

Inductive MovingMethod := jumpTo | easeTo | flyTo.

(** The emitters of a layer: [layerEvents.click], [.mouseEnter],
    [.mouseLeave] and [.mouseMove]. *)
Inductive LayerEmitter := click_emitter | mouseEnter_emitter | mouseLeave_emitter | mouseMove_emitter.

(** The emitters of a marker: [markersEvents.dragStart], [.drag] and
    [.dragEnd]. *)
Inductive MarkerEmitter := dragStart | drag | dragEnd.

Inductive Forwarded :=
| map_addLayer (layerOptions : Obj) (before : Value)
| map_on (type : LayerEvent) (layerId : Value) (emits : LayerEmitter)
| map_on_event (type : string) (emits : string)      (* mapInstance.on(type, listener) *)
| map_addSource (sourceId : string) (source : Obj)
| map_getZoom
| map_getCenter
| map_getBearing
| map_getPitch
| map_moving (movingMethod : MovingMethod) (options : Obj)
| map_setLayerZoomRange (layerId : string) (minzoom maxzoom : Value)
| map_setPaintProperty (layerId name : string) (value : Value)
| map_setLayoutProperty (layerId name : string) (value : Value)
| map_loadImage (url : string)
| map_addImage (imageId : string) (data options : Value)
| popup_setLngLat (popup : Popup) (lngLat : Value)
| popup_addTo (popup : Popup) (map : option MbMap)
| new_Marker (options : Obj)                         (* returns the marker *)
| marker_on (marker : Value) (type : string) (emits : MarkerEmitter)
| marker_setLngLat (marker : Value) (lngLat : Value)
| marker_addTo (marker : Value) (map : option MbMap).

Record Reply := {
  raises : bool;     (* the call ends by throwing *)
  result : Value     (* what it returns otherwise *)
}.

Definition Engine := list Forwarded -> Forwarded -> Reply.

Inductive Failure :=
| Raised (c : Forwarded)        (* thrown by the engine inside call [c] *)
| UndefinedMapInstance          (* TypeError: a property of the undefined mapInstance was read *)
| NullGeometry.                 (* TypeError: [coordinates] of a null geometry was read *)

Inductive Result :=
| Returns (v : Value)
| Throws (f : Failure).

(** The service together with the calls it has forwarded (ghost, oldest
    first; a call that threw is listed too). *)
Record Session := {
  service : World;
  forwarded : list Forwarded
}.

Definition Method := Session -> Result * Session.

Definition ret (v : Value) : Method := fun s => (Returns v, s).

Definition bind (m : Method) (k : Value -> Method) : Method :=
  fun s => match m s with
           | (Returns v, s1) => k v s1
           | (Throws f, s1) => (Throws f, s1)
           end.

Notation "m >>= k" := (bind m k) (at level 62, left associativity).
Notation "m1 >> m2" := (bind m1 (fun _ => m2)) (at level 62, left associativity).

(** A call on an engine object. *)
Definition issue (e : Engine) (c : Forwarded) : Method :=
  fun s =>
    let r := e (forwarded s) c in
    (if raises r then Throws (Raised c) else Returns (result r),
     {| service := service s; forwarded := forwarded s ++ [c] |}).

(** [this.mapInstance.f]: the method [f] of the map is looked up before
    the arguments of the call are evaluated. *)
Definition lookup_mapInstance : Method :=
  fun s => if truthy (mapInstance (service s))
           then (Returns undefined, s)
           else (Throws UndefinedMapInstance, s).

(** A call on [this.mapInstance] whose arguments are values already. *)
Definition onMap (e : Engine) (c : Forwarded) : Method :=
  lookup_mapInstance >> issue e c.

(** [keys.forEach(f)]. *)
Fixpoint forEach {A : Type} (l : list A) (f : A -> Method) : Method :=
  match l with
  | [] => ret undefined
  | x :: l' => f x >> forEach l' f
  end.

(** [if (n) stmt] for a length [n]. *)
Definition when (n : nat) (stmt : Method) : Method :=
  if Nat.eqb n 0 then ret undefined else stmt.

(** ** addLayer, addSource *)

(** A [SetupLayer]: the options and, for each emitter, its
    [observers.length]. *)
Record SetupLayer := {
  layerOptions : Obj;
  layerEvents : LayerEmitter -> nat
}.

Definition addLayer (e : Engine) (layer : SetupLayer) (bindEvents : bool) (before : Value) : Method :=
  let layerOptions' := deleteUndefined (layerOptions layer) in
  onMap e (map_addLayer layerOptions' before) >>
  (if bindEvents then
     when (layerEvents layer click_emitter)
       (onMap e (map_on click (obj_get "id" layerOptions') click_emitter)) >>
     when (layerEvents layer mouseEnter_emitter)
       (onMap e (map_on mouseenter (obj_get "id" layerOptions') mouseEnter_emitter)) >>
     when (layerEvents layer mouseLeave_emitter)
       (onMap e (map_on mouseleave (obj_get "id" layerOptions') mouseLeave_emitter)) >>
     when (layerEvents layer mouseMove_emitter)
       (onMap e (map_on mousemove (obj_get "id" layerOptions') mouseMove_emitter))
   else ret undefined) >>
  ret undefined.

Definition addSource (e : Engine) (sourceId : string) (source : Obj) : Method :=
  onMap e (map_addSource sourceId (deleteUndefined source)) >> ret undefined.

(** ** move, setLayerZoomRange *)

(** [{...o}] for an optional object. *)
Definition spread (o : option Obj) : Obj :=
  match o with Some o' => o' | None => [] end.

(** [v ? v : current()]. *)
Definition or_current (v : Value) (current : Method) : Method :=
  if value_truthy v then ret v else current.

Definition move (e : Engine) (movingMethod : MovingMethod) (movingOptions : option Obj)
  (zoom center bearing pitch : Value) : Method :=
  lookup_mapInstance >>
  (or_current zoom (onMap e map_getZoom) >>= fun z =>
   or_current center (onMap e map_getCenter) >>= fun c =>
   or_current bearing (onMap e map_getBearing) >>= fun b =>
   or_current pitch (onMap e map_getPitch) >>= fun p =>
   issue e (map_moving movingMethod
              (obj_set "pitch" p
                 (obj_set "bearing" b
                    (obj_set "center" c
                       (obj_set "zoom" z (spread movingOptions))))))) >>
  ret undefined.

Definition setLayerZoomRange (e : Engine) (layerId : string) (minZoom maxZoom : Value) : Method :=
  onMap e (map_setLayerZoomRange layerId
             (if value_truthy minZoom then minZoom else number zero)
             (if value_truthy maxZoom then maxZoom else number twenty)) >>
  ret undefined.

(** ** setAllLayerPaintProperty, setAllLayerLayoutProperty *)

Definition setAllLayerPaintProperty (e : Engine) (layerId : string) (paint : Obj) : Method :=
  forEach (keys paint)
    (fun key => onMap e (map_setPaintProperty layerId key (obj_get key paint))).

Definition setAllLayerLayoutProperty (e : Engine) (layerId : string) (layout : Obj) : Method :=
  forEach (keys layout)
    (fun key => onMap e (map_setLayoutProperty layerId key (obj_get key layout))).

(** ** addImage, loadAndAddImage *)

Definition addImage (e : Engine) (imageId : string) (data options : Value) : Method :=
  onMap e (map_addImage imageId data options) >> ret undefined.

(** Why a promise was rejected: with the error the engine reported, or with
    what was thrown while the executor ran. *)
Inductive Reason :=
| LoadError (error : Value)
| Thrown (f : Failure).

Inductive Promise :=
| Pending
| Fulfilled
| Rejected (reason : Reason).

(** [resolve()] and [reject(reason)] settle a pending promise only. *)
Definition resolve (p : Promise) : Promise :=
  match p with Pending => Fulfilled | _ => p end.

Definition reject (reason : Reason) (p : Promise) : Promise :=
  match p with Pending => Rejected reason | _ => p end.

(** The call of [loadAndAddImage] itself: the executor of the promise asks
    the engine to load the image; what it throws rejects the promise. *)
Definition loadAndAddImage (e : Engine) (url : string) : Session -> Promise * Session :=
  fun s => match onMap e (map_loadImage url) s with
           | (Returns _, s1) => (Pending, s1)
           | (Throws f, s1) => (Rejected (Thrown f), s1)
           end.

(** The callback given to [loadImage], run by the engine with [(error,
    image)] after [loadImage] has returned: its completion goes to the
    engine, the promise is the one [loadAndAddImage] returned. *)
Definition loadImage_callback (e : Engine) (imageId : string) (options : Value)
  (error image : Value) (p : Promise) : Session -> Result * Promise * Session :=
  fun s =>
    if value_truthy error then (Returns undefined, reject (LoadError error) p, s)
    else match addImage e imageId image options s with
         | (Returns _, s1) => (Returns undefined, resolve p, s1)
         | (Throws f, s1) => (Throws f, p, s1)
         end.

(** ** addPopupToMap *)

(** [delete popup._listeners[type]]. *)
Fixpoint delete_listener (type : string) (popup : Popup) (tbl : list (Popup * list string))
  : list (Popup * list string) :=
  match tbl with
  | [] => []
  | (p, ks) :: tbl' =>
      if Nat.eqb p popup
      then (p, filter (fun k => negb (String.eqb k type)) ks) :: tbl'
      else (p, ks) :: delete_listener type popup tbl'
  end.

Definition on_service (f : World -> World) : Method :=
  fun s => (Returns undefined, {| service := f (service s); forwarded := forwarded s |}).

Definition addPopupToMap (e : Engine) (popup : Popup) (lngLat : Value) (skipOpenEvent : bool) : Method :=
  on_service (fun w =>
                if skipOpenEvent && truthy (listeners_of popup (popup_listeners w))
                then set_popup_listeners (delete_listener "open" popup (popup_listeners w)) w
                else w) >>
  issue e (popup_setLngLat popup lngLat) >>
  (fun s => issue e (popup_addTo popup (mapInstance (service s))) s) >>
  ret undefined.

(** A removal method, run in a session. *)
Definition enqueue (r : Request) : Method := on_service (fun w => snd (perform r w)).

(** ** addMarker *)

Record Geometry := { coordinates : Value }.

(** A GeoJSON feature; its geometry may be null. *)
Record Feature := { geometry : option Geometry }.

Record MarkersOptions := {
  offset : Value;
  anchor : Value;
  draggable : Value;
  element : Value;
  childNodes_length : nat;       (* element.childNodes.length *)
  feature : option Feature;
  lngLat : Value
}.

(** A [SetupMarker]: the options and, for each emitter, its
    [observers.length]. *)
Record SetupMarker := {
  markersOptions : MarkersOptions;
  markersEvents : MarkerEmitter -> nat
}.

Definition throw (f : Failure) : Method := fun s => (Throws f, s).

Definition addMarker (e : Engine) (marker : SetupMarker) : Method :=
  let options := [("offset", offset (markersOptions marker));
                  ("anchor", anchor (markersOptions marker));
                  ("draggable", boolean (value_truthy (draggable (markersOptions marker))))] in
  let options := if Nat.ltb 0 (childNodes_length (markersOptions marker))
                 then obj_set "element" (element (markersOptions marker)) options
                 else options in
  issue e (new_Marker options) >>= fun markerInstance =>
  when (markersEvents marker dragStart)
    (issue e (marker_on markerInstance "dragstart" dragStart)) >>
  when (markersEvents marker drag)
    (issue e (marker_on markerInstance "drag" drag)) >>
  when (markersEvents marker dragEnd)
    (issue e (marker_on markerInstance "dragend" dragEnd)) >>
  (match feature (markersOptions marker) with
   | Some f => match geometry f with
               | Some g => ret (coordinates g)
               | None => throw NullGeometry
               end
   | None => ret (lngLat (markersOptions marker))
   end >>= fun position => issue e (marker_setLngLat markerInstance position)) >>
  (fun s => issue e (marker_addTo markerInstance (mapInstance (service s))) s) >>
  ret markerInstance.

(** ** hookEvents *)

(** A [MapEvent]: the [observers.length] of the emitter in each field. *)
Definition MapEvent := string -> nat.

(** The conditional bindings of [hookEvents], in the order of the source:
    the field whose observers are counted, the event type, and the field
    emitted on by the listener. *)
Definition hooks : list (string * string * string) :=
  [ ("resize", "resize", "resize");
    ("remove", "remove", "remove");
    ("mouseDown", "mousedown", "mouseDown");
    ("mouseUp", "mouseup", "mouseUp");
    ("mouseMove", "mousemove", "mouseMove");
    ("click", "click", "click");
    ("dblClick", "dblclick", "dblClick");
    ("mouseEnter", "mouseenter", "mouseEnter");
    ("mouseLeave", "mouseleave", "mouseLeave");
    ("mouseOver", "mouseover", "mouseOver");
    ("mouseOut", "mouseout", "mouseOut");
    ("contextMenu", "contextmenu", "contextMenu");
    ("touchStart", "touchstart", "touchStart");
    ("touchEnd", "touchend", "touchEnd");
    ("touchMove", "touchmove", "touchMove");
    ("touchCancel", "touchcancel", "touchCancel");
    ("wheel", "wheel", "wheel");
    ("moveStart", "movestart", "moveStart");
    ("move", "move", "move");
    ("moveEnd", "moveend", "moveEnd");
    ("dragStart", "dragstart", "dragStart");
    ("drag", "drag", "drag");
    ("dragEnd", "dragend", "dragEnd");
    ("zoomStart", "zoomstart", "zoomStart");
    ("zoomEvt", "zoom", "zoomEvt");
    ("zoomEnd", "zoomend", "zoomEnd");
    ("rotateStart", "rotatestart", "rotateStart");
    ("rotate", "rotate", "rotate");
    ("rotateEnd", "rotateend", "rotateEnd");
    ("pitchStart", "pitchstart", "pitchStart");
    ("pitchEvt", "pitch", "pitchEvt");
    ("pitchEnd", "pitchend", "pitchEnd");
    ("boxZoomStart", "boxzoomstart", "boxZoomStart");
    ("boxZoomEnd", "boxzoomend", "boxZoomEnd");
    ("boxZoomCancel", "boxzoomcancel", "boxZoomCancel");
    ("webGlContextLost", "webglcontextlost", "webGlContextLost");
    ("webGlContextRestored", "webglcontextrestored", "webGlContextRestored");
    ("render", "render", "render");
    ("error", "error", "error");
    ("data", "data", "data");
    ("styleData", "styledata", "styleData");
    ("sourceData", "sourcedata", "sourceData");
    ("dataLoading", "dataloading", "dataLoading");
    ("styleDataLoading", "styledataloading", "styleDataLoading");
    ("sourceDataLoading", "sourcedataloading", "sourceDataLoading") ].

Definition hookEvents (e : Engine) (events : MapEvent) : Method :=
  onMap e (map_on_event "load" "load") >>
  forEach hooks
    (fun h => when (events (fst (fst h))) (onMap e (map_on_event (snd (fst h)) (snd h)))).

(** ** Vocabulary of the forwarding statements *)

(** An engine that returns from every call. *)
Definition obliging (e : Engine) : Prop := forall h c, raises (e h c) = false.

(** The calls forwarded by a run. *)
Definition sent (s s' : Session) : list Forwarded :=
  skipn (List.length (forwarded s)) (forwarded s').

Definition has_map (s : Session) : Prop := mapInstance (service s) <> None.

(** The engine returns from each of the calls [cs], made one after the
    other after the calls [h]. *)
Definition answered (e : Engine) (h cs : list Forwarded) : Prop :=
  forall pre c post, cs = pre ++ c :: post -> raises (e (h ++ pre) c) = false.

(** The outcome of a run that forwards the calls [cs] one after the other
    until one throws: either the engine has returned from all of them, they
    were all made and the run returns undefined; or the engine has returned
    from the calls [pre] and thrown in the next one, [c], no call was made
    after [c] and the run throws what [c] threw. *)
Definition Forwards (e : Engine) (cs : list Forwarded) (s : Session) (r : Result * Session) : Prop :=
  service (snd r) = service s /\
  exists n,
    forwarded (snd r) = forwarded s ++ firstn n cs /\
    ((fst r = Returns undefined /\ List.length cs <= n /\ answered e (forwarded s) cs) \/
     (exists pre c, firstn n cs = pre ++ [c] /\
                    fst r = Throws (Raised c) /\
                    answered e (forwarded s) pre /\
                    raises (e (forwarded s ++ pre) c) = true)).

(** The emitter the listener of each event type emits on. *)
Definition emitter_of (type : LayerEvent) : LayerEmitter :=
  match type with
  | click => click_emitter
  | mouseenter => mouseEnter_emitter
  | mouseleave => mouseLeave_emitter
  | mousemove => mouseMove_emitter
  end.

Definition layer_event_types : list LayerEvent := [click; mouseenter; mouseleave; mousemove].

(** The emitter of the event type has an observer. *)
Definition observed (layer : SetupLayer) (type : LayerEvent) : bool :=
  negb (Nat.eqb (layerEvents layer (emitter_of type)) 0).

(** The listeners [addLayer] is to bind. *)
Definition bindings (layer : SetupLayer) (bindEvents : bool) : list Forwarded :=
  map (fun type => map_on type (obj_get "id" (deleteUndefined (layerOptions layer)))
                     (emitter_of type))
    (filter (fun type => bindEvents && observed layer type) layer_event_types).

(** An engine that returns [undefined] from every call. *)
Definition at_ease : Engine := fun _ _ => {| raises := false; result := undefined |}.

(** A session on a service that has its map and nothing pending. *)
Definition on_map : Session := {| service := with_map; forwarded := [] |}.

(** A layer with an undefined filter and observers of click and mousemove. *)
Definition roads : SetupLayer :=
  {| layerOptions := [("id", str "roads"); ("type", str "line"); ("filter", undefined)];
     layerEvents := fun em => match em with
                              | click_emitter => 2
                              | mouseMove_emitter => 1
                              | _ => 0
                              end |}.

(** The getters [move] calls: one for each falsy argument. *)
Definition camera_getters (zoom center bearing pitch : Value) : list Forwarded :=
  (if value_truthy zoom then [] else [map_getZoom]) ++
  (if value_truthy center then [] else [map_getCenter]) ++
  (if value_truthy bearing then [] else [map_getBearing]) ++
  (if value_truthy pitch then [] else [map_getPitch]).

Definition NaN : JsNumber := SpecFloat.S754_nan.

(** An engine that rejects the paint property line-width. *)
Definition rejects_line_width : Engine :=
  fun _ c => {| raises := match c with
                          | map_setPaintProperty _ name _ => String.eqb name "line-width"
                          | _ => false
                          end;
                result := undefined |}.

(** [loadAndAddImage], and then the engine running its callback once with
    [(error, image)]: how the callback completed, the promise, the session. *)
Definition load_then_callback (e : Engine) (imageId url : string) (options error image : Value)
  (s : Session) : Result * Promise * Session :=
  let (p, s1) := loadAndAddImage e url s in
  loadImage_callback e imageId options error image p s1.

(** An engine on which the image to add is known already. *)
Definition rejects_addImage : Engine :=
  fun _ c => {| raises := match c with map_addImage _ _ _ => true | _ => false end;
                result := undefined |}.

(** The listener table after [addPopupToMap]. *)
Definition without_open (popup : Popup) (skipOpenEvent : bool) (tbl : list (Popup * list string))
  : list (Popup * list string) :=
  if skipOpenEvent && truthy (listeners_of popup tbl)
  then delete_listener "open" popup tbl else tbl.

(** No string occurs twice. *)
Fixpoint distinct (l : list string) : bool :=
  match l with
  | [] => true
  | x :: l' => negb (existsb (String.eqb x) l') && distinct l'
  end.

(** The bindings made from a table of hooks, after the one for load. *)
Definition hooked_of (tbl : list (string * string * string)) (events : MapEvent)
  : list (string * string) :=
  ("load", "load") ::
  map (fun h => (snd (fst h), snd h))
    (filter (fun h => negb (Nat.eqb (events (fst (fst h))) 0)) tbl).

(** The event types [hookEvents] binds, with the field each listener emits
    on: load, and the hooks whose emitter has an observer. *)
Definition hooked (events : MapEvent) : list (string * string) := hooked_of hooks events.

(** Observers of click and of zoomEvt only. *)
Definition click_and_zoom : MapEvent :=
  fun field => if String.eqb field "click" then 1
               else if String.eqb field "zoomEvt" then 3 else 0.

Definition marker_event_type (emitter : MarkerEmitter) : string :=
  match emitter with
  | dragStart => "dragstart"
  | drag => "drag"
  | dragEnd => "dragend"
  end.

(** The listeners [addMarker] binds on the marker [m]. *)
Definition marker_bindings (marker : SetupMarker) (m : Value) : list Forwarded :=
  map (fun emitter => marker_on m (marker_event_type emitter) emitter)
    (filter (fun emitter => negb (Nat.eqb (markersEvents marker emitter) 0))
       [dragStart; drag; dragEnd]).

(** Where [addMarker] puts the marker: at the coordinates of the feature
    when there is one, at [lngLat] otherwise; nowhere when the feature has
    no geometry. *)
Definition marker_position (options : MarkersOptions) : option Value :=
  match feature options with
  | Some f => option_map coordinates (geometry f)
  | None => Some (lngLat options)
  end.

(** A marker with an observer of drag, for a feature without geometry. *)
Definition pin : SetupMarker :=
  {| markersOptions :=
       {| offset := undefined; anchor := str "bottom"; draggable := undefined;
          element := reference 3; childNodes_length := 0;
          feature := Some {| geometry := None |};
          lngLat := reference 4 |};
     markersEvents := fun emitter => match emitter with drag => 1 | _ => 0 end |}.

(** The getters answer with the number of calls forwarded before them: 0,
    then 1, ... *)
Definition counting_engine : Engine :=
  fun h c => {| raises := false;
                result := match c with
                          | map_getZoom | map_getCenter | map_getBearing | map_getPitch =>
                              reference (List.length h)
                          | _ => undefined
                          end |}.

(** * Theory *)

(** ** Composition of commands *)

Lemma seq_normal (m1 m2 : Cmd) (w w1 : World) :
  m1 w = (Normal, w1) -> (m1 ;; m2) w = m2 w1.
Proof. unfold seq. intros ->. reflexivity. Qed.

Lemma seq_abrupt (m1 m2 : Cmd) (w w1 : World) (r : Completion) :
  m1 w = (r, w1) -> r <> Normal -> (m1 ;; m2) w = (r, w1).
Proof. unfold seq. intros -> H. destruct r; congruence. Qed.

Lemma seq_inv (m1 m2 : Cmd) (w w' : World) (r : Completion) :
  (m1 ;; m2) w = (r, w') ->
  (exists w1, m1 w = (Normal, w1) /\ m2 w1 = (r, w')) \/
  (m1 w = (r, w') /\ r <> Normal).
Proof.
  unfold seq. destruct (m1 w) as [r1 w1]. destruct r1; intros H.
  - left. eauto.
  - right. inversion H; subst. split; [reflexivity | discriminate].
  - right. inversion H; subst. split; [reflexivity | discriminate].
Qed.

(** ** Invariants of runs

    A property [I w r w' seg] of a run from [w] to [w'] that ends with [r]
    and writes [seg] to the log holds of every command built from commands
    that have it, as soon as it is closed under sequencing. *)

Section Invariant.

Variable I : World -> Completion -> World -> list Event -> Prop.

Hypothesis I_skip : forall w, I w Normal w [].
Hypothesis I_fuel : forall w, I w OutOfFuel w [].
Hypothesis I_seq : forall w w1 w2 s1 s2 r,
  I w Normal w1 s1 -> I w1 r w2 s2 -> I w r w2 (s1 ++ s2).

Lemma sat_seq (m1 m2 : Cmd) : sat I m1 -> sat I m2 -> sat I (m1 ;; m2).
Proof.
  intros H1 H2 w. destruct (H1 w) as [s1 Hs1].
  destruct (m1 w) as [r1 w1] eqn:E1. simpl in Hs1.
  destruct r1.
  - rewrite (seq_normal _ _ _ _ E1).
    destruct (H2 w1) as [s2 Hs2]. exists (s1 ++ s2). eauto.
  - rewrite (seq_abrupt _ _ _ _ _ E1) by discriminate. exists s1. exact Hs1.
  - rewrite (seq_abrupt _ _ _ _ _ E1) by discriminate. exists s1. exact Hs1.
Qed.

Lemma sat_for_of {A : Type} (arr : World -> list A) (body : A -> Cmd) :
  (forall x, sat I (body x)) ->
  forall fuel i, sat I (for_of fuel arr body i).
Proof.
  intros Hb. induction fuel as [|fuel IH]; intros i w; simpl.
  - destruct (nth_error (arr w) i); exists []; simpl; auto.
  - destruct (nth_error (arr w) i) as [x|]; [|exists []; simpl; auto].
    destruct (Hb x w) as [s1 Hs1].
    destruct (body x w) as [r1 w1] eqn:E1. simpl in Hs1.
    destruct r1; try (exists s1; exact Hs1).
    destruct (IH (S i) w1) as [s2 Hs2]. exists (s1 ++ s2). eauto.
Qed.

End Invariant.

(** ** The log projections distribute over concatenation *)

Lemma enqueued_app (s1 s2 : list Event) : enqueued (s1 ++ s2) = enqueued s1 ++ enqueued s2.
Proof. apply flat_map_app. Qed.

Lemma removed_app (s1 s2 : list Event) : removed (s1 ++ s2) = removed s1 ++ removed s2.
Proof. apply flat_map_app. Qed.

Lemma attempted_app (s1 s2 : list Event) : attempted (s1 ++ s2) = attempted s1 ++ attempted s2.
Proof. apply flat_map_app. Qed.

Lemma of_kind_app (k : Kind) (l1 l2 : list Entry) :
  of_kind k (l1 ++ l2) = of_kind k l1 ++ of_kind k l2.
Proof. apply filter_app. Qed.

Lemma engine_calls_app (s1 s2 : list Event) :
  engine_calls (s1 ++ s2) = engine_calls s1 ++ engine_calls s2.
Proof. apply filter_app. Qed.

Lemma enqueued_requests (rs : list Request) :
  enqueued (map Enqueued rs) = map entry_of rs.
Proof. induction rs as [|r rs IH]; simpl; [reflexivity | now rewrite IH]. Qed.

Lemma engine_calls_requests (rs : list Request) : engine_calls (map Enqueued rs) = [].
Proof. induction rs as [|r rs IH]; simpl; auto. Qed.

Lemma of_kind_uniform (k j : Kind) (l : list Entry) :
  (forall e, In e l -> kind_of e = j) ->
  of_kind k l = if Kind_eqb j k then l else [].
Proof.
  unfold of_kind. induction l as [|x l IH]; intros H; simpl.
  - now destruct (Kind_eqb j k).
  - rewrite (H x) by now left. rewrite IH by (intros e He; apply H; now right).
    now destruct (Kind_eqb j k).
Qed.

Lemma pending_kind (j : Kind) (w : World) (e : Entry) :
  In e (pending j w) -> kind_of e = j.
Proof.
  destruct j; simpl; rewrite in_map_iff; intros (x & <- & _); reflexivity.
Qed.

Lemma of_kind_pending (k j : Kind) (w : World) :
  of_kind k (pending j w) = if Kind_eqb j k then pending j w else [].
Proof. apply of_kind_uniform. intros e. apply pending_kind. Qed.

(** ** What a run may change: [grows] *)

Lemma grows_refl (w : World) : grows w w [].
Proof.
  unfold grows. rewrite app_nil_r. repeat split; auto.
  intros k. simpl. now rewrite app_nil_r.
Qed.

Lemma grows_trans (w w1 w2 : World) (s1 s2 : list Event) :
  grows w w1 s1 -> grows w1 w2 s2 -> grows w w2 (s1 ++ s2).
Proof.
  intros (L1 & M1 & C1 & S1 & P1) (L2 & M2 & C2 & S2 & P2).
  unfold grows. repeat split; try congruence.
  - rewrite L2, L1. now rewrite app_assoc.
  - intros k. rewrite P2, P1, enqueued_app, of_kind_app. now rewrite app_assoc.
Qed.

Lemma perform_grows (r : Request) (w : World) :
  fst (perform r w) = Normal /\ grows w (snd (perform r w)) [Enqueued r].
Proof.
  split; [destruct r; reflexivity|].
  destruct r as [l|s|m|p b|i]; unfold grows; simpl;
    repeat split; try reflexivity;
    try (destruct (b && truthy (listeners_of p (popup_listeners w))); reflexivity);
    intros k; destruct k; simpl;
    try (destruct (b && truthy (listeners_of p (popup_listeners w))); simpl);
    rewrite ?app_nil_r, ?map_app; reflexivity.
Qed.

Lemma performAll_grows (rs : list Request) (w : World) :
  fst (performAll rs w) = Normal /\ grows w (snd (performAll rs w)) (map Enqueued rs).
Proof.
  revert w. induction rs as [|r rs IH]; intros w.
  - split; [reflexivity | apply grows_refl].
  - destruct (perform_grows r w) as [N1 G1].
    destruct (perform r w) as [r1 w1] eqn:E1. simpl in N1, G1. subst r1.
    cbn [performAll]. rewrite (seq_normal _ _ _ _ E1).
    destruct (IH w1) as [N2 G2]. split; [exact N2|].
    exact (grows_trans _ _ _ [Enqueued r] _ G1 G2).
Qed.

Lemma record_grows (c : EngineCall) (b : bool) (w : World) :
  grows w (record (Called c b) w) [Called c b].
Proof.
  unfold grows. simpl. repeat split; auto.
  intros k; destruct k; simpl; now rewrite app_nil_r.
Qed.

(** The two ways an engine call ends, and what it leaves. *)
Lemma engineCall_spec (o : Oracle) (c : EngineCall) (w : World) :
  let out := o (log w) c in
  fst (engineCall o c w) = (if throws out then Throw (EngineError c) else Normal) /\
  grows w (snd (engineCall o c w)) (map Enqueued (reentrant out) ++ [Called c (throws out)]).
Proof.
  intros out. unfold engineCall. fold out.
  destruct (performAll_grows (reentrant out) w) as [N G].
  destruct (performAll (reentrant out) w) as [r1 w1]. simpl in N, G. subst r1.
  simpl. split; [reflexivity|].
  eapply grows_trans; [exact G | apply record_grows].
Qed.

Lemma sat_Grow_engineCall (o : Oracle) (c : EngineCall) : sat Grow (engineCall o c).
Proof. intros w. eexists. apply engineCall_spec. Qed.

Lemma sat_Grow_mapCall (o : Oracle) (c : EngineCall) : sat Grow (mapCall o c).
Proof.
  intros w. unfold mapCall. destruct (mapInstance w).
  - apply sat_Grow_engineCall.
  - exists []. apply grows_refl.
Qed.

Lemma Grow_seq (w w1 w2 : World) (s1 s2 : list Event) (r : Completion) :
  Grow w Normal w1 s1 -> Grow w1 r w2 s2 -> Grow w r w2 (s1 ++ s2).
Proof. apply grows_trans. Qed.

(** ** The calls of a loop body

    A body is a chain of engine calls and stops at the first one that
    fails. *)

Lemma engineCall_step (o : Oracle) (c : EngineCall) : sat (Step c) (engineCall o c).
Proof.
  intros w. destruct (engineCall_spec o c w) as [R G].
  eexists. split; [exact G|]. rewrite R.
  rewrite engine_calls_app, engine_calls_requests. simpl.
  destruct (throws (o (log w) c)); auto.
Qed.

Lemma mapCall_step (o : Oracle) (c : EngineCall) : sat (Step c) (mapCall o c).
Proof.
  intros w. unfold mapCall. destruct (mapInstance w).
  - apply engineCall_step.
  - exists []. split; [apply grows_refl | simpl; auto].
Qed.

Lemma step_shape (c : EngineCall) (m : Cmd) : sat (Step c) m -> sat (Shape [c]) m.
Proof.
  intros H w. destruct (H w) as [seg [G S]]. exists seg. split; [exact G|].
  destruct (fst (m w)) as [|[c'|c']|]; simpl in *.
  - exact S.
  - destruct S as [-> ->]. exists [], []. auto.
  - destruct S as [-> ->]. exists [], []. auto.
  - exact S.
Qed.

Lemma shape_cons (c : EngineCall) (cs : list EngineCall) (m1 m2 : Cmd) :
  sat (Step c) m1 -> sat (Shape cs) m2 -> sat (Shape (c :: cs)) (m1 ;; m2).
Proof.
  intros H1 H2 w. destruct (H1 w) as [s1 [G1 S1]].
  destruct (m1 w) as [r1 w1] eqn:E1. simpl in G1, S1.
  destruct r1 as [|[c'|c']|].
  - rewrite (seq_normal _ _ _ _ E1).
    destruct (H2 w1) as [s2 [G2 S2]]. exists (s1 ++ s2).
    split; [eapply grows_trans; eauto|].
    rewrite engine_calls_app, S1.
    destruct (fst (m2 w1)) as [|[c2|c2]|]; simpl in *.
    + now rewrite S2.
    + destruct S2 as (pre & post & -> & ->). exists (c :: pre), post. auto.
    + destruct S2 as (pre & post & -> & ->). exists (c :: pre), post. auto.
    + exact S2.
  - rewrite (seq_abrupt _ _ _ _ _ E1) by discriminate. exists s1.
    split; [exact G1|]. destruct S1 as [-> ->]. exists [], cs. auto.
  - rewrite (seq_abrupt _ _ _ _ _ E1) by discriminate. exists s1.
    split; [exact G1|]. destruct S1 as [-> ->]. exists [], cs. auto.
  - contradiction.
Qed.

Lemma body_shape (o : Oracle) (e : Entry) : sat (Shape (teardown_calls e)) (body o e).
Proof.
  destruct e; simpl;
    repeat (apply shape_cons; [apply mapCall_step|]);
    apply step_shape; first [apply mapCall_step | apply engineCall_step].
Qed.

Lemma removed_engine_calls (seg : list Event) : removed (engine_calls seg) = removed seg.
Proof.
  unfold removed, engine_calls.
  induction seg as [|ev seg IH]; [reflexivity|].
  destruct ev as [c b|r]; simpl; [|exact IH].
  f_equal. exact IH.
Qed.

Lemma removed_teardown (e : Entry) : removed (returned (teardown_calls e)) = [e].
Proof. destruct e; reflexivity. Qed.

Lemma body_normal (o : Oracle) (e : Entry) (w w1 : World) :
  body o e w = (Normal, w1) ->
  exists seg, grows w w1 seg /\ engine_calls seg = returned (teardown_calls e) /\
              removed seg = [e].
Proof.
  intros E. destruct (body_shape o e w) as [seg [G S]]. rewrite E in G, S.
  simpl in G, S. exists seg. split; [exact G | split; [exact S|]].
  rewrite <- removed_engine_calls, S. apply removed_teardown.
Qed.

Lemma body_throw (o : Oracle) (e : Entry) (w w1 : World) (err : JsError) :
  body o e w = (Throw err, w1) ->
  In (error_call err) (teardown_calls e) /\ exists seg, grows w w1 seg.
Proof.
  intros E. destruct (body_shape o e w) as [seg [G S]]. rewrite E in G, S.
  simpl in G, S. split; [|eauto].
  destruct err as [c|c]; destruct S as (pre & post & -> & _);
    apply in_or_app; right; now left.
Qed.

(** ** One loop

    The five loops differ in the array they read and in the type of its
    elements; [inj] turns an element into an entry of kind [k]. *)

Lemma skipn_nth_error {A : Type} (l : list A) (i : nat) (x : A) :
  nth_error l i = Some x -> skipn i l = x :: skipn (S i) l.
Proof.
  revert i. induction l as [|a l IH]; intros [|i] H; simpl in *; try discriminate.
  - now inversion H.
  - now apply IH.
Qed.

Lemma skipn_none {A : Type} (l : list A) (i : nat) :
  nth_error l i = None -> skipn i l = [].
Proof. intros H. apply skipn_all2. now apply nth_error_None. Qed.

Section Loop.

Context {A : Type}.
Variable o : Oracle.
Variable k : Kind.
Variable arr : World -> list A.
Variable inj : A -> Entry.
Hypothesis arr_pending : forall w, pending k w = map inj (arr w).

Lemma loop_grows (fuel i : nat) :
  sat Grow (for_of fuel arr (fun x => body o (inj x)) i).
Proof.
  apply sat_for_of.
  - intros w. apply grows_refl.
  - intros w. apply grows_refl.
  - apply Grow_seq.
  - intros x w. destruct (body_shape o (inj x) w) as [seg [G _]]. eauto.
Qed.

Lemma pending_nth (w w1 : World) (seg : list Event) (i : nat) (x : A) :
  nth_error (arr w) i = Some x -> grows w w1 seg ->
  nth_error (pending k w1) i = Some (inj x).
Proof.
  intros N (_ & _ & _ & _ & P). rewrite P, arr_pending.
  rewrite nth_error_app1.
  - now apply map_nth_error.
  - rewrite length_map. apply nth_error_Some. congruence.
Qed.

(** A loop that ends normally has removed, one after the other, every entry
    its array holds from index [i] on when it ends. *)
Lemma loop_normal (fuel i : nat) (w w' : World) :
  for_of fuel arr (fun x => body o (inj x)) i w = (Normal, w') ->
  exists seg, grows w w' seg /\
              removed seg = skipn i (pending k w') /\
              engine_calls seg = returned (flat_map teardown_calls (removed seg)).
Proof.
  revert i w. induction fuel as [|fuel IH]; intros i w; simpl.
  - destruct (nth_error (arr w) i) as [x|] eqn:N; [discriminate|].
    intros E; inversion E; subst w'. exists []. split; [apply grows_refl|].
    rewrite arr_pending, skipn_map, (skipn_none _ _ N). auto.
  - destruct (nth_error (arr w) i) as [x|] eqn:N.
    + destruct (body o (inj x) w) as [r1 w1] eqn:E1.
      destruct r1; try discriminate. intros E.
      destruct (body_normal _ _ _ _ E1) as (s1 & G1 & C1 & R1).
      destruct (IH _ _ E) as (s2 & G2 & R2 & C2).
      pose proof (grows_trans _ _ _ _ _ G1 G2) as G.
      exists (s1 ++ s2). split; [exact G|]. split.
      * rewrite removed_app, R1, R2.
        now rewrite (skipn_nth_error _ _ _ (pending_nth _ _ _ _ _ N G)).
      * rewrite removed_app, R1, engine_calls_app, C1, C2. simpl.
        unfold returned. now rewrite map_app.
    + intros E; inversion E; subst w'. exists []. split; [apply grows_refl|].
      rewrite arr_pending, skipn_map, (skipn_none _ _ N). auto.
Qed.

(** A loop that ends by throwing leaves the entry that failed in its array. *)
Lemma loop_throw (fuel i : nat) (w w' : World) (err : JsError) :
  for_of fuel arr (fun x => body o (inj x)) i w = (Throw err, w') ->
  exists seg x, grows w w' seg /\ In x (pending k w') /\
                In (error_call err) (teardown_calls x).
Proof.
  revert i w. induction fuel as [|fuel IH]; intros i w; simpl.
  - destruct (nth_error (arr w) i); discriminate.
  - destruct (nth_error (arr w) i) as [x|] eqn:N; [|discriminate].
    destruct (body o (inj x) w) as [r1 w1] eqn:E1.
    destruct r1 as [|e1|].
    + intros E. destruct (body_normal _ _ _ _ E1) as (s1 & G1 & _).
      destruct (IH _ _ E) as (s2 & y & G2 & Hy & He).
      exists (s1 ++ s2), y. split; [eapply grows_trans; eauto | auto].
    + intros E; inversion E; subst e1 w1.
      destruct (body_throw _ _ _ _ _ E1) as (He & s1 & G1).
      exists s1, (inj x). split; [exact G1|]. split; [|exact He].
      eapply nth_error_In. eapply pending_nth; eauto.
    + intros E. discriminate.
Qed.

(** The loop followed by the assignment of a fresh empty array. *)

Variable reset : World -> World.
Hypothesis reset_log : forall w, log (reset w) = log w.
Hypothesis reset_map : forall w, mapInstance (reset w) = mapInstance w.
Hypothesis reset_closed : forall w, subscription_closed (reset w) = subscription_closed w.
Hypothesis reset_sub : forall w, subChanges (reset w) = subChanges w.
Hypothesis reset_own : forall w, pending k (reset w) = [].
Hypothesis reset_other : forall j w, j <> k -> pending j (reset w) = pending j w.

Lemma phase_inv (fuel : nat) (w : World) :
  let m := for_of fuel arr (fun x => body o (inj x)) 0 ;; assign reset in
  exists seg, PhaseResult k w (fst (m w)) (snd (m w)) seg.
Proof.
  intros m. subst m.
  destruct (for_of fuel arr (fun x => body o (inj x)) 0 w) as [r1 w1] eqn:E1.
  destruct r1 as [|err|].
  - rewrite (seq_normal _ _ _ _ E1). simpl.
    destruct (loop_normal _ _ _ _ E1) as (seg & (L & M & C & S & P) & R & EC).
    exists seg. unfold PhaseResult.
    rewrite reset_log, reset_map, reset_closed, reset_sub, reset_own.
    repeat split; auto.
    + intros j Hj. rewrite reset_other by exact Hj. apply P.
    + rewrite R. simpl. apply P.
  - rewrite (seq_abrupt _ _ _ _ _ E1) by discriminate. simpl.
    destruct (loop_throw _ _ _ _ _ E1) as (seg & x & (L & M & C & S & P) & Hx & He).
    exists seg. unfold PhaseResult. repeat split; eauto.
  - rewrite (seq_abrupt _ _ _ _ _ E1) by discriminate. simpl.
    destruct (loop_grows fuel 0 w) as [seg G]. rewrite E1 in G.
    destruct G as (L & M & C & S & P).
    exists seg. unfold PhaseResult. repeat split; auto.
Qed.

End Loop.

(** ** The five phases of a flush *)

Ltac reset_facts :=
  first [ intros; reflexivity
        | let j := fresh "j" in let H := fresh "H" in
          intros j ? H; destruct j; try reflexivity; exfalso; apply H; reflexivity ].

Lemma removeKind_inv (o : Oracle) (fuel : nat) (k : Kind) (w : World) :
  exists seg, PhaseResult k w (fst (removeKind o fuel k w)) (snd (removeKind o fuel k w)) seg.
Proof.
  destruct k.
  - apply (phase_inv o Layer layerIdsToRemove layer_entry (fun _ => eq_refl)
             (set_layerIdsToRemove [])); reset_facts.
  - apply (phase_inv o Source sourceIdsToRemove source_entry (fun _ => eq_refl)
             (set_sourceIdsToRemove [])); reset_facts.
  - apply (phase_inv o MarkerKind markersToRemove marker_entry (fun _ => eq_refl)
             (set_markersToRemove [])); reset_facts.
  - apply (phase_inv o PopupKind popupsToRemove popup_entry (fun _ => eq_refl)
             (set_popupsToRemove [])); reset_facts.
  - apply (phase_inv o Image imageIdsToRemove image_entry (fun _ => eq_refl)
             (set_imageIdsToRemove [])); reset_facts.
Qed.

Lemma removeKind_normal (o : Oracle) (fuel : nat) (k : Kind) (w w' : World) :
  removeKind o fuel k w = (Normal, w') ->
  exists seg, PhaseResult k w Normal w' seg.
Proof.
  intros E. destruct (removeKind_inv o fuel k w) as [seg H].
  rewrite E in H. eauto.
Qed.

Ltac seq_normal_inv H w1 E :=
  apply seq_inv in H;
  destruct H as [(w1 & E & H) | (_ & H)]; [| exfalso; apply H; reflexivity].

Ltac other O j := pose proof (O j ltac:(discriminate)).

Ltac unfold_pending :=
  repeat match goal with
         | H : pending ?k ?w = _ |- context [pending ?k ?w] => rewrite H
         end;
  rewrite <- ?app_assoc; simpl; try reflexivity.

Lemma applyChanges_phases (o : Oracle) (fuel : nat) (w w' : World) :
  applyChanges o fuel w = (Normal, w') ->
  exists sL sS sM sP sI, Phases w w' sL sS sM sP sI.
Proof.
  unfold applyChanges. intros H.
  seq_normal_inv H w1 E1. seq_normal_inv H w2 E2.
  seq_normal_inv H w3 E3. seq_normal_inv H w4 E4.
  destruct (removeKind_normal o fuel Layer _ _ E1) as (sL & L1 & _ & _ & _ & O1 & P1 & R1 & C1).
  destruct (removeKind_normal o fuel Source _ _ E2) as (sS & L2 & _ & _ & _ & O2 & P2 & R2 & C2).
  destruct (removeKind_normal o fuel MarkerKind _ _ E3) as (sM & L3 & _ & _ & _ & O3 & P3 & R3 & C3).
  destruct (removeKind_normal o fuel PopupKind _ _ E4) as (sP & L4 & _ & _ & _ & O4 & P4 & R4 & C4).
  destruct (removeKind_normal o fuel Image _ _ H) as (sI & L5 & _ & _ & _ & O5 & P5 & R5 & C5).
  exists sL, sS, sM, sP, sI. unfold Phases.
  split; [| split; [| split]].
  - rewrite L5, L4, L3, L2, L1. now rewrite <- !app_assoc.
  - other O1 Source. other O1 MarkerKind. other O1 PopupKind. other O1 Image.
    other O2 MarkerKind. other O2 PopupKind. other O2 Image.
    other O3 PopupKind. other O3 Image. other O4 Image.
    rewrite !enqueued_app, !of_kind_app.
    repeat split; try assumption.
    + rewrite R2. unfold_pending.
    + rewrite R3. unfold_pending.
    + rewrite R4. unfold_pending.
    + rewrite R5. unfold_pending.
  - other O2 Layer. other O3 Layer. other O4 Layer. other O5 Layer.
    other O3 Source. other O4 Source. other O5 Source.
    other O4 MarkerKind. other O5 MarkerKind. other O5 PopupKind.
    rewrite !enqueued_app, !of_kind_app.
    repeat split; try assumption; unfold_pending.
  - auto.
Qed.

(** ** A flush that may fail *)

Lemma applyChanges_kinds (o : Oracle) (fuel : nat) (w : World) :
  applyChanges o fuel w = removeKinds o fuel kinds w.
Proof.
  unfold applyChanges, kinds. simpl. unfold seq.
  destruct (removeLayers o fuel w) as [[| |] w1]; try reflexivity.
  destruct (removeSources o fuel w1) as [[| |] w2]; try reflexivity.
  destruct (removeMarkers o fuel w2) as [[| |] w3]; try reflexivity.
  destruct (removePopups o fuel w3) as [[| |] w4]; try reflexivity.
  destruct (removeImages o fuel w4) as [[| |] w5]; reflexivity.
Qed.

Lemma kept_trans (k : Kind) (w w1 w2 : World) (s1 s2 : list Event) :
  kept k w w1 s1 -> kept k w1 w2 s2 -> kept k w w2 (s1 ++ s2).
Proof.
  unfold kept. intros H1 H2.
  rewrite H2, H1, enqueued_app, of_kind_app. now rewrite app_assoc.
Qed.

Lemma drained_kept (k : Kind) (w1 w2 : World) (s1 s2 : list Event) :
  drained k w1 s1 -> kept k w1 w2 s2 -> drained k w2 (s1 ++ s2).
Proof.
  unfold kept, drained. intros [X H1] H2. exists X.
  rewrite enqueued_app, of_kind_app, H1, H2. now rewrite app_assoc.
Qed.

Lemma drained_later (k : Kind) (w2 : World) (s1 s2 : list Event) :
  drained k w2 s2 -> drained k w2 (s1 ++ s2).
Proof.
  unfold drained. intros [X H]. exists (of_kind k (enqueued s1) ++ X).
  rewrite enqueued_app, of_kind_app, H. now rewrite app_assoc.
Qed.

Lemma drained_quiet (k : Kind) (w' : World) (seg : list Event) :
  drained k w' seg -> enqueued seg = [] -> pending k w' = [].
Proof.
  intros [X H] E. rewrite E in H. simpl in H.
  symmetry in H. now apply app_eq_nil in H.
Qed.

Lemma Kind_eq_dec (a b : Kind) : {a = b} + {a <> b}.
Proof. decide equality. Qed.

Lemma phase_kept (k j : Kind) (w w' : World) (r : Completion) (seg : list Event) :
  PhaseResult k w r w' seg -> (j <> k \/ r <> Normal) -> kept j w w' seg.
Proof.
  intros (_ & _ & _ & _ & O & P) H. unfold kept.
  destruct (Kind_eq_dec j k) as [->|N]; [|now apply O].
  destruct H as [H|H]; [congruence|].
  destruct r; [congruence | apply P | apply P].
Qed.

Lemma phase_drained (k : Kind) (w w' : World) (seg : list Event) :
  PhaseResult k w Normal w' seg -> drained k w' seg.
Proof.
  intros (_ & _ & _ & _ & _ & P & _). exists (of_kind k (enqueued seg)).
  rewrite P. now rewrite app_nil_r.
Qed.

Lemma removeKinds_result (o : Oracle) (fuel : nat) (ks : list Kind) (w : World) :
  exists seg, FlushResult ks w (fst (removeKinds o fuel ks w))
                (snd (removeKinds o fuel ks w)) seg.
Proof.
  revert w. induction ks as [|k0 ks IH]; intros w.
  - exists []. simpl. split; [now rewrite app_nil_r|]. split.
    + intros k [].
    + intros k _. unfold kept. simpl. now rewrite app_nil_r.
  - cbn [removeKinds].
    destruct (removeKind_inv o fuel k0 w) as [s1 H1].
    destruct (removeKind o fuel k0 w) as [r1 w1] eqn:E1. simpl in H1.
    pose proof H1 as (L1 & _).
    destruct r1 as [|err|].
    + rewrite (seq_normal _ _ _ _ E1).
      destruct (IH w1) as [s2 [L2 H2]].
      destruct (removeKinds o fuel ks w1) as [r w']. simpl in *.
      exists (s1 ++ s2). split; [rewrite L2, L1; now rewrite app_assoc|].
      pose proof (phase_drained _ _ _ _ H1) as D0.
      destruct r as [|err|]; [| |exact I].
      * destruct H2 as [Hd Hk]. split.
        -- intros k [<-|Hin].
           ++ destruct (in_dec Kind_eq_dec k0 ks) as [Hin|Hout].
              ** apply drained_later. now apply Hd.
              ** eapply drained_kept; [exact D0 | now apply Hk].
           ++ apply drained_later. now apply Hd.
        -- intros k Hk0. eapply kept_trans.
           ++ eapply phase_kept; [exact H1|]. left. intros ->. apply Hk0. now left.
           ++ apply Hk. intros Hin. apply Hk0. now right.
      * destruct H2 as (pre & k & post & x & -> & Hx & He & Hd & Hk).
        exists (k0 :: pre), k, post, x. repeat split; auto.
        -- intros j [<-|Hin].
           ++ destruct (in_dec Kind_eq_dec k0 pre) as [Hin|Hout].
              ** apply drained_later. now apply Hd.
              ** eapply drained_kept; [exact D0 | now apply Hk].
           ++ apply drained_later. now apply Hd.
        -- intros j Hj. eapply kept_trans.
           ++ eapply phase_kept; [exact H1|]. left. intros ->. apply Hj. now left.
           ++ apply Hk. intros Hin. apply Hj. now right.
    + rewrite (seq_abrupt _ _ _ _ _ E1) by discriminate. simpl.
      exists s1. split; [exact L1|].
      destruct H1 as (_ & _ & _ & _ & O & P & x & Hx & He).
      exists [], k0, ks, x. repeat split; auto.
      * intros j [].
      * intros j _. unfold kept. destruct (Kind_eq_dec j k0) as [->|N]; auto.
    + rewrite (seq_abrupt _ _ _ _ _ E1) by discriminate. simpl.
      exists s1. split; [exact L1 | exact I].
Qed.

Lemma applyChanges_result (o : Oracle) (fuel : nat) (w : World) :
  exists seg, Outcome_of_flush w (fst (applyChanges o fuel w))
                (snd (applyChanges o fuel w)) seg.
Proof.
  rewrite applyChanges_kinds.
  destruct (removeKinds_result o fuel kinds w) as [seg [L H]].
  exists seg. split; [exact L|].
  destruct (fst (removeKinds o fuel kinds w)) as [|err|]; [| |exact I].
  - destruct H as [Hd _]. intros k. apply Hd. destruct k; simpl; auto 6.
  - destruct H as (pre & k & post & x & Hks & Hx & He & Hd & _).
    exists x. rewrite (pending_kind _ _ _ Hx). repeat split; auto.
    intros j Hj. apply Hd. unfold kinds in Hks.
    destruct pre as [|a [|b [|c [|d [|e pre]]]]]; simpl in Hks;
      inversion Hks; subst; destruct j; simpl in *; auto 6; try lia.
Qed.

(** ** A failing call ends the flush *)

Lemma no_failure_app (s1 s2 : list Event) :
  no_failure s1 -> no_failure s2 -> no_failure (s1 ++ s2).
Proof.
  intros H1 H2 c Hin. apply in_app_or in Hin. destruct Hin; [eapply H1 | eapply H2]; eauto.
Qed.

Lemma no_failure_requests (rs : list Request) : no_failure (map Enqueued rs).
Proof. intros c Hin. apply in_map_iff in Hin. destruct Hin as (r & Hr & _). discriminate. Qed.

Lemma FailLast_skip (w : World) : FailLast w Normal w [].
Proof. split; [now rewrite app_nil_r | intros c []]. Qed.

Lemma FailLast_fuel (w : World) : FailLast w OutOfFuel w [].
Proof. split; [now rewrite app_nil_r | intros c []]. Qed.

Lemma FailLast_seq (w w1 w2 : World) (s1 s2 : list Event) (r : Completion) :
  FailLast w Normal w1 s1 -> FailLast w1 r w2 s2 -> FailLast w r w2 (s1 ++ s2).
Proof.
  intros [L1 N1] [L2 H2]. split; [rewrite L2, L1; now rewrite app_assoc|].
  destruct r as [|[c|c]|]; try (apply no_failure_app; assumption).
  destruct H2 as (s0 & -> & N0). exists (s1 ++ s0).
  split; [now rewrite app_assoc | now apply no_failure_app].
Qed.

Lemma FailLast_engineCall (o : Oracle) (c : EngineCall) : sat FailLast (engineCall o c).
Proof.
  intros w. destruct (engineCall_spec o c w) as [R (L & _)].
  eexists. split; [exact L|]. rewrite R.
  destruct (throws (o (log w) c)).
  - eexists. split; [reflexivity | apply no_failure_requests].
  - apply no_failure_app; [apply no_failure_requests|].
    intros c' [H|[]]. discriminate.
Qed.

Lemma FailLast_mapCall (o : Oracle) (c : EngineCall) : sat FailLast (mapCall o c).
Proof.
  intros w. unfold mapCall. destruct (mapInstance w).
  - apply FailLast_engineCall.
  - exists []. simpl. split; [now rewrite app_nil_r | intros c' []].
Qed.

Lemma FailLast_assign (f : World -> World) :
  (forall w, log (f w) = log w) -> sat FailLast (assign f).
Proof.
  intros H w. exists []. unfold assign. cbn [fst snd].
  split; [rewrite H; now rewrite app_nil_r | intros c []].
Qed.

Ltac sat_steps Iskip Ifuel Iseq Icall Imap Iassign :=
  repeat first
    [ apply sat_seq; [exact Iseq | | ]
    | apply sat_for_of; [exact Iskip | exact Ifuel | exact Iseq | intros ?]
    | apply Imap
    | apply Icall
    | apply Iassign; intros; reflexivity ].

Lemma FailLast_applyChanges (o : Oracle) (fuel : nat) : sat FailLast (applyChanges o fuel).
Proof.
  unfold applyChanges, removeLayers, removeSources, removeMarkers, removePopups, removeImages.
  sat_steps FailLast_skip FailLast_fuel FailLast_seq
    FailLast_engineCall FailLast_mapCall FailLast_assign.
Qed.

Lemma failure_is_last (s0 pre post : list Event) (c c' : EngineCall) :
  no_failure s0 ->
  s0 ++ [Called c true] = pre ++ Called c' true :: post ->
  post = [] /\ c' = c /\ pre = s0.
Proof.
  intros N E. destruct post as [|ev post] using rev_ind.
  - apply app_inj_tail in E. destruct E as [-> E]. inversion E. auto.
  - clear IHpost. exfalso.
    change (pre ++ Called c' true :: post ++ [ev])
      with (pre ++ (Called c' true :: post) ++ [ev]) in E.
    rewrite app_assoc in E. apply app_inj_tail in E. destruct E as [-> _].
    apply (N c'). apply in_or_app. right. now left.
Qed.

(** ** Runs against an engine that returns from every call *)

Lemma add_log_nil (w : World) : add_log [] w = w.
Proof. destruct w. unfold add_log. simpl. now rewrite app_nil_r. Qed.

Lemma add_log_app (e1 e2 : list Event) (w : World) :
  add_log e2 (add_log e1 w) = add_log (e1 ++ e2) w.
Proof. unfold add_log. simpl. now rewrite app_assoc. Qed.

Lemma engineCall_quiet (o : Oracle) (c : EngineCall) (w : World) :
  quiet o -> engineCall o c w = (Normal, add_log [Called c false] w).
Proof.
  intros Q. unfold engineCall. destruct (Q (log w) c) as [T R].
  rewrite R, T. reflexivity.
Qed.

Lemma mapCall_quiet (o : Oracle) (c : EngineCall) (w : World) :
  quiet o -> mapInstance w <> None ->
  mapCall o c w = (Normal, add_log [Called c false] w).
Proof.
  intros Q M. unfold mapCall. destruct (mapInstance w); [|congruence].
  now apply engineCall_quiet.
Qed.

Lemma body_quiet (o : Oracle) (e : Entry) (w : World) :
  quiet o -> mapInstance w <> None ->
  body o e w = (Normal, add_log (returned (teardown_calls e)) w).
Proof.
  intros Q M. destruct e; simpl;
    repeat (erewrite seq_normal; [| apply mapCall_quiet; [exact Q | exact M]]);
    first [rewrite mapCall_quiet by assumption | rewrite engineCall_quiet by assumption];
    rewrite ?add_log_app; reflexivity.
Qed.

Section QuietLoop.

Context {A : Type}.
Variable o : Oracle.
Variable arr : World -> list A.
Variable inj : A -> Entry.
Hypothesis o_quiet : quiet o.
Hypothesis arr_log : forall evs w, arr (add_log evs w) = arr w.

Lemma loop_quiet (fuel i : nat) (w : World) :
  mapInstance w <> None -> List.length (arr w) - i <= fuel ->
  for_of fuel arr (fun x => body o (inj x)) i w =
  (Normal, add_log (returned (flat_map teardown_calls (map inj (skipn i (arr w))))) w).
Proof.
  revert i w. induction fuel as [|fuel IH]; intros i w M Hlen; simpl.
  - destruct (nth_error (arr w) i) as [x|] eqn:N.
    + assert (i < List.length (arr w)) by (apply nth_error_Some; congruence). lia.
    + rewrite (skipn_none _ _ N). simpl. now rewrite add_log_nil.
  - destruct (nth_error (arr w) i) as [x|] eqn:N.
    + rewrite (body_quiet o (inj x) w o_quiet M).
      rewrite IH; [| exact M | rewrite arr_log; lia].
      rewrite arr_log, add_log_app, (skipn_nth_error _ _ _ N). simpl.
      unfold returned. now rewrite map_app.
    + rewrite (skipn_none _ _ N). simpl. now rewrite add_log_nil.
Qed.

End QuietLoop.

Lemma applyChanges_quiet (o : Oracle) (fuel : nat) (w : World) :
  quiet o -> mapInstance w <> None -> queue_bound w <= fuel ->
  applyChanges o fuel w = (Normal, flushed w).
Proof.
  intros Q M B. unfold queue_bound in B.
  unfold applyChanges, removeLayers, removeSources, removeMarkers, removePopups, removeImages.
  erewrite seq_normal;
    [| erewrite seq_normal;
       [ reflexivity
       | apply (loop_quiet o layerIdsToRemove layer_entry Q);
         [ reflexivity | exact M | lia ] ] ].
  erewrite seq_normal;
    [| erewrite seq_normal;
       [ reflexivity
       | apply (loop_quiet o sourceIdsToRemove source_entry Q);
         [ reflexivity | exact M | simpl; lia ] ] ].
  erewrite seq_normal;
    [| erewrite seq_normal;
       [ reflexivity
       | apply (loop_quiet o markersToRemove marker_entry Q);
         [ reflexivity | exact M | simpl; lia ] ] ].
  erewrite seq_normal;
    [| erewrite seq_normal;
       [ reflexivity
       | apply (loop_quiet o popupsToRemove popup_entry Q);
         [ reflexivity | exact M | simpl; lia ] ] ].
  erewrite seq_normal;
    [ | apply (loop_quiet o imageIdsToRemove image_entry Q);
        [ reflexivity | exact M | simpl; lia ] ].
  unfold assign, flushed, plan, add_log. simpl. f_equal. f_equal.
  unfold returned. rewrite !flat_map_app, !map_app, <- !app_assoc. reflexivity.
Qed.

(** ** The order of the calls of a flush *)

Lemma split_cons_inv {A : Type} (a x : A) (l pre post : list A) :
  a :: l = pre ++ x :: post ->
  (pre = [] /\ a = x /\ l = post) \/
  (exists pre', pre = a :: pre' /\ l = pre' ++ x :: post).
Proof.
  destruct pre as [|p pre]; simpl; intros H; inversion H; subst; eauto.
Qed.

Ltac split_list H :=
  match type of H with
  | [] = _ ++ _ :: _ => exfalso; exact (app_cons_not_nil _ _ _ H)
  | _ :: _ = _ ++ _ :: _ =>
      apply split_cons_inv in H;
      destruct H as [(-> & ? & ?) | (? & -> & H)]; [ | split_list H]
  end.

Lemma in_engine_calls (c : EngineCall) (b : bool) (seg : list Event) :
  In (Called c b) seg <-> In (Called c b) (engine_calls seg).
Proof.
  unfold engine_calls. rewrite filter_In. simpl. tauto.
Qed.

Lemma layer_block (layerId : string) (r : Completion) (cs : list Event) :
  CallsShape (teardown_calls (layer_entry layerId)) r cs ->
  unbound_first cs /\ (forall c b, In (Called c b) cs -> layer_call c = true).
Proof.
  destruct r as [|[c|c]|]; simpl; [intros -> | | | intros []].
  - split.
    + intros pre id b post H. simpl in H. split_list H; try discriminate.
      match goal with E : Called _ _ = Called _ _ |- _ => inversion E; subst end.
      exists []. reflexivity.
    + simpl. intros c b H.
      repeat (destruct H as [H|H]; [inversion H; reflexivity|]). destruct H.
  - intros (pre0 & post0 & H0 & ->). split_list H0; subst; simpl; split.
    all: try (intros pre id b post H; simpl in H; split_list H; try discriminate;
              match goal with E : Called _ _ = Called _ _ |- _ => inversion E; subst end;
              exists []; reflexivity).
    all: intros c' b H;
      repeat (destruct H as [H|H]; [inversion H; reflexivity|]); destruct H.
  - intros (pre0 & post0 & H0 & ->). split_list H0; subst; simpl; split.
    all: try (intros pre id b post H; simpl in H; split_list H; try discriminate;
              match goal with E : Called _ _ = Called _ _ |- _ => inversion E; subst end;
              exists []; reflexivity).
    all: intros c' b H;
      repeat (destruct H as [H|H]; [inversion H; reflexivity|]); destruct H.
Qed.

Lemma unbound_first_app (c1 c2 : list Event) :
  unbound_first c1 -> unbound_first c2 -> unbound_first (c1 ++ c2).
Proof.
  intros U1 U2 pre id b post H.
  apply app_eq_app in H. destruct H as [l [[H1 H2] | [H1 H2]]].
  - destruct l as [|y l]; simpl in H2.
    + symmetry in H2. destruct (U2 [] id b post H2) as [pre' Hp].
      destruct pre'; discriminate.
    + inversion H2; subst. eapply U1. reflexivity.
  - destruct (U2 _ _ _ _ H2) as [pre' ->]. exists (c1 ++ pre').
    rewrite H1. now rewrite app_assoc.
Qed.

Lemma LayerPhase_nil (r : Completion) (w : World) : LayerPhase w r w [].
Proof.
  split; [now rewrite app_nil_r|]. split.
  - intros pre id b post H. destruct pre; discriminate.
  - intros c b [].
Qed.

Lemma LayerPhase_seq (w w1 w2 : World) (s1 s2 : list Event) (r : Completion) :
  LayerPhase w Normal w1 s1 -> LayerPhase w1 r w2 s2 -> LayerPhase w r w2 (s1 ++ s2).
Proof.
  intros (L1 & U1 & O1) (L2 & U2 & O2). split; [rewrite L2, L1; now rewrite app_assoc|].
  split.
  - rewrite engine_calls_app. now apply unbound_first_app.
  - intros c b H. apply in_app_or in H. destruct H; eauto.
Qed.

Lemma LayerPhase_body (o : Oracle) (layerId : string) :
  sat LayerPhase (body o (layer_entry layerId)).
Proof.
  intros w. destruct (body_shape o (layer_entry layerId) w) as [seg [G S]].
  exists seg. destruct G as (L & _). split; [exact L|].
  destruct (layer_block _ _ _ S) as [U O]. split; [exact U|].
  intros c b H. apply (O c b). now apply (proj1 (in_engine_calls _ _ _)).
Qed.

Lemma LayerPhase_assign (f : World -> World) :
  (forall w, log (f w) = log w) -> sat LayerPhase (assign f).
Proof.
  intros H w. exists []. unfold assign. cbn [fst snd].
  destruct (LayerPhase_nil Normal w) as (_ & U & O).
  split; [rewrite H; now rewrite app_nil_r | auto].
Qed.

Lemma LayerPhase_removeLayers (o : Oracle) (fuel : nat) :
  sat LayerPhase (removeLayers o fuel).
Proof.
  unfold removeLayers. apply sat_seq; [exact LayerPhase_seq | |].
  - apply (sat_for_of LayerPhase (LayerPhase_nil Normal) (LayerPhase_nil OutOfFuel)
             LayerPhase_seq layerIdsToRemove (fun layerId => body o (layer_entry layerId))).
    intros x. apply LayerPhase_body.
  - apply LayerPhase_assign. reflexivity.
Qed.

Lemma OtherPhase_nil (r : Completion) (w : World) : OtherPhase w r w [].
Proof. split; [now rewrite app_nil_r | intros c b []]. Qed.

Lemma OtherPhase_seq (w w1 w2 : World) (s1 s2 : list Event) (r : Completion) :
  OtherPhase w Normal w1 s1 -> OtherPhase w1 r w2 s2 -> OtherPhase w r w2 (s1 ++ s2).
Proof.
  intros (L1 & O1) (L2 & O2). split; [rewrite L2, L1; now rewrite app_assoc|].
  intros c b H. apply in_app_or in H. destruct H; eauto.
Qed.

Lemma OtherPhase_engineCall (o : Oracle) (c : EngineCall) :
  layer_call c = false -> sat OtherPhase (engineCall o c).
Proof.
  intros N w. destruct (engineCall_spec o c w) as [_ (L & _)].
  eexists. split; [exact L|].
  intros c' b H. apply in_app_or in H. destruct H as [H|[H|[]]].
  - apply in_map_iff in H. destruct H as (r & Hr & _). discriminate.
  - inversion H; subst. exact N.
Qed.

Lemma OtherPhase_mapCall (o : Oracle) (c : EngineCall) :
  layer_call c = false -> sat OtherPhase (mapCall o c).
Proof.
  intros N w. unfold mapCall. destruct (mapInstance w).
  - now apply OtherPhase_engineCall.
  - exists []. apply OtherPhase_nil.
Qed.

Lemma OtherPhase_assign (f : World -> World) :
  (forall w, log (f w) = log w) -> sat OtherPhase (assign f).
Proof.
  intros H w. exists []. unfold assign. cbn [fst snd].
  split; [rewrite H; now rewrite app_nil_r | intros c b []].
Qed.

Lemma OtherPhase_rest (o : Oracle) (fuel : nat) :
  sat OtherPhase (removeSources o fuel ;; removeMarkers o fuel ;;
                  removePopups o fuel ;; removeImages o fuel).
Proof.
  unfold removeSources, removeMarkers, removePopups, removeImages.
  repeat first
    [ apply sat_seq; [exact OtherPhase_seq | | ]
    | apply sat_for_of;
      [exact (OtherPhase_nil Normal) | exact (OtherPhase_nil OutOfFuel)
      | exact OtherPhase_seq | intros ?]
    | apply OtherPhase_mapCall; reflexivity
    | apply OtherPhase_engineCall; reflexivity
    | apply OtherPhase_assign; intros; reflexivity ].
Qed.

Lemma applyChanges_order (o : Oracle) (fuel : nat) (w : World) :
  exists sL sR,
    log (snd (applyChanges o fuel w)) = log w ++ sL ++ sR /\
    unbound_first (engine_calls sL) /\ only_layer_calls sL /\ no_layer_calls sR.
Proof.
  unfold applyChanges.
  destruct (LayerPhase_removeLayers o fuel w) as [sL (L1 & U & O)].
  destruct (removeLayers o fuel w) as [r1 w1] eqn:E1. simpl in L1.
  destruct r1.
  - rewrite (seq_normal _ _ _ _ E1).
    destruct (OtherPhase_rest o fuel w1) as [sR (L2 & N)].
    exists sL, sR. rewrite L2, L1. rewrite app_assoc. auto.
  - rewrite (seq_abrupt _ _ _ _ _ E1) by discriminate.
    exists sL, []. simpl. rewrite app_nil_r. repeat split; auto. intros c b [].
  - rewrite (seq_abrupt _ _ _ _ _ E1) by discriminate.
    exists sL, []. simpl. rewrite app_nil_r. repeat split; auto. intros c b [].
Qed.

Lemma order_of_phases (sL sR : list Event) :
  unbound_first (engine_calls sL) -> only_layer_calls sL -> no_layer_calls sR ->
  unbound_first (engine_calls (sL ++ sR)) /\
  layers_before_sources (engine_calls (sL ++ sR)).
Proof.
  intros U O N. rewrite engine_calls_app. split.
  - intros pre id b post H. apply app_eq_app in H.
    destruct H as [l [[H1 H2] | [H1 H2]]].
    + destruct l as [|y l]; simpl in H2.
      * exfalso. assert (Hin : In (Called (map_removeLayer id) b) (engine_calls sR))
          by (rewrite <- H2; now left).
        apply (proj2 (in_engine_calls _ _ _)) in Hin. apply N in Hin. discriminate.
      * inversion H2; subst. eapply U. exact H1.
    + exfalso. assert (Hin : In (Called (map_removeLayer id) b) (engine_calls sR))
        by (rewrite H2; apply in_or_app; right; now left).
      apply (proj2 (in_engine_calls _ _ _)) in Hin. apply N in Hin. discriminate.
  - intros pre s b post H c b' Hc. apply app_eq_app in H.
    destruct H as [l [[H1 H2] | [H1 H2]]].
    + destruct l as [|y l]; simpl in H2.
      * apply (N c b'). apply (proj2 (in_engine_calls _ _ _)). rewrite <- H2. now right.
      * inversion H2; subst. exfalso.
        assert (Hin : In (Called (map_removeSource s) b) (engine_calls sL))
          by (rewrite H1; apply in_or_app; right; now left).
        apply (proj2 (in_engine_calls _ _ _)) in Hin. apply O in Hin. discriminate.
    + apply (N c b'). apply (proj2 (in_engine_calls _ _ _)). rewrite H2.
      apply in_or_app. right. now right.
Qed.

(** ** The loop bound

    A run that does not reach the bound is the same under any larger one:
    the bound is no part of the behaviour. *)

Lemma for_of_more_fuel {A : Type} (arr : World -> list A) (body : A -> Cmd)
  (fuel fuel' i : nat) (w : World) :
  fuel <= fuel' ->
  fst (for_of fuel arr body i w) <> OutOfFuel ->
  for_of fuel' arr body i w = for_of fuel arr body i w.
Proof.
  revert fuel' i w. induction fuel as [|fuel IH]; intros fuel' i w Hle H.
  - simpl in *. destruct (nth_error (arr w) i) eqn:N.
    + exfalso. now apply H.
    + destruct fuel'; simpl; now rewrite N.
  - destruct fuel' as [|fuel']; [lia|]. simpl in *.
    destruct (nth_error (arr w) i) as [x|]; [|reflexivity].
    destruct (body x w) as [[|e|] w1]; try reflexivity.
    apply IH; [lia | exact H].
Qed.

Lemma seq_more_fuel (m1 m1' m2 m2' : Cmd) :
  (forall w, fst (m1 w) <> OutOfFuel -> m1' w = m1 w) ->
  (forall w, fst (m2 w) <> OutOfFuel -> m2' w = m2 w) ->
  forall w, fst ((m1 ;; m2) w) <> OutOfFuel -> (m1' ;; m2') w = (m1 ;; m2) w.
Proof.
  intros H1 H2 w. unfold seq.
  destruct (m1 w) as [r1 w1] eqn:E1. intros H.
  rewrite H1; rewrite E1.
  - destruct r1; auto.
  - simpl. destruct r1; simpl in *; congruence.
Qed.

Lemma applyChanges_more_fuel (o : Oracle) (fuel fuel' : nat) (w : World) :
  fuel <= fuel' ->
  fst (applyChanges o fuel w) <> OutOfFuel ->
  applyChanges o fuel' w = applyChanges o fuel w.
Proof.
  intros Hle. revert w.
  unfold applyChanges, removeLayers, removeSources, removeMarkers, removePopups, removeImages.
  repeat first
    [ apply seq_more_fuel
    | intros w H; now apply for_of_more_fuel
    | intros w H; reflexivity ].
Qed.

(** ** Requests *)

Lemma performAll_pending (rs : list Request) (w : World) (k : Kind) :
  pending k (snd (performAll rs w)) = pending k w ++ of_kind k (map entry_of rs).
Proof.
  destruct (performAll_grows rs w) as [_ (_ & _ & _ & _ & P)].
  rewrite P. now rewrite enqueued_requests.
Qed.

Lemma performAll_frame (rs : list Request) (w : World) :
  mapInstance (snd (performAll rs w)) = mapInstance w /\
  log (snd (performAll rs w)) = log w ++ map Enqueued rs.
Proof.
  destruct (performAll_grows rs w) as [_ (L & M & _)]. auto.
Qed.

Lemma queue_bound_pending (w : World) (n : nat) :
  (forall k, List.length (pending k w) <= n) -> queue_bound w <= n.
Proof.
  intros H. unfold queue_bound.
  pose proof (H Layer) as H1. pose proof (H Source) as H2.
  pose proof (H MarkerKind) as H3. pose proof (H PopupKind) as H4.
  pose proof (H Image) as H5. simpl in *. rewrite length_map in *. lia.
Qed.

Lemma of_kind_length (k : Kind) (l : list Entry) : List.length (of_kind k l) <= List.length l.
Proof. apply filter_length_le. Qed.

(** Sorting by kind keeps every entry, once. *)
Lemma by_kind_permutation (l : list Entry) :
  Permutation
    (of_kind Layer l ++ of_kind Source l ++ of_kind MarkerKind l ++
     of_kind PopupKind l ++ of_kind Image l) l.
Proof.
  induction l as [|e l IH]; [constructor|].
  destruct e; simpl.
  - now constructor.
  - apply Permutation_sym, Permutation_cons_app, Permutation_sym, IH.
  - rewrite !app_assoc. rewrite <- (app_assoc _ _ (_ :: _)).
    rewrite <- !app_assoc. rewrite app_assoc.
    apply Permutation_sym, Permutation_cons_app, Permutation_sym.
    rewrite <- app_assoc. exact IH.
  - rewrite (app_assoc (of_kind Layer l)), (app_assoc (of_kind Layer l ++ _)).
    apply Permutation_sym, Permutation_cons_app, Permutation_sym.
    rewrite <- !app_assoc. exact IH.
  - rewrite (app_assoc (of_kind Layer l)), (app_assoc (of_kind Layer l ++ _)),
      (app_assoc ((of_kind Layer l ++ _) ++ _)).
    apply Permutation_sym, Permutation_cons_app, Permutation_sym.
    rewrite <- !app_assoc. exact IH.
Qed.

Lemma attempted_returned (es : list Entry) :
  attempted (returned (flat_map teardown_calls es)) = es.
Proof.
  induction es as [|e es IH]; [reflexivity|].
  simpl. unfold returned. rewrite map_app. fold (returned (teardown_calls e)).
  fold (returned (flat_map teardown_calls es)).
  rewrite attempted_app, IH. destruct e; reflexivity.
Qed.

(** ** A flush in which no call throws

    Such a flush ends normally as soon as the service has its map and the
    loop bound is no less than what the arrays hold and get. *)

Lemma MapNeeded_skip (w : World) : MapNeeded w Normal w [].
Proof. split; [reflexivity | exact I]. Qed.

Lemma MapNeeded_fuel (w : World) : MapNeeded w OutOfFuel w [].
Proof. split; [reflexivity | exact I]. Qed.

Lemma MapNeeded_seq (w w1 w2 : World) (s1 s2 : list Event) (r : Completion) :
  MapNeeded w Normal w1 s1 -> MapNeeded w1 r w2 s2 -> MapNeeded w r w2 (s1 ++ s2).
Proof.
  intros [M1 _] [M2 H]. split; [now rewrite M2|].
  destruct r as [|[c|c]|]; try exact I. now rewrite <- M1.
Qed.

Lemma MapNeeded_engineCall (o : Oracle) (c : EngineCall) : sat MapNeeded (engineCall o c).
Proof.
  intros w. destruct (engineCall_spec o c w) as [R (_ & M & _)].
  exists []. split; [exact M|]. rewrite R.
  destruct (throws (o (log w) c)); exact I.
Qed.

Lemma MapNeeded_mapCall (o : Oracle) (c : EngineCall) : sat MapNeeded (mapCall o c).
Proof.
  intros w. unfold mapCall. destruct (mapInstance w) eqn:M.
  - destruct (MapNeeded_engineCall o c w) as [seg H]. exists seg. exact H.
  - exists []. simpl. split; [reflexivity | exact M].
Qed.

Lemma MapNeeded_assign (f : World -> World) :
  (forall w, mapInstance (f w) = mapInstance w) -> sat MapNeeded (assign f).
Proof. intros H w. exists []. unfold assign. cbn [fst snd]. split; [apply H | exact I]. Qed.

Lemma MapNeeded_applyChanges (o : Oracle) (fuel : nat) : sat MapNeeded (applyChanges o fuel).
Proof.
  unfold applyChanges, removeLayers, removeSources, removeMarkers, removePopups, removeImages.
  sat_steps MapNeeded_skip MapNeeded_fuel MapNeeded_seq
    MapNeeded_engineCall MapNeeded_mapCall MapNeeded_assign.
Qed.

Lemma body_ends (o : Oracle) (e : Entry) (w : World) : fst (body o e w) <> OutOfFuel.
Proof.
  destruct (body_shape o e w) as [seg [_ C]]. intros E. rewrite E in C. exact C.
Qed.

(** A loop that runs out of fuel has more to visit than its bound. *)
Lemma for_of_out_of_fuel {A : Type} (arr : World -> list A) (loop_body : A -> Cmd)
  (fuel i : nat) (w w' : World) :
  (forall x w0, fst (loop_body x w0) <> OutOfFuel) ->
  for_of fuel arr loop_body i w = (OutOfFuel, w') ->
  fuel + i < List.length (arr w').
Proof.
  intros Hb. revert i w. induction fuel as [|fuel IH]; intros i w; simpl.
  - destruct (nth_error (arr w) i) as [x|] eqn:N; [|discriminate].
    intros E. inversion E; subst w'. apply nth_error_Some. congruence.
  - destruct (nth_error (arr w) i) as [x|] eqn:N; [|discriminate].
    pose proof (Hb x w) as Hx.
    destruct (loop_body x w) as [[|err|] w1]; simpl in Hx.
    + intros E. apply IH in E. lia.
    + discriminate.
    + congruence.
Qed.

Lemma removeKind_out_of_fuel (o : Oracle) (fuel : nat) (k : Kind) (w w' : World) :
  removeKind o fuel k w = (OutOfFuel, w') -> fuel < List.length (pending k w').
Proof.
  intros E.
  assert (G : forall (A : Type) (arr : World -> list A) (inj : A -> Entry) (reset : World -> World),
             (for_of fuel arr (fun x => body o (inj x)) 0 ;; assign reset) w = (OutOfFuel, w') ->
             fuel < List.length (map inj (arr w'))).
  { intros A arr inj reset H. apply seq_inv in H.
    destruct H as [(w1 & _ & H) | (H & _)]; [discriminate|].
    apply for_of_out_of_fuel in H; [|intros x w0; apply body_ends].
    rewrite length_map. lia. }
  destruct k; simpl in E; simpl.
  - exact (G _ layerIdsToRemove layer_entry _ E).
  - exact (G _ sourceIdsToRemove source_entry _ E).
  - exact (G _ markersToRemove marker_entry _ E).
  - exact (G _ popupsToRemove popup_entry _ E).
  - exact (G _ imageIdsToRemove image_entry _ E).
Qed.

Lemma removeKinds_out_of_fuel (o : Oracle) (fuel : nat) (ks : list Kind) (w : World) :
  NoDup ks ->
  fst (removeKinds o fuel ks w) = OutOfFuel ->
  exists seg k,
    In k ks /\
    log (snd (removeKinds o fuel ks w)) = log w ++ seg /\
    kept k w (snd (removeKinds o fuel ks w)) seg /\
    fuel < List.length (pending k (snd (removeKinds o fuel ks w))).
Proof.
  revert w. induction ks as [|k0 ks IH]; intros w ND; [discriminate|].
  inversion ND as [|? ? Hn ND']; subst. cbn [removeKinds].
  destruct (removeKind_inv o fuel k0 w) as [s1 H1].
  destruct (removeKind o fuel k0 w) as [r1 w1] eqn:E1. simpl in H1.
  pose proof H1 as (L1 & _).
  destruct r1 as [|err|].
  - rewrite (seq_normal _ _ _ _ E1). intros E.
    destruct (IH w1 ND' E) as (s2 & k & Hk & L2 & K2 & B).
    exists (s1 ++ s2), k. split; [now right|].
    split; [rewrite L2, L1; now rewrite app_assoc|].
    split; [|exact B].
    eapply kept_trans; [|exact K2].
    eapply phase_kept; [exact H1|]. left. intros ->. exact (Hn Hk).
  - rewrite (seq_abrupt _ _ _ _ _ E1) by discriminate. discriminate.
  - rewrite (seq_abrupt _ _ _ _ _ E1) by discriminate. intros _. cbn [snd].
    exists s1, k0. split; [now left|]. split; [exact L1|]. split.
    + eapply phase_kept; [exact H1|]. right. discriminate.
    + now apply removeKind_out_of_fuel in E1.
Qed.

(** * The claims *)

(** ** Auxiliary facts *)

Lemma written_app (w w' : World) (seg : list Event) :
  log w' = log w ++ seg -> written w w' = seg.
Proof.
  intros H. unfold written. rewrite H, skipn_app, Nat.sub_diag, skipn_all. reflexivity.
Qed.

Lemma silent_quiet : quiet silent.
Proof. intros h c. split; reflexivity. Qed.

Lemma plan_after_requests (rs : list Request) (w0 : World) :
  all_empty w0 -> plan (snd (performAll rs w0)) = by_kind (map entry_of rs).
Proof.
  intros (E1 & E2 & E3 & E4 & E5). unfold plan, by_kind.
  rewrite !performAll_pending. simpl. now rewrite E1, E2, E3, E4, E5.
Qed.

(** A flush that returns has removed every entry that was pending when it
    began. *)
Lemma returning_flush_removes_pending (o : Oracle) (fuel : nat) (w w' : World) (e : Entry) :
  In e (pending (kind_of e) w) ->
  applyChanges o fuel w = (Normal, w') ->
  In e (removed (written w w')).
Proof.
  intros He E.
  destruct (applyChanges_phases _ _ _ _ E)
    as (sL & sS & sM & sP & sI & L & (R1 & R2 & R3 & R4 & R5) & _).
  rewrite (written_app _ _ _ L). rewrite !removed_app.
  destruct e; simpl in He.
  - apply in_or_app. left. rewrite R1. apply in_or_app. now left.
  - apply in_or_app. right. apply in_or_app. left.
    rewrite R2. apply in_or_app. now left.
  - do 2 (apply in_or_app; right). apply in_or_app. left.
    rewrite R3. apply in_or_app. now left.
  - do 3 (apply in_or_app; right). apply in_or_app. left.
    rewrite R4. apply in_or_app. now left.
  - do 4 (apply in_or_app; right).
    rewrite R5. apply in_or_app. now left.
Qed.

(** A flush that throws: the arrays of the kinds before the failing one
    were reset, the others were not. *)
Lemma applyChanges_failure (o : Oracle) (fuel : nat) (w : World) (err : JsError) :
  fst (applyChanges o fuel w) = Throw err ->
  exists x,
    In x (pending (kind_of x) (snd (applyChanges o fuel w))) /\
    In (error_call err) (teardown_calls x) /\
    (forall j, rank j < rank (kind_of x) ->
               drained j (snd (applyChanges o fuel w))
                 (written w (snd (applyChanges o fuel w)))) /\
    (forall j, rank (kind_of x) <= rank j ->
               kept j w (snd (applyChanges o fuel w))
                 (written w (snd (applyChanges o fuel w)))).
Proof.
  rewrite applyChanges_kinds. intros E.
  destruct (removeKinds_result o fuel kinds w) as [seg [L H]].
  rewrite E in H. destruct H as (pre & k & post & x & Hks & Hx & He & Hd & Hk).
  exists x. rewrite (written_app _ _ _ L), (pending_kind _ _ _ Hx).
  split; [exact Hx|]. split; [exact He|].
  unfold kinds in Hks.
  assert (Hpre : forall j, In j pre <-> rank j < rank k).
  { intros j.
    destruct pre as [|a [|b [|c [|d [|e pre]]]]]; simpl in Hks; inversion Hks; subst;
      try (destruct pre; discriminate);
      destruct j; simpl; split; intros H; try lia; auto 6;
      repeat (destruct H as [H|H]; [discriminate|]); destruct H. }
  split; intros j Hj; [apply Hd | apply Hk]; [now apply Hpre|].
  intros Hin. apply Hpre in Hin. lia.
Qed.

Lemma teardown_calls_entry (c : EngineCall) (x y : Entry) :
  In c (teardown_calls x) -> In c (teardown_calls y) -> x = y.
Proof.
  destruct x, y; simpl; intros Hx Hy;
    repeat (destruct Hx as [<-|Hx]; [repeat (destruct Hy as [Hy|Hy]; [congruence|]); destruct Hy|]);
    destruct Hx.
Qed.

(** A flush leaves the subscriptions alone. *)
Lemma SubscriptionKept_applyChanges (o : Oracle) (fuel : nat) :
  sat SubscriptionKept (applyChanges o fuel).
Proof.
  assert (Iskip : forall w, SubscriptionKept w Normal w []) by reflexivity.
  assert (Ifuel : forall w, SubscriptionKept w OutOfFuel w []) by reflexivity.
  assert (Iseq : forall w w1 w2 s1 s2 r,
             SubscriptionKept w Normal w1 s1 -> SubscriptionKept w1 r w2 s2 ->
             SubscriptionKept w r w2 (s1 ++ s2)).
  { unfold SubscriptionKept. intros w w1 w2 s1 s2 r H1 H2. now rewrite H2. }
  assert (Icall : forall c, sat SubscriptionKept (engineCall o c)).
  { intros c w. destruct (engineCall_spec o c w) as [_ (_ & _ & C & S & _)].
    exists []. unfold SubscriptionKept. now rewrite C, S. }
  assert (Imap : forall c, sat SubscriptionKept (mapCall o c)).
  { intros c w. unfold mapCall. destruct (mapInstance w); [apply Icall|].
    exists []. reflexivity. }
  assert (Iassign : forall f : World -> World,
             (forall w, (subscription_closed (f w), subChanges (f w)) =
                        (subscription_closed w, subChanges w)) ->
             sat SubscriptionKept (assign f)).
  { intros f H w. exists []. apply H. }
  unfold applyChanges, removeLayers, removeSources, removeMarkers, removePopups, removeImages.
  sat_steps Iskip Ifuel Iseq Icall Imap Iassign.
Qed.

(** The trigger with one subscriber, when the flush throws: the firing
    returns, and the subscriber is gone. *)
Lemma onMicrotaskEmpty_throw (o : Oracle) (fuel : nat) (w : World) (err : JsError) :
  subChanges w = 1 ->
  fst (applyChanges o fuel w) = Throw err ->
  onMicrotaskEmpty o fuel w =
    (Normal, set_subscription (subscription_closed w) 0 (snd (applyChanges o fuel w))).
Proof.
  intros S E. destruct (SubscriptionKept_applyChanges o fuel w) as [seg K].
  unfold SubscriptionKept in K. inversion K as [[C S1]].
  unfold onMicrotaskEmpty. rewrite S. cbn [notify]. unfold seq, flushSubscriber.
  destruct (applyChanges o fuel w) as [r w1]. cbn [fst snd] in *. subst r.
  rewrite S1, S, C. reflexivity.
Qed.

Lemma returned_app (a b : list EngineCall) : returned (a ++ b) = returned a ++ returned b.
Proof. apply map_app. Qed.

Lemma kinds_NoDup : NoDup kinds.
Proof.
  unfold kinds. repeat constructor; simpl; intuition discriminate.
Qed.

Lemma pending_all_empty (w : World) : (forall k, pending k w = []) -> all_empty w.
Proof.
  intros H. unfold all_empty.
  pose proof (H Layer) as H1. pose proof (H Source) as H2.
  pose proof (H MarkerKind) as H3. pose proof (H PopupKind) as H4.
  pose proof (H Image) as H5. simpl in *.
  apply map_eq_nil in H1, H2, H3, H4, H5. auto.
Qed.

Lemma pending_queue_bound (w : World) (k : Kind) :
  List.length (pending k w) <= queue_bound w.
Proof. unfold queue_bound. destruct k; simpl; rewrite length_map; lia. Qed.

Lemma no_enqueue_calls (seg : list Event) : enqueued seg = [] -> engine_calls seg = seg.
Proof.
  induction seg as [|[c b|r] seg IH]; simpl; intros H; [reflexivity | | discriminate].
  f_equal. now apply IH.
Qed.

Lemma nothing_enqueued_app (s1 s2 : list Event) :
  enqueued (s1 ++ s2) = [] -> enqueued s1 = [] /\ enqueued s2 = [].
Proof. rewrite enqueued_app. apply app_eq_nil. Qed.

(** The flush of a service that has its map, with a loop bound no less than
    the longest array: if no call it makes throws and nothing is enqueued
    while it runs, it returns, its calls are the teardown calls of what was
    pending, in the order of [plan], and the five arrays are empty. *)
Lemma flush_without_failure (o : Oracle) (fuel : nat) (w : World) :
  mapInstance w <> None -> queue_bound w <= fuel ->
  no_failure (written w (snd (applyChanges o fuel w))) ->
  enqueued (written w (snd (applyChanges o fuel w))) = [] ->
  fst (applyChanges o fuel w) = Normal /\
  written w (snd (applyChanges o fuel w)) = returned (flat_map teardown_calls (plan w)) /\
  all_empty (snd (applyChanges o fuel w)).
Proof.
  intros M B NF NE.
  destruct (applyChanges o fuel w) as [r w'] eqn:E. cbn [fst snd] in *.
  destruct r as [|[c|c]|].
  - destruct (applyChanges_phases _ _ _ _ E)
      as (sL & sS & sM & sP & sI & L & (R1 & R2 & R3 & R4 & R5) &
          (P1 & P2 & P3 & P4 & P5) & (C1 & C2 & C3 & C4 & C5)).
    rewrite (written_app _ _ _ L) in NE |- *.
    pose proof NE as NE'.
    apply nothing_enqueued_app in NE'. destruct NE' as [EL NE'].
    apply nothing_enqueued_app in NE'. destruct NE' as [ES NE'].
    apply nothing_enqueued_app in NE'. destruct NE' as [EM NE'].
    apply nothing_enqueued_app in NE'. destruct NE' as [EP EI].
    rewrite !enqueued_app, ?EL, ?ES, ?EM, ?EP, ?EI in *. simpl in *.
    rewrite app_nil_r in R1, R2, R3, R4, R5.
    split; [reflexivity|]. split.
    + rewrite <- (no_enqueue_calls sL EL), <- (no_enqueue_calls sS ES),
        <- (no_enqueue_calls sM EM), <- (no_enqueue_calls sP EP),
        <- (no_enqueue_calls sI EI).
      rewrite C1, C2, C3, C4, C5, R1, R2, R3, R4, R5.
      unfold plan, returned. rewrite !flat_map_app, !map_app. reflexivity.
    + apply pending_all_empty. intros []; assumption.
  - exfalso. destruct (FailLast_applyChanges o fuel w) as [seg H].
    rewrite E in H. cbn [fst snd] in H. destruct H as [L (s0 & -> & _)].
    rewrite (written_app _ _ _ L) in NF. apply (NF c).
    apply in_or_app. right. now left.
  - exfalso. destruct (MapNeeded_applyChanges o fuel w) as [seg H].
    rewrite E in H. cbn [fst snd] in H. destruct H as [_ H]. exact (M H).
  - exfalso. pose proof (applyChanges_kinds o fuel w) as K. rewrite E in K.
    destruct (removeKinds_out_of_fuel o fuel kinds w kinds_NoDup) as (seg & k & _ & L & Kp & F).
    { now rewrite <- K. }
    rewrite <- K in L, Kp, F. cbn [snd] in L, Kp, F.
    rewrite (written_app _ _ _ L) in NE. unfold kept in Kp.
    rewrite NE in Kp. simpl in Kp. rewrite app_nil_r in Kp. rewrite Kp in F.
    pose proof (pending_queue_bound w k). lia.
Qed.

(** ** C1 *)

(** C1, as stated, fails: with layers l1 and l2 and source s1 enqueued, and
    an engine that throws on removeLayer(l1), the flush ends by throwing
    after the calls for l1; l2 and s1 get no teardown call at all.  (The
    loop bound 3 is the number of entries, enough for a flush that returns.) *)
Lemma C1_flush_stops_at_a_throw :
  plan c1_queue = [layer_entry "l1"; layer_entry "l2"; source_entry "s1"] /\
  fst (applyChanges (rejects_layer "l1") 3 c1_queue) =
    Throw (EngineError (map_removeLayer "l1")) /\
  attempted (written c1_queue (snd (applyChanges (rejects_layer "l1") 3 c1_queue))) =
    [layer_entry "l1"].
Proof. vm_compute. repeat split; reflexivity. Qed.

(** C1 (amended): on a service that has its map and whose five arrays are
    empty (as they are in a new service and after a flush that returned),
    let any sequence [rs] of removals be enqueued and [applyChanges] run.
    If no engine call made by that flush throws and nothing is enqueued
    while it runs, the flush returns, and the engine calls it has made are
    the teardown calls of the enqueued entries, one teardown per entry, in
    the order layers, sources, markers, popups, images, and within a kind
    in the order of insertion.  ([fuel] bounds the steps of a loop; the
    number of entries is enough.) *)
Theorem C1_flush_tears_down_every_entry_in_order
  (o : Oracle) (rs : list Request) (w0 : World) (fuel : nat) :
  all_empty w0 -> mapInstance w0 <> None -> List.length rs <= fuel ->
  no_failure (written (snd (performAll rs w0))
                (snd (applyChanges o fuel (snd (performAll rs w0))))) ->
  enqueued (written (snd (performAll rs w0))
              (snd (applyChanges o fuel (snd (performAll rs w0))))) = [] ->
  exists w',
    applyChanges o fuel (snd (performAll rs w0)) = (Normal, w') /\
    written (snd (performAll rs w0)) w' =
      returned (flat_map teardown_calls (by_kind (map entry_of rs))) /\
    attempted (written (snd (performAll rs w0)) w') = by_kind (map entry_of rs) /\
    Permutation (attempted (written (snd (performAll rs w0)) w')) (map entry_of rs).
Proof.
  intros E M B NF NE.
  set (w := snd (performAll rs w0)) in *.
  assert (Mw : mapInstance w <> None).
  { unfold w. destruct (performAll_frame rs w0) as [-> _]. exact M. }
  assert (Bw : queue_bound w <= fuel).
  { apply queue_bound_pending. intros k. unfold w. rewrite performAll_pending.
    destruct E as (E1 & E2 & E3 & E4 & E5).
    replace (pending k w0) with (@nil Entry)
      by (destruct k; simpl; now rewrite ?E1, ?E2, ?E3, ?E4, ?E5).
    simpl. pose proof (of_kind_length k (map entry_of rs)) as H.
    rewrite length_map in H. lia. }
  destruct (flush_without_failure o fuel w Mw Bw NF NE) as (R & W & _).
  exists (snd (applyChanges o fuel w)).
  split; [rewrite <- R; now destruct (applyChanges o fuel w)|].
  assert (Hseg : written w (snd (applyChanges o fuel w)) =
                 returned (flat_map teardown_calls (by_kind (map entry_of rs)))).
  { rewrite W. unfold w. now rewrite plan_after_requests. }
  rewrite Hseg, attempted_returned. repeat split.
  apply by_kind_permutation.
Qed.

(** An engine that would throw on removeLayer(zzz) is never asked to: the
    flush of l1, s1, marker 1 and l2 makes no call that throws. *)
Lemma C1_witness :
  exists w',
    applyChanges (rejects_layer "zzz") 4
      (snd (performAll [ReqLayer "l1"; ReqSource "s1"; ReqMarker 1; ReqLayer "l2"] with_map))
    = (Normal, w') /\
    written (snd (performAll [ReqLayer "l1"; ReqSource "s1"; ReqMarker 1; ReqLayer "l2"] with_map)) w' =
      returned (flat_map teardown_calls
                  (by_kind (map entry_of [ReqLayer "l1"; ReqSource "s1"; ReqMarker 1; ReqLayer "l2"]))) /\
    attempted (written (snd (performAll [ReqLayer "l1"; ReqSource "s1"; ReqMarker 1; ReqLayer "l2"] with_map)) w') =
      by_kind (map entry_of [ReqLayer "l1"; ReqSource "s1"; ReqMarker 1; ReqLayer "l2"]) /\
    Permutation
      (attempted (written (snd (performAll [ReqLayer "l1"; ReqSource "s1"; ReqMarker 1; ReqLayer "l2"] with_map)) w'))
      (map entry_of [ReqLayer "l1"; ReqSource "s1"; ReqMarker 1; ReqLayer "l2"]).
Proof.
  apply (C1_flush_tears_down_every_entry_in_order (rejects_layer "zzz")
           [ReqLayer "l1"; ReqSource "s1"; ReqMarker 1; ReqLayer "l2"] with_map 4).
  - repeat split; reflexivity.
  - discriminate.
  - simpl. lia.
  - intros c H. vm_compute in H. intuition discriminate.
  - vm_compute. reflexivity.
Defined.

(** The scenario of the specification: l1, s1, m1 then l2 are enqueued; the
    flush removes l1, l2, s1, m1 and leaves the five arrays empty. *)
Example C1_scenario :
  attempted (written
    (snd (performAll [ReqLayer "l1"; ReqSource "s1"; ReqMarker 1; ReqLayer "l2"] with_map))
    (snd (applyChanges silent 4
       (snd (performAll [ReqLayer "l1"; ReqSource "s1"; ReqMarker 1; ReqLayer "l2"] with_map)))))
  = [layer_entry "l1"; layer_entry "l2"; source_entry "s1"; marker_entry 1].
Proof. vm_compute. reflexivity. Qed.

(** ** C2 *)

(** C2, as stated, fails: the engine throws on removeLayer(bad); the flush
    ends by throwing that error (it is not caught), and neither the next
    layer nor the image is processed. *)
Lemma C2_failure_is_not_isolated :
  fst (applyChanges (rejects_layer "bad") 3 c2_queue) =
    Throw (EngineError (map_removeLayer "bad")) /\
  attempted (written c2_queue (snd (applyChanges (rejects_layer "bad") 3 c2_queue))) =
    [layer_entry "bad"] /\
  plan c2_queue = [layer_entry "bad"; layer_entry "good"; image_entry "i"].
Proof. vm_compute. repeat split; reflexivity. Qed.

(** C2 (amended): an engine call that throws during a flush is not caught.
    It is the last thing the flush does: nothing follows it in the log, so
    the entries after the failing one and all entries of the later kinds are
    not processed by that [applyChanges] call, which ends by throwing the
    call's error. *)
Theorem C2_a_throw_ends_the_flush (o : Oracle) (fuel : nat) (w : World) :
  exists seg,
    log (snd (applyChanges o fuel w)) = log w ++ seg /\
    forall pre c post,
      seg = pre ++ Called c true :: post ->
      post = [] /\ fst (applyChanges o fuel w) = Throw (EngineError c).
Proof.
  destruct (FailLast_applyChanges o fuel w) as [seg [L H]].
  exists seg. split; [exact L|].
  intros pre c post E.
  destruct (fst (applyChanges o fuel w)) as [|[c'|c']|];
    try (exfalso; apply (H c); rewrite E; apply in_or_app; right; now left).
  destruct H as (s0 & Hs & N). rewrite Hs in E.
  destruct (failure_is_last _ _ _ _ _ N E) as (-> & -> & _). auto.
Qed.

(** ** C3 *)

(** C3, as stated, fails: marker 1 is pending, and removing it makes a
    callback request the removal of marker 2.  The same flush goes on to
    remove marker 2, which is not pending any more when the flush returns. *)
Lemma C3_request_made_during_a_flush_is_served_by_it :
  fst (applyChanges calls_back 2 c3_queue) = Normal /\
  written c3_queue (snd (applyChanges calls_back 2 c3_queue)) =
    [Enqueued (ReqMarker 2); Called (marker_remove 1) false; Called (marker_remove 2) false] /\
  markersToRemove (snd (applyChanges calls_back 2 c3_queue)) = [].
Proof. vm_compute. repeat split; reflexivity. Qed.

(** C3 (amended): no snapshot is taken, every loop reads its live array.
    When a flush returns, the five loops have written [sL], [sS], [sM],
    [sP], [sI] to the log, and for every kind the entries removed by the
    flush are those pending when it began followed by those enqueued during
    the flush until the loop of that kind ended; the entries still pending
    are exactly those enqueued after the loop of their kind had ended.  So
    a removal enqueued during a flush waits for the next flush only when
    its kind has already been drained. *)
Theorem C3_flush_serves_what_is_enqueued_before_its_loop_ends
  (o : Oracle) (fuel : nat) (w w' : World) :
  applyChanges o fuel w = (Normal, w') ->
  exists sL sS sM sP sI, Phases w w' sL sS sM sP sI.
Proof. apply applyChanges_phases. Qed.

Lemma C3_witness :
  exists sL sS sM sP sI,
    Phases c3_both (snd (applyChanges calls_back 2 c3_both)) sL sS sM sP sI.
Proof.
  apply (C3_flush_serves_what_is_enqueued_before_its_loop_ends calls_back 2 c3_both).
  vm_compute. reflexivity.
Defined.

(** In that run the request for marker 2, made while the markers are
    processed, is served by the flush; the request for layer [late], made
    while the popups are processed, is left for the next flush. *)
Example C3_late_request_waits :
  attempted (written c3_both (snd (applyChanges calls_back 2 c3_both))) =
    [marker_entry 1; marker_entry 2; popup_entry 7] /\
  plan (snd (applyChanges calls_back 2 c3_both)) = [layer_entry "late"].
Proof. vm_compute. split; reflexivity. Qed.

(** ** C4 *)

(** C4, as stated, fails: layer l1 is pending when the map is destroyed.
    The next trigger makes no engine call, but l1 is still in its array
    afterwards; it is neither cleared nor dropped, and a later call of the
    public [applyChanges] issues its teardown calls on the destroyed map. *)
Lemma C4_pending_entries_survive_destroyMap :
  layerIdsToRemove c4_destroyed = ["l1"] /\
  attempted (written c4_destroyed (snd (applyChanges silent 1 c4_destroyed))) =
    [layer_entry "l1"].
Proof. vm_compute. split; reflexivity. Qed.

Lemma destroyMap_spec (o : Oracle) (w : World) :
  subChanges (snd (destroyMap o w)) = 0 /\
  forall k, exists more, pending k (snd (destroyMap o w)) = pending k w ++ more.
Proof.
  unfold destroyMap.
  set (w0 := set_subscription true 0 w).
  assert (E0 : assign (set_subscription true 0) w = (Normal, w0)) by reflexivity.
  rewrite (seq_normal _ _ _ _ E0).
  destruct (sat_Grow_mapCall o map_remove w0) as [seg (_ & _ & _ & S & P)].
  split; [rewrite S; reflexivity|].
  intros k. exists (of_kind k (enqueued seg)). rewrite P.
  destruct k; reflexivity.
Qed.

(** C4 (amended): once [destroyMap] has run, a flush trigger makes no
    engine call and changes nothing ([destroyMap] has cancelled the
    subscription that runs the flush); the entries that were pending are
    not cleared: every array still holds them. *)
Theorem C4_trigger_after_destroyMap_does_nothing
  (o o' : Oracle) (fuel : nat) (w : World) :
  onMicrotaskEmpty o' fuel (snd (destroyMap o w)) = (Normal, snd (destroyMap o w)) /\
  forall k, exists more, pending k (snd (destroyMap o w)) = pending k w ++ more.
Proof.
  destruct (destroyMap_spec o w) as [S P]. split; [|exact P].
  unfold onMicrotaskEmpty. now rewrite S.
Qed.

(** ** C5 *)

(** C5: the five arrays are empty in a new service.  [applyChanges] resets
    the array of a kind right after the loop of that kind, and nothing else
    in the service assigns the arrays.  So, for every engine, state and
    loop bound, with [seg] what the flush writes to the log: once the loop
    of a kind has ended, its array holds nothing but what callbacks pushed
    on it later in the flush ([drained]), and is empty when nothing was
    enqueued during the flush; this holds of all five arrays after a flush
    that returns, and of the arrays of the kinds before the failing one
    after a flush that throws.  And against an engine that returns from
    every call and fires no callback the flush does return, with the five
    arrays empty.  (What is enqueued during a flush is the matter of C3.) *)
Theorem C5_flush_drains_the_queue :
  all_empty new_MapService /\
  (forall (o : Oracle) (fuel : nat) (w : World),
     exists seg,
       log (snd (applyChanges o fuel w)) = log w ++ seg /\
       match fst (applyChanges o fuel w) with
       | Normal =>
           forall k, drained k (snd (applyChanges o fuel w)) seg /\
                     (enqueued seg = [] -> pending k (snd (applyChanges o fuel w)) = [])
       | Throw err =>
           exists x, In (error_call err) (teardown_calls x) /\
             forall j, rank j < rank (kind_of x) ->
               drained j (snd (applyChanges o fuel w)) seg /\
               (enqueued seg = [] -> pending j (snd (applyChanges o fuel w)) = [])
       | OutOfFuel => True
       end) /\
  (forall (o : Oracle) (fuel : nat) (w : World),
     quiet o -> mapInstance w <> None -> queue_bound w <= fuel ->
     fst (applyChanges o fuel w) = Normal /\ all_empty (snd (applyChanges o fuel w))).
Proof.
  split; [repeat split; reflexivity|]. split.
  - intros o fuel w. destruct (applyChanges_result o fuel w) as [seg [L H]].
    exists seg. split; [exact L|].
    destruct (fst (applyChanges o fuel w)) as [|err|]; [| |exact I].
    + intros k. split; [apply H|]. apply drained_quiet. apply H.
    + destruct H as (x & _ & He & Hd). exists x. split; [exact He|].
      intros j Hj. split; [now apply Hd|]. apply drained_quiet. now apply Hd.
  - intros o fuel w Q M B. rewrite (applyChanges_quiet o fuel w Q M B).
    split; [reflexivity | repeat split; reflexivity].
Qed.

(** A flush of the three entries of [c1_queue] against an engine that
    returns from every call leaves the five arrays empty. *)
Lemma C5_witness :
  fst (applyChanges silent 3 c1_queue) = Normal /\
  all_empty (snd (applyChanges silent 3 c1_queue)).
Proof.
  apply (proj2 (proj2 C5_flush_drains_the_queue) silent 3 c1_queue).
  - exact silent_quiet.
  - discriminate.
  - vm_compute. lia.
Defined.

(** ** C6 *)

(** What [removePopupFromMap] does besides pushing: with [skipCloseEvent]
    set, and a popup that has a listener table, it deletes the 'close' key
    of that table.  No other removal method touches the tables. *)
Lemma perform_listeners (r : Request) (w : World) :
  popup_listeners (snd (perform r w)) =
  match r with
  | ReqPopup popup true =>
      if truthy (listeners_of popup (popup_listeners w))
      then delete_close popup (popup_listeners w)
      else popup_listeners w
  | _ => popup_listeners w
  end.
Proof.
  destruct r as [l|s|m|p b|i]; try reflexivity.
  destruct b; simpl; [|reflexivity].
  destruct (truthy (listeners_of p (popup_listeners w))); reflexivity.
Qed.

Lemma removed_twice (r : Request) (w q w' : World) (o : Oracle) (fuel : nat) :
  all_empty w -> q = snd (performAll [r; r] w) ->
  applyChanges o fuel q = (Normal, w') ->
  exists a b, removed (written q w') = a ++ entry_of r :: entry_of r :: b.
Proof.
  intros (E1 & E2 & E3 & E4 & E5) Hq E.
  destruct (applyChanges_phases _ _ _ _ E)
    as (sL & sS & sM & sP & sI & L & (R1 & R2 & R3 & R4 & R5) & _).
  rewrite (written_app _ _ _ L), !removed_app.
  assert (P : forall k, pending k q = of_kind k [entry_of r; entry_of r]).
  { intros k. rewrite Hq, performAll_pending.
    destruct k; simpl; now rewrite ?E1, ?E2, ?E3, ?E4, ?E5. }
  rewrite (P Layer) in R1. rewrite (P Source) in R2. rewrite (P MarkerKind) in R3.
  rewrite (P PopupKind) in R4. rewrite (P Image) in R5.
  rewrite R1, R2, R3, R4, R5.
  destruct r; simpl;
    match goal with
    | |- exists a b, ?x :: ?x :: ?t = _ => exists [], t
    | |- exists a b, ?l1 ++ ?x :: ?x :: ?t = _ => exists l1, t
    | |- exists a b, ?l1 ++ ?l2 ++ ?x :: ?x :: ?t = _ => exists (l1 ++ l2), t
    | |- exists a b, ?l1 ++ ?l2 ++ ?l3 ++ ?x :: ?x :: ?t = _ =>
        exists (l1 ++ l2 ++ l3), t
    | |- exists a b, ?l1 ++ ?l2 ++ ?l3 ++ ?l4 ++ ?x :: ?x :: ?t = _ =>
        exists (l1 ++ l2 ++ l3 ++ l4), t
    end; rewrite <- ?app_assoc; reflexivity.
Qed.

(** C6, as stated, fails on one point: [removePopupFromMap] called with
    [skipCloseEvent] set on a popup that has listeners deletes the popup's
    'close' listeners at once, at enqueue time. *)
Lemma C6_skipCloseEvent_acts_at_enqueue_time :
  popup_listeners c6_world = [(7, ["open"; "close"])] /\
  popup_listeners (snd (removePopupFromMap 7 true c6_world)) = [(7, ["open"])] /\
  popupsToRemove (snd (removePopupFromMap 7 true c6_world)) = [7].
Proof. vm_compute. repeat split; reflexivity. Qed.

(** C6 (amended): each removal method ([perform r] is the method the
    request [r] names) returns normally, pushes its identifier or handle at
    the end of the array of its kind, makes no engine call and assigns no
    other field of the service; its only other immediate effect is that
    [removePopupFromMap], when [skipCloseEvent] is set and the popup has a
    listener table, deletes the 'close' listeners of the popup.  Called
    twice with the same argument a method pushes twice, and the flush does
    not deduplicate: a flush that returns has removed the entry twice in a
    row, and against an engine that returns from every call its calls are
    the teardown calls of the entry, twice. *)
Theorem C6_enqueue_appends_and_calls_nothing :
  (forall (r : Request) (w : World),
     fst (perform r w) = Normal /\
     pending (kind_of (entry_of r)) (snd (perform r w)) =
       pending (kind_of (entry_of r)) w ++ [entry_of r] /\
     engine_calls (log (snd (perform r w))) = engine_calls (log w) /\
     mapInstance (snd (perform r w)) = mapInstance w /\
     subscription_closed (snd (perform r w)) = subscription_closed w /\
     subChanges (snd (perform r w)) = subChanges w /\
     popup_listeners (snd (perform r w)) =
       match r with
       | ReqPopup popup true =>
           if truthy (listeners_of popup (popup_listeners w))
           then delete_close popup (popup_listeners w)
           else popup_listeners w
       | _ => popup_listeners w
       end /\
     pending (kind_of (entry_of r)) (snd (perform r (snd (perform r w)))) =
       pending (kind_of (entry_of r)) w ++ [entry_of r; entry_of r]) /\
  (forall (o : Oracle) (fuel : nat) (r : Request) (w w' : World),
     all_empty w ->
     applyChanges o fuel (snd (performAll [r; r] w)) = (Normal, w') ->
     exists a b,
       removed (written (snd (performAll [r; r] w)) w') =
       a ++ entry_of r :: entry_of r :: b) /\
  (forall (o : Oracle) (fuel : nat) (r : Request) (w : World),
     quiet o -> mapInstance w <> None -> all_empty w -> 2 <= fuel ->
     fst (applyChanges o fuel (snd (performAll [r; r] w))) = Normal /\
     written (snd (performAll [r; r] w))
       (snd (applyChanges o fuel (snd (performAll [r; r] w)))) =
       returned (teardown_calls (entry_of r) ++ teardown_calls (entry_of r))).
Proof.
  split; [|split].
  - intros r w. destruct (perform_grows r w) as [N (L & M & C & S & P)].
    destruct (perform_grows r (snd (perform r w))) as [_ (_ & _ & _ & _ & P2)].
    split; [exact N|]. repeat (split; [|]); try assumption.
    + rewrite P. destruct r; reflexivity.
    + rewrite L, engine_calls_app. simpl. now rewrite app_nil_r.
    + apply perform_listeners.
    + rewrite P2, P, <- app_assoc. destruct r; reflexivity.
  - intros o fuel r w w' E H. eapply removed_twice; eauto.
  - intros o fuel r w Q M E B.
    set (q := snd (performAll [r; r] w)).
    assert (Hq : applyChanges o fuel q = (Normal, flushed q)).
    { apply applyChanges_quiet; [exact Q | | ].
      - unfold q. destruct (performAll_frame [r; r] w) as [-> _]. exact M.
      - apply queue_bound_pending. intros k. unfold q. rewrite performAll_pending.
        destruct E as (E1 & E2 & E3 & E4 & E5).
        replace (pending k w) with (@nil Entry)
          by (destruct k; simpl; now rewrite ?E1, ?E2, ?E3, ?E4, ?E5).
        simpl. pose proof (of_kind_length k (map entry_of [r; r])) as H.
        simpl in H. simpl. lia. }
    rewrite Hq. split; [reflexivity|]. simpl.
    rewrite (written_app q (flushed q) (returned (flat_map teardown_calls (plan q))))
      by reflexivity.
    unfold q. rewrite (plan_after_requests [r; r] w E).
    destruct r; simpl; reflexivity.
Qed.

(** The scenario of the specification: image i1 is enqueued twice and the
    flush calls removeImage(i1) twice. *)
Lemma C6_witness :
  fst (applyChanges silent 2 (snd (performAll [ReqImage "i1"; ReqImage "i1"] with_map))) = Normal /\
  written (snd (performAll [ReqImage "i1"; ReqImage "i1"] with_map))
    (snd (applyChanges silent 2 (snd (performAll [ReqImage "i1"; ReqImage "i1"] with_map)))) =
    returned (teardown_calls (entry_of (ReqImage "i1")) ++
              teardown_calls (entry_of (ReqImage "i1"))).
Proof.
  apply (proj2 (proj2 C6_enqueue_appends_and_calls_nothing) silent 2 (ReqImage "i1") with_map).
  - exact silent_quiet.
  - discriminate.
  - repeat split; reflexivity.
  - lia.
Defined.

(** ** C7 *)

(** C7, as stated, fails: removeLayer(l1) throws during the first flush;
    l1 is still in its array after that flush, and the next flush calls
    removeLayer(l1) again. *)
Lemma C7_failed_entry_is_retried :
  fst (applyChanges (rejects_layer_once "l1") 1 c7_queue) =
    Throw (EngineError (map_removeLayer "l1")) /\
  layerIdsToRemove c7_failed = ["l1"] /\
  attempted (written c7_failed (snd (applyChanges (rejects_layer_once "l1") 1 c7_failed))) =
    [layer_entry "l1"].
Proof. vm_compute. repeat split; reflexivity. Qed.

(** C7 (amended): an entry whose teardown throws during a flush is not
    discarded.  The throw skips the assignment that empties the array of
    its kind, so the entry [x] whose call failed is still pending after the
    flush.  Whether its removal is attempted again depends on how a later
    flush comes about.  When the flush was run by the trigger, for the one
    subscription of a [createMap], the firing returns, the entry stays
    pending and the subscription is gone: no later firing runs a flush, so
    the trigger does not attempt the removal again.  But whenever
    [applyChanges] is run otherwise from a state in which the entry is
    pending (it is a public method, and a new [createMap] subscribes
    again) and returns, it has called the removal of the entry again. *)
Theorem C7_failed_entry_stays_pending
  (o : Oracle) (fuel : nat) (w : World) (err : JsError) :
  fst (applyChanges o fuel w) = Throw err ->
  exists x,
    In (error_call err) (teardown_calls x) /\
    In x (pending (kind_of x) (snd (applyChanges o fuel w))) /\
    (subChanges w = 1 ->
     fst (onMicrotaskEmpty o fuel w) = Normal /\
     In x (pending (kind_of x) (snd (onMicrotaskEmpty o fuel w))) /\
     written w (snd (onMicrotaskEmpty o fuel w)) = written w (snd (applyChanges o fuel w)) /\
     subChanges (snd (onMicrotaskEmpty o fuel w)) = 0 /\
     forall o' fuel',
       onMicrotaskEmpty o' fuel' (snd (onMicrotaskEmpty o fuel w)) =
         (Normal, snd (onMicrotaskEmpty o fuel w))) /\
    (forall o2 fuel2 w1 w2,
       In x (pending (kind_of x) w1) ->
       applyChanges o2 fuel2 w1 = (Normal, w2) ->
       In x (removed (written w1 w2))).
Proof.
  intros E. destruct (applyChanges_result o fuel w) as [seg [_ H]].
  rewrite E in H. destruct H as (x & Hx & He & _).
  exists x. split; [exact He|]. split; [exact Hx|]. split.
  - intros S. rewrite (onMicrotaskEmpty_throw o fuel w err S E). cbn [fst snd].
    split; [reflexivity|]. split; [destruct (kind_of x); exact Hx|].
    split; [reflexivity|]. split; [reflexivity|].
    intros o' fuel'. reflexivity.
  - intros o2 fuel2 w1 w2 Hx1 E2. exact (returning_flush_removes_pending o2 fuel2 w1 w2 x Hx1 E2).
Qed.

(** removeLayer(l1) throws in the flush the trigger runs: the firing
    returns, l1 stays in its array, and the next firing does nothing. *)
Lemma C7_witness :
  fst (onMicrotaskEmpty (rejects_layer_once "l1") 1 c7_queue) = Normal /\
  layerIdsToRemove (snd (onMicrotaskEmpty (rejects_layer_once "l1") 1 c7_queue)) = ["l1"] /\
  onMicrotaskEmpty silent 1 (snd (onMicrotaskEmpty (rejects_layer_once "l1") 1 c7_queue)) =
    (Normal, snd (onMicrotaskEmpty (rejects_layer_once "l1") 1 c7_queue)).
Proof.
  destruct (C7_failed_entry_stays_pending (rejects_layer_once "l1") 1 c7_queue
              (EngineError (map_removeLayer "l1")))
    as (x & _ & _ & T & _); [vm_compute; reflexivity|].
  destruct T as (N & _ & _ & _ & F); [vm_compute; reflexivity|].
  split; [exact N|]. split; [vm_compute; reflexivity | apply F].
Defined.

(** ** C8 *)

Lemma applyChanges_empty (o : Oracle) (fuel : nat) (w : World) :
  all_empty w -> applyChanges o fuel w = (Normal, w).
Proof.
  destruct w. unfold all_empty. simpl. intros (-> & -> & -> & -> & ->).
  destruct fuel; reflexivity.
Qed.

(** C8, as stated, fails in its "in particular": layer x and source y are
    pending and removeLayer(x) throws once.  The first flush throws; the
    second one, with no enqueue in between, does not find the queue empty
    and makes the calls for x and y. *)
Lemma C8_second_flush_after_a_throw_makes_calls :
  fst (applyChanges (rejects_layer_once "x") 2 c8_queue) =
    Throw (EngineError (map_removeLayer "x")) /\
  written c8_failed (snd (applyChanges (rejects_layer_once "x") 2 c8_failed)) =
    unbind_calls "x" ++
    [Called (map_removeLayer "x") false; Called (map_removeSource "y") false].
Proof. vm_compute. split; reflexivity. Qed.

(** C8 (amended): a flush of an empty queue returns, makes no engine call
    and leaves the service as it was.  This is the case of the second of
    two flushes with no enqueue in between when the first one returned and
    nothing was enqueued while it ran. *)
Theorem C8_flush_of_an_empty_queue_is_a_noop :
  (forall (o : Oracle) (fuel : nat) (w : World),
     all_empty w -> applyChanges o fuel w = (Normal, w)) /\
  (forall (o o' : Oracle) (fuel fuel' : nat) (w w1 : World),
     applyChanges o fuel w = (Normal, w1) ->
     enqueued (written w w1) = [] ->
     applyChanges o' fuel' w1 = (Normal, w1)).
Proof.
  split; [exact applyChanges_empty|].
  intros o o' fuel fuel' w w1 E Q.
  apply applyChanges_empty. apply pending_all_empty. intros k.
  destruct (applyChanges_result o fuel w) as [seg [L H]].
  rewrite E in L, H. simpl in L, H.
  rewrite (written_app _ _ _ L) in Q.
  exact (drained_quiet _ _ _ (H k) Q).
Qed.

Lemma C8_witness :
  applyChanges silent 0 with_map = (Normal, with_map) /\
  applyChanges silent 2 (snd (applyChanges silent 2 c3_queue)) =
    (Normal, snd (applyChanges silent 2 c3_queue)).
Proof.
  split.
  - apply (proj1 C8_flush_of_an_empty_queue_is_a_noop). vm_compute. repeat split; reflexivity.
  - apply (proj2 C8_flush_of_an_empty_queue_is_a_noop silent silent 2 2 c3_queue);
      vm_compute; reflexivity.
Defined.

(** ** C9 *)

Lemma of_kind_layers (l : list Entry) :
  exists ids, of_kind Layer l = map layer_entry ids.
Proof.
  induction l as [|e l [ids IH]]; [exists []; reflexivity|].
  unfold of_kind in *. destruct e; simpl; rewrite IH; eauto.
  exists (layerId :: ids). reflexivity.
Qed.

Lemma of_kind_sources (l : list Entry) :
  exists ids, of_kind Source l = map source_entry ids.
Proof.
  induction l as [|e l [ids IH]]; [exists []; reflexivity|].
  unfold of_kind in *. destruct e; simpl; rewrite IH; eauto.
  exists (sourceId :: ids). reflexivity.
Qed.

Lemma layer_teardown_calls (ids : list string) :
  returned (flat_map teardown_calls (map layer_entry ids)) = flat_map layer_teardown ids.
Proof.
  induction ids as [|id ids IH]; [reflexivity|].
  cbn [map flat_map]. rewrite returned_app, IH. reflexivity.
Qed.

Lemma source_teardown_calls (ids : list string) :
  returned (flat_map teardown_calls (map source_entry ids)) = map source_teardown ids.
Proof.
  induction ids as [|id ids IH]; [reflexivity|].
  cbn [map flat_map]. rewrite returned_app, IH. reflexivity.
Qed.

Lemma teardown_not_layer (es : list Entry) (seg : list Event) :
  engine_calls seg = returned (flat_map teardown_calls es) ->
  (forall e, In e es -> kind_of e <> Layer) ->
  no_layer_calls seg.
Proof.
  intros C K c b Hin. apply in_engine_calls in Hin. rewrite C in Hin.
  unfold returned in Hin. apply in_map_iff in Hin. destruct Hin as [c' [E Hin]].
  inversion E; subst c' b. apply in_flat_map in Hin. destruct Hin as [e [He Hc]].
  specialize (K e He).
  destruct e; [exfalso; now apply K | | | |]; simpl in Hc; destruct Hc as [<-|[]]; reflexivity.
Qed.

Lemma removed_kind (k : Kind) (w : World) (l es : list Entry) :
  es = pending k w ++ of_kind k l -> forall e, In e es -> kind_of e = k.
Proof.
  intros -> e Hin. apply in_app_or in Hin. destruct Hin as [H|H].
  - now apply pending_kind in H.
  - unfold of_kind in H. apply filter_In in H. destruct H as [_ H].
    destruct (kind_of e), k; simpl in H; congruence.
Qed.

(** C9: in the calls of a flush, however it ends, every removeLayer(id)
    call comes right after the four calls off('click', id),
    off('mouseenter', id), off('mouseleave', id), off('mousemove', id), all
    of which returned, and no call on a layer follows a removeSource call.
    And the work is done: what a flush that returns has written is, first,
    for every layer id that was pending when it began, in their order (and
    then for those that callbacks enqueued while the layers were gone
    through), the four [off] calls followed by removeLayer(id); next, one
    removeSource call for every source id that was pending (and then for
    those enqueued until then); and after that no call on a layer.  A flush
    does return when the engine returns from every call and fires no
    callback, the service has its map and the loop bound is no less than
    the longest array. *)
Theorem C9_layers_are_unbound_then_removed_before_sources
  (o : Oracle) (fuel : nat) (w : World) :
  (unbound_first (engine_calls (written w (snd (applyChanges o fuel w)))) /\
   layers_before_sources (engine_calls (written w (snd (applyChanges o fuel w))))) /\
  (fst (applyChanges o fuel w) = Normal ->
   exists sL sS sRest later_layers later_sources,
     written w (snd (applyChanges o fuel w)) = sL ++ sS ++ sRest /\
     map layer_entry later_layers = of_kind Layer (enqueued sL) /\
     map source_entry later_sources = of_kind Source (enqueued (sL ++ sS)) /\
     engine_calls sL = flat_map layer_teardown (layerIdsToRemove w ++ later_layers) /\
     engine_calls sS = map source_teardown (sourceIdsToRemove w ++ later_sources) /\
     no_layer_calls sRest) /\
  (quiet o -> mapInstance w <> None -> queue_bound w <= fuel ->
   fst (applyChanges o fuel w) = Normal).
Proof.
  split; [|split].
  - destruct (applyChanges_order o fuel w) as (sL & sR & L & U & O & N).
    rewrite (written_app _ _ _ L).
    now apply order_of_phases.
  - intros E.
    destruct (applyChanges o fuel w) as [r w'] eqn:Ew. cbn [fst snd] in *. subst r.
    destruct (applyChanges_phases _ _ _ _ Ew)
      as (sL & sS & sM & sP & sI & L & (R1 & R2 & R3 & R4 & R5) & _ &
          (C1 & C2 & C3 & C4 & C5)).
    destruct (of_kind_layers (enqueued sL)) as [later_layers HL].
    destruct (of_kind_sources (enqueued (sL ++ sS))) as [later_sources HS].
    exists sL, sS, (sM ++ sP ++ sI), later_layers, later_sources.
    split; [now apply written_app|]. split; [now symmetry|]. split; [now symmetry|].
    split; [|split].
    + rewrite C1, R1, HL. change (pending Layer w) with (map layer_entry (layerIdsToRemove w)).
      rewrite <- map_app. apply layer_teardown_calls.
    + rewrite C2, R2, HS. change (pending Source w) with (map source_entry (sourceIdsToRemove w)).
      rewrite <- map_app. apply source_teardown_calls.
    + assert (NM : no_layer_calls sM).
      { apply (teardown_not_layer _ _ C3). intros e He.
        rewrite (removed_kind _ _ _ _ R3 e He). discriminate. }
      assert (NP : no_layer_calls sP).
      { apply (teardown_not_layer _ _ C4). intros e He.
        rewrite (removed_kind _ _ _ _ R4 e He). discriminate. }
      assert (NI : no_layer_calls sI).
      { apply (teardown_not_layer _ _ C5). intros e He.
        rewrite (removed_kind _ _ _ _ R5 e He). discriminate. }
      intros c b Hin. apply in_app_or in Hin. destruct Hin as [H|H]; [now apply (NM c b)|].
      apply in_app_or in H. destruct H as [H|H]; [now apply (NP c b) | now apply (NI c b)].
  - intros Q M B. now rewrite (applyChanges_quiet o fuel w Q M B).
Qed.

Example C9_scenario :
  written c1_queue (snd (applyChanges silent 3 c1_queue)) =
    unbind_calls "l1" ++ [Called (map_removeLayer "l1") false] ++
    unbind_calls "l2" ++ [Called (map_removeLayer "l2") false] ++
    [Called (map_removeSource "s1") false].
Proof. vm_compute. reflexivity. Qed.

(** ** C10 *)

(** C10: each removal method pushes on the array of its own kind and
    leaves the other four arrays as they were. *)
Theorem C10_enqueue_touches_its_own_array_only :
  (forall layerId w,
     layerIdsToRemove (snd (removeLayer layerId w)) = layerIdsToRemove w ++ [layerId] /\
     sourceIdsToRemove (snd (removeLayer layerId w)) = sourceIdsToRemove w /\
     markersToRemove (snd (removeLayer layerId w)) = markersToRemove w /\
     popupsToRemove (snd (removeLayer layerId w)) = popupsToRemove w /\
     imageIdsToRemove (snd (removeLayer layerId w)) = imageIdsToRemove w) /\
  (forall sourceId w,
     sourceIdsToRemove (snd (removeSource sourceId w)) = sourceIdsToRemove w ++ [sourceId] /\
     layerIdsToRemove (snd (removeSource sourceId w)) = layerIdsToRemove w /\
     markersToRemove (snd (removeSource sourceId w)) = markersToRemove w /\
     popupsToRemove (snd (removeSource sourceId w)) = popupsToRemove w /\
     imageIdsToRemove (snd (removeSource sourceId w)) = imageIdsToRemove w) /\
  (forall marker w,
     markersToRemove (snd (removeMarker marker w)) = markersToRemove w ++ [marker] /\
     layerIdsToRemove (snd (removeMarker marker w)) = layerIdsToRemove w /\
     sourceIdsToRemove (snd (removeMarker marker w)) = sourceIdsToRemove w /\
     popupsToRemove (snd (removeMarker marker w)) = popupsToRemove w /\
     imageIdsToRemove (snd (removeMarker marker w)) = imageIdsToRemove w) /\
  (forall popup skipCloseEvent w,
     popupsToRemove (snd (removePopupFromMap popup skipCloseEvent w)) =
       popupsToRemove w ++ [popup] /\
     layerIdsToRemove (snd (removePopupFromMap popup skipCloseEvent w)) = layerIdsToRemove w /\
     sourceIdsToRemove (snd (removePopupFromMap popup skipCloseEvent w)) = sourceIdsToRemove w /\
     markersToRemove (snd (removePopupFromMap popup skipCloseEvent w)) = markersToRemove w /\
     imageIdsToRemove (snd (removePopupFromMap popup skipCloseEvent w)) = imageIdsToRemove w) /\
  (forall imageId w,
     imageIdsToRemove (snd (removeImage imageId w)) = imageIdsToRemove w ++ [imageId] /\
     layerIdsToRemove (snd (removeImage imageId w)) = layerIdsToRemove w /\
     sourceIdsToRemove (snd (removeImage imageId w)) = sourceIdsToRemove w /\
     markersToRemove (snd (removeImage imageId w)) = markersToRemove w /\
     popupsToRemove (snd (removeImage imageId w)) = popupsToRemove w).
Proof.
  repeat split; try reflexivity;
    unfold removePopupFromMap, seq, assign; simpl;
    destruct (skipCloseEvent && truthy (listeners_of popup (popup_listeners w)));
    reflexivity.
Qed.


(** * Beyond the claims: the life cycle of the queue *)

(** ** Removals requested before the map exists *)

Lemma createMap_spec (m : MbMap) (w : World) :
  createMap m w =
  (Normal, set_subscription (subscription_closed w)
             (if subscription_closed w then subChanges w else S (subChanges w))
             (set_mapInstance (Some m) w)).
Proof. reflexivity. Qed.

Lemma performAll_subscription (rs : list Request) (w : World) :
  subChanges (snd (performAll rs w)) = subChanges w /\
  subscription_closed (snd (performAll rs w)) = subscription_closed w.
Proof. destruct (performAll_grows rs w) as [_ (_ & _ & C & S & _)]. auto. Qed.

(** X1: removals requested before the map is created are not lost.  While
    there is no map the trigger does nothing and the entries stay queued;
    once [createMap] has run, the next trigger tears all of them down, in
    the order of the kinds, and empties the queue (the engine returning
    from every call). *)
Theorem early_removals_are_flushed_after_createMap
  (o : Oracle) (rs : list Request) (w0 : World) (m : MbMap) (fuel : nat) :
  quiet o -> all_empty w0 ->
  subChanges w0 = 0 -> subscription_closed w0 = false ->
  List.length rs <= fuel ->
  onMicrotaskEmpty o fuel (snd (performAll rs w0)) = (Normal, snd (performAll rs w0)) /\
  fst (onMicrotaskEmpty o fuel (snd (createMap m (snd (performAll rs w0))))) = Normal /\
  written (snd (createMap m (snd (performAll rs w0))))
    (snd (onMicrotaskEmpty o fuel (snd (createMap m (snd (performAll rs w0)))))) =
    returned (flat_map teardown_calls (by_kind (map entry_of rs))) /\
  all_empty (snd (onMicrotaskEmpty o fuel (snd (createMap m (snd (performAll rs w0)))))).
Proof.
  intros Q E S C B.
  set (w1 := snd (performAll rs w0)).
  destruct (performAll_subscription rs w0) as [S1 C1]. fold w1 in S1, C1.
  split.
  - unfold onMicrotaskEmpty. now rewrite S1, S.
  - rewrite createMap_spec. cbn [snd].
    set (w2 := set_subscription _ _ _).
    assert (Hsub : subChanges w2 = 1) by (unfold w2; simpl; now rewrite C1, C, S1, S).
    unfold onMicrotaskEmpty. rewrite Hsub. cbn [notify]. unfold seq, flushSubscriber.
    assert (Hplan : plan w2 = by_kind (map entry_of rs)).
    { change (plan w2) with (plan w1). unfold w1. now apply plan_after_requests. }
    rewrite (applyChanges_quiet o fuel w2 Q).
    + cbv beta iota. unfold assign. cbn [fst snd]. split; [reflexivity|]. split.
      * rewrite (written_app w2 (flushed w2) (returned (flat_map teardown_calls (plan w2))))
          by reflexivity.
        now rewrite Hplan.
      * repeat split; reflexivity.
    + discriminate.
    + apply queue_bound_pending. intros k.
      change (pending k w2) with (pending k w1). unfold w1. rewrite performAll_pending.
      destruct E as (E1 & E2 & E3 & E4 & E5).
      replace (pending k w0) with (@nil Entry)
        by (destruct k; simpl; now rewrite ?E1, ?E2, ?E3, ?E4, ?E5).
      simpl. pose proof (of_kind_length k (map entry_of rs)) as H.
      rewrite length_map in H. lia.
Qed.

Lemma early_removals_witness :
  onMicrotaskEmpty silent 2 (snd (performAll [ReqSource "s"; ReqLayer "l"] new_MapService)) =
    (Normal, snd (performAll [ReqSource "s"; ReqLayer "l"] new_MapService)) /\
  fst (onMicrotaskEmpty silent 2
         (snd (createMap {| map_id := 1 |}
                 (snd (performAll [ReqSource "s"; ReqLayer "l"] new_MapService))))) = Normal /\
  written (snd (createMap {| map_id := 1 |}
                  (snd (performAll [ReqSource "s"; ReqLayer "l"] new_MapService))))
    (snd (onMicrotaskEmpty silent 2
            (snd (createMap {| map_id := 1 |}
                    (snd (performAll [ReqSource "s"; ReqLayer "l"] new_MapService)))))) =
    returned (flat_map teardown_calls
                (by_kind (map entry_of [ReqSource "s"; ReqLayer "l"]))) /\
  all_empty (snd (onMicrotaskEmpty silent 2
                    (snd (createMap {| map_id := 1 |}
                            (snd (performAll [ReqSource "s"; ReqLayer "l"] new_MapService)))))).
Proof.
  apply (early_removals_are_flushed_after_createMap silent
           [ReqSource "s"; ReqLayer "l"] new_MapService {| map_id := 1 |} 2).
  - exact silent_quiet.
  - repeat split; reflexivity.
  - reflexivity.
  - reflexivity.
  - simpl. lia.
Defined.

(** ** A map created again after [destroyMap] *)

Lemma subChanges_destroyMap (o : Oracle) (w : World) :
  subChanges (snd (destroyMap o w)) = 0.
Proof.
  unfold destroyMap.
  set (w0 := set_subscription true 0 w).
  assert (E0 : assign (set_subscription true 0) w = (Normal, w0)) by reflexivity.
  rewrite (seq_normal _ _ _ _ E0).
  destruct (sat_Grow_mapCall o map_remove w0) as [seg (_ & _ & _ & S & _)].
  rewrite S. reflexivity.
Qed.

Lemma destroyMap_closed (o : Oracle) (w : World) :
  subscription_closed (snd (destroyMap o w)) = true.
Proof.
  unfold destroyMap.
  set (w0 := set_subscription true 0 w).
  assert (E0 : assign (set_subscription true 0) w = (Normal, w0)) by reflexivity.
  rewrite (seq_normal _ _ _ _ E0).
  destruct (sat_Grow_mapCall o map_remove w0) as [seg (_ & _ & C & _)].
  rewrite C. reflexivity.
Qed.

(** X2: [this.subscription] is created once, with the service, and
    [destroyMap] closes it for good.  A map created on the same service
    after [destroyMap] gets no flush: the trigger does nothing, for ever,
    although the service has a map again, and the removals enqueued from
    then on are never applied by a trigger. *)
Theorem no_flush_after_destroyMap_even_with_a_new_map
  (o o' : Oracle) (w : World) (m : MbMap) (rs : list Request) (fuel : nat) :
  mapInstance (snd (performAll rs (snd (createMap m (snd (destroyMap o w)))))) = Some m /\
  onMicrotaskEmpty o' fuel (snd (performAll rs (snd (createMap m (snd (destroyMap o w)))))) =
    (Normal, snd (performAll rs (snd (createMap m (snd (destroyMap o w)))))).
Proof.
  pose proof (destroyMap_closed o w) as C.
  pose proof (subChanges_destroyMap o w) as Z.
  set (w1 := snd (destroyMap o w)) in *.
  rewrite createMap_spec. cbn [snd].
  set (w2 := set_subscription _ _ _).
  destruct (performAll_subscription rs w2) as [S2 _].
  destruct (performAll_frame rs w2) as [M2 _].
  split; [rewrite M2; reflexivity|].
  unfold onMicrotaskEmpty. rewrite S2. unfold w2. simpl. rewrite C, Z. reflexivity.
Qed.

(** [destroyMap] on a service whose map was never created throws a
    TypeError (there is no [mapInstance] to call [remove] on), after it has
    closed the subscription: the engine is not called and the queue is left
    as it was. *)
Theorem destroyMap_without_a_map_throws (o : Oracle) (w : World) :
  mapInstance w = None ->
  destroyMap o w = (Throw (TypeError map_remove), set_subscription true 0 w).
Proof.
  intros M. unfold destroyMap, seq, assign, mapCall. simpl. now rewrite M.
Qed.

Lemma destroyMap_without_a_map_witness :
  destroyMap silent new_MapService =
  (Throw (TypeError map_remove), set_subscription true 0 new_MapService).
Proof. apply (destroyMap_without_a_map_throws silent new_MapService). reflexivity. Defined.

(** ** A flush on a service without a map *)

Section UniformLoop.

Context {A : Type}.
Variable arr : World -> list A.
Variable loop_body : A -> Cmd.
Variable evs : A -> list Event.
Hypothesis arr_log : forall l w, arr (add_log l w) = arr w.
Hypothesis body_logs : forall x w, loop_body x w = (Normal, add_log (evs x) w).

Lemma loop_uniform (fuel i : nat) (w : World) :
  List.length (arr w) - i <= fuel ->
  for_of fuel arr loop_body i w = (Normal, add_log (flat_map evs (skipn i (arr w))) w).
Proof.
  revert i w. induction fuel as [|fuel IH]; intros i w Hlen; simpl.
  - destruct (nth_error (arr w) i) as [x|] eqn:N.
    + assert (i < List.length (arr w)) by (apply nth_error_Some; congruence). lia.
    + rewrite (skipn_none _ _ N). simpl. now rewrite add_log_nil.
  - destruct (nth_error (arr w) i) as [x|] eqn:N.
    + rewrite body_logs. rewrite IH by (rewrite arr_log; lia).
      rewrite arr_log, add_log_app, (skipn_nth_error _ _ _ N). reflexivity.
    + rewrite (skipn_none _ _ N). simpl. now rewrite add_log_nil.
Qed.

End UniformLoop.

Lemma teardown_markers (l : list Marker) :
  map (fun c => Called c false) (flat_map teardown_calls (map marker_entry l)) =
  flat_map (fun marker => [Called (marker_remove marker) false]) l.
Proof. induction l as [|a l IH]; simpl; [reflexivity | now rewrite IH]. Qed.

Lemma teardown_popups (l : list Popup) :
  map (fun c => Called c false) (flat_map teardown_calls (map popup_entry l)) =
  flat_map (fun popup => [Called (popup_remove popup) false]) l.
Proof. induction l as [|a l IH]; simpl; [reflexivity | now rewrite IH]. Qed.

(** X3: the teardown of a layer, a source or an image goes through
    [this.mapInstance], that of a marker or a popup does not.  On a service
    that has no map, a flush that finds a layer pending throws a TypeError
    at its first [off] call and changes nothing; a flush that finds only
    markers and popups removes them all and returns (the engine returning
    from every call). *)
Theorem flush_without_a_map (o : Oracle) (fuel : nat) (w : World) :
  mapInstance w = None ->
  (forall layerId rest,
     layerIdsToRemove w = layerId :: rest ->
     applyChanges o (S fuel) w = (Throw (TypeError (map_off click layerId)), w)) /\
  (quiet o ->
   layerIdsToRemove w = [] -> sourceIdsToRemove w = [] -> imageIdsToRemove w = [] ->
   queue_bound w <= fuel ->
   applyChanges o fuel w = (Normal, flushed w) /\
   attempted (written w (flushed w)) =
     map marker_entry (markersToRemove w) ++ map popup_entry (popupsToRemove w)).
Proof.
  intros M. split.
  - intros layerId rest L.
    unfold applyChanges, removeLayers, seq, mapCall. simpl. rewrite L, M. reflexivity.
  - intros Q L S I B. unfold queue_bound in B. split.
    + unfold applyChanges, removeLayers, removeSources, removeMarkers, removePopups,
        removeImages.
      assert (E1 : forall b, for_of fuel layerIdsToRemove b 0 w = (Normal, w))
        by (intros b; destruct fuel; simpl; now rewrite L).
      erewrite seq_normal; [| erewrite seq_normal; [reflexivity | apply E1]].
      set (w1 := set_layerIdsToRemove [] w).
      assert (E2 : forall b, for_of fuel sourceIdsToRemove b 0 w1 = (Normal, w1))
        by (intros b; destruct fuel; simpl; now rewrite S).
      erewrite seq_normal; [| erewrite seq_normal; [reflexivity | apply E2]].
      erewrite seq_normal;
        [| erewrite seq_normal;
           [ reflexivity
           | apply (loop_uniform markersToRemove _
                      (fun marker => [Called (marker_remove marker) false]));
             [ reflexivity | intros x w'; now apply engineCall_quiet | simpl; lia ] ] ].
      erewrite seq_normal;
        [| erewrite seq_normal;
           [ reflexivity
           | apply (loop_uniform popupsToRemove _
                      (fun popup => [Called (popup_remove popup) false]));
             [ reflexivity | intros x w'; now apply engineCall_quiet | simpl; lia ] ] ].
      assert (E5 : forall b w', imageIdsToRemove w' = [] ->
                 for_of fuel imageIdsToRemove b 0 w' = (Normal, w'))
        by (intros b w' H; destruct fuel; simpl; now rewrite H).
      erewrite seq_normal; [| apply E5; exact I].
      unfold assign, flushed, plan, add_log. simpl. rewrite L, S, I. simpl.
      unfold set_imageIdsToRemove, set_popupsToRemove. simpl. do 2 f_equal.
      rewrite app_nil_r, flat_map_app. unfold returned.
      rewrite map_app, teardown_markers, teardown_popups. now rewrite app_assoc.
    + rewrite (written_app w (flushed w) (returned (flat_map teardown_calls (plan w))))
        by reflexivity.
      rewrite attempted_returned. unfold plan. simpl. rewrite L, S, I. simpl.
      now rewrite app_nil_r.
Qed.

Lemma flush_without_a_map_witness :
  applyChanges silent 1 (snd (performAll [ReqMarker 3; ReqLayer "l"] new_MapService)) =
    (Throw (TypeError (map_off click "l")),
     snd (performAll [ReqMarker 3; ReqLayer "l"] new_MapService)) /\
  applyChanges silent 2 (snd (performAll [ReqMarker 3; ReqPopup 4 false] new_MapService)) =
    (Normal, flushed (snd (performAll [ReqMarker 3; ReqPopup 4 false] new_MapService))).
Proof.
  split.
  - apply (proj1 (flush_without_a_map silent 0
                    (snd (performAll [ReqMarker 3; ReqLayer "l"] new_MapService)) eq_refl)
             "l" []).
    reflexivity.
  - apply (proj2 (flush_without_a_map silent 2
                    (snd (performAll [ReqMarker 3; ReqPopup 4 false] new_MapService)) eq_refl)).
    + exact silent_quiet.
    + reflexivity.
    + reflexivity.
    + reflexivity.
    + vm_compute. lia.
Defined.

(** ** A callback that enqueues what is being flushed *)

Lemma markers_loop_never_returns (o : Oracle) :
  requeues_markers o ->
  forall fuel i w,
    i < List.length (markersToRemove w) ->
    fst (for_of fuel markersToRemove (fun marker => engineCall o (marker_remove marker)) i w)
    <> Normal.
Proof.
  intros R. induction fuel as [|fuel IH]; intros i w Hi; simpl.
  - destruct (nth_error (markersToRemove w) i) eqn:N; [discriminate|].
    apply nth_error_None in N. lia.
  - destruct (nth_error (markersToRemove w) i) as [x|] eqn:N;
      [|apply nth_error_None in N; lia].
    destruct (engineCall_spec o (marker_remove x) w) as [F (_ & _ & _ & _ & P)].
    destruct (engineCall o (marker_remove x) w) as [r1 w1]. simpl in F, P.
    destruct r1; [|discriminate|discriminate].
    apply IH. specialize (P MarkerKind). simpl in P.
    apply (f_equal (@List.length Entry)) in P.
    rewrite length_app, !length_map, enqueued_app, of_kind_app, length_app in P.
    rewrite enqueued_requests in P.
    pose proof (R (log w) x) as Hne.
    destruct (of_kind MarkerKind (map entry_of (reentrant (o (log w) (marker_remove x)))));
      [congruence|]. simpl in P. lia.
Qed.

(** X4: the loops read their live array, so a flush need not end.  If every
    [marker.remove()] makes a callback enqueue the removal of a marker (the
    same one or another), a flush that finds a marker pending never returns
    normally, whatever the bound on the number of loop steps: each step
    adds the entry of the next one. *)
Theorem flush_never_returns_when_markers_requeue (o : Oracle) (w : World) :
  requeues_markers o -> markersToRemove w <> [] ->
  forall fuel, fst (applyChanges o fuel w) <> Normal.
Proof.
  intros R Hne fuel Hn.
  destruct (applyChanges o fuel w) as [r w'] eqn:E. simpl in Hn. subst r.
  unfold applyChanges in E.
  seq_normal_inv E w1 E1. seq_normal_inv E w2 E2. seq_normal_inv E w3 E3.
  destruct (removeKind_normal o fuel Layer _ _ E1) as (sL & _ & _ & _ & _ & O1 & _).
  destruct (removeKind_normal o fuel Source _ _ E2) as (sS & _ & _ & _ & _ & O2 & _).
  other O1 MarkerKind. other O2 MarkerKind.
  unfold removeMarkers in E3. seq_normal_inv E3 w2' E3'.
  apply (markers_loop_never_returns o R fuel 0 w2); [|now rewrite E3'].
  simpl in H, H0. apply (f_equal (@List.length Entry)) in H0.
  rewrite H, !length_app, !length_map in H0.
  destruct (markersToRemove w); [congruence|]. simpl in H0. lia.
Qed.

Lemma flush_never_returns_witness :
  fst (applyChanges requeues_same_marker 1000 c3_queue) <> Normal.
Proof.
  apply (flush_never_returns_when_markers_requeue requeues_same_marker c3_queue).
  - intros h marker. discriminate.
  - discriminate.
Defined.

(** ** What a failed flush leaves behind *)

Lemma teardown_removal (e : Entry) (c : EngineCall) :
  In c (teardown_calls e) -> removal_of c = None \/ removal_of c = Some e.
Proof.
  destruct e; simpl; intros H;
    repeat (destruct H as [<-|H]; [simpl; auto|]); destruct H.
Qed.

Lemma removed_returned_within (e : Entry) (cs : list EngineCall) :
  (forall c, In c cs -> In c (teardown_calls e)) ->
  forall e', In e' (removed (returned cs)) -> e' = e.
Proof.
  induction cs as [|c cs IH]; intros H e' Hin; [destruct Hin|].
  simpl in Hin. apply in_app_or in Hin. destruct Hin as [Hin|Hin].
  - destruct (teardown_removal e c (H c (or_introl eq_refl))) as [E|E];
      rewrite E in Hin; simpl in Hin; [destruct Hin | destruct Hin as [<-|[]]; reflexivity].
  - apply IH; [|exact Hin]. intros c' Hc'. apply H. now right.
Qed.

(** Whatever way a body ends, the only entry it may have removed is its
    own. *)
Lemma body_removed (o : Oracle) (e : Entry) (w : World) :
  exists seg, grows w (snd (body o e w)) seg /\
              forall e', In e' (removed seg) -> e' = e.
Proof.
  destruct (body_shape o e w) as [seg [G S]]. exists seg. split; [exact G|].
  intros e'. rewrite <- removed_engine_calls.
  destruct (fst (body o e w)) as [|[c|c]|]; simpl in S.
  - rewrite S, removed_teardown. intros [<-|[]]. reflexivity.
  - destruct S as (pre & post & Hcs & ->). rewrite removed_app. simpl.
    rewrite app_nil_r. apply removed_returned_within.
    intros c' Hc'. rewrite Hcs. apply in_or_app. now left.
  - destruct S as (pre & post & Hcs & ->). apply removed_returned_within.
    intros c' Hc'. rewrite Hcs. apply in_or_app. now left.
  - destruct S.
Qed.

Section LoopRemoved.

Context {A : Type}.
Variable o : Oracle.
Variable k : Kind.
Variable arr : World -> list A.
Variable inj : A -> Entry.
Hypothesis arr_pending : forall w, pending k w = map inj (arr w).

(** Whatever way a loop ends, what it has removed is in its array. *)
Lemma loop_removed (fuel i : nat) (w : World) :
  exists seg,
    grows w (snd (for_of fuel arr (fun x => body o (inj x)) i w)) seg /\
    forall e, In e (removed seg) ->
              In e (pending k (snd (for_of fuel arr (fun x => body o (inj x)) i w))).
Proof.
  revert i w. induction fuel as [|fuel IH]; intros i w; simpl.
  - destruct (nth_error (arr w) i); exists []; (split; [apply grows_refl | intros e []]).
  - destruct (nth_error (arr w) i) as [x|] eqn:N;
      [| exists []; (split; [apply grows_refl | intros e []])].
    destruct (body_removed o (inj x) w) as (s1 & G1 & R1).
    destruct (body o (inj x) w) as [r1 w1] eqn:E1. simpl in G1.
    assert (Hx : forall w2 s2, grows w1 w2 s2 -> In (inj x) (pending k w2)).
    { intros w2 s2 G2. eapply nth_error_In.
      eapply (pending_nth k arr inj arr_pending); [exact N|].
      eapply grows_trans; eauto. }
    destruct r1.
    + destruct (IH (S i) w1) as (s2 & G2 & R2).
      exists (s1 ++ s2). split; [eapply grows_trans; eauto|].
      intros e He. rewrite removed_app in He. apply in_app_or in He.
      destruct He as [He|He]; [|now apply R2].
      rewrite (R1 e He). eapply Hx. exact G2.
    + exists s1. simpl. split; [exact G1|]. intros e' He. rewrite (R1 e' He).
      apply (Hx w1 []). apply grows_refl.
    + exists s1. simpl. split; [exact G1|]. intros e' He. rewrite (R1 e' He).
      apply (Hx w1 []). apply grows_refl.
Qed.

Variable reset : World -> World.
Hypothesis reset_log : forall w, log (reset w) = log w.

Lemma phase_removed (fuel : nat) (w : World) :
  let m := for_of fuel arr (fun x => body o (inj x)) 0 ;; assign reset in
  exists seg,
    log (snd (m w)) = log w ++ seg /\
    (forall e, In e (removed seg) -> kind_of e = k) /\
    (fst (m w) <> Normal -> forall e, In e (removed seg) -> In e (pending k (snd (m w)))).
Proof.
  intros m. subst m.
  destruct (loop_removed fuel 0 w) as (seg & (L & _) & R).
  destruct (for_of fuel arr (fun x => body o (inj x)) 0 w) as [r1 w1] eqn:E1.
  simpl in L, R. exists seg.
  assert (K : forall e, In e (removed seg) -> kind_of e = k)
    by (intros e He; eapply pending_kind; eauto).
  destruct r1.
  - rewrite (seq_normal _ _ _ _ E1). simpl. rewrite reset_log.
    repeat split; auto. intros H. now destruct H.
  - rewrite (seq_abrupt _ _ _ _ _ E1) by discriminate. simpl. auto.
  - rewrite (seq_abrupt _ _ _ _ _ E1) by discriminate. simpl. auto.
Qed.

End LoopRemoved.

Lemma removeKind_removed (o : Oracle) (fuel : nat) (k : Kind) (w : World) :
  exists seg,
    log (snd (removeKind o fuel k w)) = log w ++ seg /\
    (forall e, In e (removed seg) -> kind_of e = k) /\
    (fst (removeKind o fuel k w) <> Normal ->
     forall e, In e (removed seg) -> In e (pending k (snd (removeKind o fuel k w)))).
Proof.
  destruct k.
  - apply (phase_removed o Layer layerIdsToRemove layer_entry (fun _ => eq_refl)
             (set_layerIdsToRemove [])). reflexivity.
  - apply (phase_removed o Source sourceIdsToRemove source_entry (fun _ => eq_refl)
             (set_sourceIdsToRemove [])). reflexivity.
  - apply (phase_removed o MarkerKind markersToRemove marker_entry (fun _ => eq_refl)
             (set_markersToRemove [])). reflexivity.
  - apply (phase_removed o PopupKind popupsToRemove popup_entry (fun _ => eq_refl)
             (set_popupsToRemove [])). reflexivity.
  - apply (phase_removed o Image imageIdsToRemove image_entry (fun _ => eq_refl)
             (set_imageIdsToRemove [])). reflexivity.
Qed.

Lemma removeKinds_retry (o : Oracle) (fuel : nat) (ks : list Kind) :
  NoDup ks ->
  forall w, exists seg,
    RetryResult ks w (fst (removeKinds o fuel ks w)) (snd (removeKinds o fuel ks w)) seg.
Proof.
  induction ks as [|k0 ks IH]; intros ND w.
  - exists []. simpl. split; [now rewrite app_nil_r|]. split; [intros e []|exact I].
  - inversion ND as [|? ? Hnot ND']; subst. cbn [removeKinds].
    destruct (removeKind_removed o fuel k0 w) as (s1 & L1 & K1 & P1).
    destruct (removeKind_inv o fuel k0 w) as [s1' H1].
    destruct (removeKind o fuel k0 w) as [r1 w1] eqn:E1. simpl in L1, P1, H1.
    destruct r1 as [|err|].
    + rewrite (seq_normal _ _ _ _ E1).
      destruct (IH ND' w1) as (s2 & L2 & K2 & H2).
      destruct (removeKinds o fuel ks w1) as [r w']. simpl in *.
      exists (s1 ++ s2). split; [rewrite L2, L1; now rewrite app_assoc|]. split.
      * intros e He. rewrite removed_app in He. apply in_app_or in He.
        destruct He as [He|He]; [left; symmetry; now apply K1 | right; now apply K2].
      * destruct r as [|err|]; auto.
        destruct H2 as (x & Kx & Ex & Px & Rx). exists x.
        split; [now right|]. split; [exact Ex|]. split; [exact Px|].
        intros e Ke He. rewrite removed_app in He. apply in_app_or in He.
        destruct He as [He|He]; [|now apply Rx].
        exfalso. apply Hnot. rewrite <- (K1 e He), Ke. exact Kx.
    + rewrite (seq_abrupt _ _ _ _ _ E1) by discriminate. simpl.
      exists s1. split; [exact L1|]. split.
      * intros e He. left. symmetry. now apply K1.
      * destruct H1 as (L1' & _ & _ & _ & _ & _ & x & Hx & He).
        exists x. pose proof (pending_kind _ _ _ Hx) as Kx. rewrite Kx.
        split; [now left|]. split; [exact He|]. split; [exact Hx|].
        intros e _ Hin. apply P1; [discriminate | exact Hin].
    + rewrite (seq_abrupt _ _ _ _ _ E1) by discriminate. simpl.
      exists s1. split; [exact L1|]. split; [|exact I].
      intros e He. left. symmetry. now apply K1.
Qed.

(** X5: a flush that throws has reset the arrays of the kinds it had
    finished and no other: the array of a kind before the failing one
    holds nothing but what callbacks pushed on it later in the flush, the
    arrays of the failing kind and of the kinds after it hold all they held
    and what was pushed on them.  So the entry whose call failed is still
    pending, and so are the entries of its kind that the flush had already
    torn down; and whenever [applyChanges] is run again from there and
    returns, it has called the removal of each of them a second time. *)
Theorem entries_removed_before_a_failure_stay_pending
  (o : Oracle) (fuel : nat) (w : World) (err : JsError) :
  fst (applyChanges o fuel w) = Throw err ->
  exists x,
    In (error_call err) (teardown_calls x) /\
    In x (pending (kind_of x) (snd (applyChanges o fuel w))) /\
    (forall j, rank j < rank (kind_of x) ->
               drained j (snd (applyChanges o fuel w))
                 (written w (snd (applyChanges o fuel w)))) /\
    (forall j, rank (kind_of x) <= rank j ->
               kept j w (snd (applyChanges o fuel w))
                 (written w (snd (applyChanges o fuel w)))) /\
    forall e,
      kind_of e = kind_of x ->
      In e (removed (written w (snd (applyChanges o fuel w)))) ->
      In e (pending (kind_of x) (snd (applyChanges o fuel w))) /\
      forall o2 fuel2 w2,
        applyChanges o2 fuel2 (snd (applyChanges o fuel w)) = (Normal, w2) ->
        In e (removed (written (snd (applyChanges o fuel w)) w2)).
Proof.
  intros E.
  destruct (applyChanges_failure o fuel w err E) as (y & _ & Ey & Dy & Ky).
  destruct (removeKinds_retry o fuel kinds kinds_NoDup w) as (seg & L & _ & H).
  rewrite <- (applyChanges_kinds o fuel w) in L, H.
  rewrite E in H. destruct H as (x & _ & Ex & Px & Rx).
  assert (y = x) by (eapply teardown_calls_entry; eauto). subst y.
  exists x. split; [exact Ex|]. split; [exact Px|]. split; [exact Dy|]. split; [exact Ky|].
  intros e Ke He. rewrite (written_app _ _ _ L) in He.
  pose proof (Rx e Ke He) as Pe. split; [exact Pe|].
  intros o2 fuel2 w2 E2.
  apply (returning_flush_removes_pending o2 fuel2 _ w2 e); [now rewrite Ke | exact E2].
Qed.

Lemma entries_removed_before_a_failure_witness :
  exists x,
    In (error_call (EngineError (map_removeLayer "b"))) (teardown_calls x) /\
    In x (pending (kind_of x) (snd (applyChanges (rejects_layer "b") 2 retry_queue))) /\
    forall e,
      kind_of e = kind_of x ->
      In e (removed (written retry_queue (snd (applyChanges (rejects_layer "b") 2 retry_queue)))) ->
      In e (pending (kind_of x) (snd (applyChanges (rejects_layer "b") 2 retry_queue))).
Proof.
  destruct (entries_removed_before_a_failure_stay_pending (rejects_layer "b") 2 retry_queue
              (EngineError (map_removeLayer "b")))
    as (x & Ex & Px & _ & _ & R); [vm_compute; reflexivity|].
  exists x. split; [exact Ex|]. split; [exact Px|].
  intros e Ke He. apply (R e Ke He).
Defined.

Example retry_scenario :
  removed (written retry_queue (snd (applyChanges (rejects_layer "b") 2 retry_queue))) =
    [layer_entry "a"] /\
  layerIdsToRemove (snd (applyChanges (rejects_layer "b") 2 retry_queue)) = ["a"; "b"].
Proof. vm_compute. split; reflexivity. Qed.

(** * Beyond the claims: the methods that forward to the engine *)

(** ** JavaScript values and objects *)

Lemma obj_get_delete (k k' : string) (o : Obj) :
  obj_get k (obj_delete k' o) = if String.eqb k' k then undefined else obj_get k o.
Proof.
  induction o as [|[a v] o IH]; simpl.
  - now destruct (String.eqb k' k).
  - destruct (String.eqb a k') eqn:E1; simpl.
    + apply String.eqb_eq in E1. subst a. rewrite IH.
      destruct (String.eqb k' k); reflexivity.
    + destruct (String.eqb a k) eqn:E2; [|exact IH].
      apply String.eqb_eq in E2. subst a.
      rewrite String.eqb_sym in E1. now rewrite E1.
Qed.

Lemma obj_get_absent (k : string) (o : Obj) :
  ~ In k (keys o) -> obj_get k o = undefined.
Proof.
  induction o as [|[a v] o IH]; simpl; intros H; [reflexivity|].
  destruct (String.eqb a k) eqn:E.
  - apply String.eqb_eq in E. exfalso. apply H. now left.
  - apply IH. intros Hin. apply H. now right.
Qed.

Lemma obj_delete_filter (k : string) (o : Obj) (p : string * Value -> bool) :
  obj_delete k (filter p o) = filter p (obj_delete k o).
Proof.
  unfold obj_delete. induction o as [|kv o IH]; simpl; [reflexivity|].
  destruct (p kv) eqn:P; destruct (negb (String.eqb (fst kv) k)) eqn:N; simpl;
    rewrite ?P, ?N, IH; reflexivity.
Qed.

Lemma obj_delete_absent (k : string) (o : Obj) :
  ~ In k (keys o) -> obj_delete k o = o.
Proof.
  unfold obj_delete. induction o as [|[a v] o IH]; simpl; intros H; [reflexivity|].
  destruct (String.eqb a k) eqn:E.
  - apply String.eqb_eq in E. exfalso. apply H. now left.
  - simpl. f_equal. apply IH. intros Hin. apply H. now right.
Qed.

(** The loop, started on the properties [todo] of an object whose
    properties before them, [done], are all defined. *)
Lemma deleteUndefined_loop (done todo : Obj) :
  NoDup (keys (done ++ todo)) ->
  forallb defined_property done = true ->
  fold_left (fun acc key => if is_undefined (obj_get key acc) then obj_delete key acc else acc)
    (keys todo) (done ++ todo) =
  done ++ filter defined_property todo.
Proof.
  revert done. induction todo as [|[k v] todo IH]; intros done ND D; [reflexivity|].
  simpl.
  assert (Hk : ~ In k (keys done) /\ ~ In k (keys todo)).
  { unfold keys in ND. rewrite map_app in ND. simpl in ND.
    apply NoDup_remove_2 in ND. split; intros H; apply ND; apply in_or_app; auto. }
  destruct Hk as [Hd Ht].
  assert (G : obj_get k (done ++ (k, v) :: todo) = v).
  { clear - Hd. induction done as [|[a x] done IH]; simpl.
    - now rewrite String.eqb_refl.
    - destruct (String.eqb a k) eqn:E.
      + apply String.eqb_eq in E. exfalso. apply Hd. now left.
      + apply IH. intros H. apply Hd. now right. }
  rewrite G.
  assert (DP : defined_property (k, v) = negb (is_undefined v)) by reflexivity.
  cbn [filter]. rewrite DP.
  destruct (is_undefined v) eqn:U; cbn [negb].
  - assert (Del : obj_delete k (done ++ (k, v) :: todo) = done ++ todo).
    { unfold obj_delete. rewrite filter_app. simpl. rewrite String.eqb_refl. simpl.
      fold (obj_delete k done). fold (obj_delete k todo).
      now rewrite !obj_delete_absent. }
    rewrite Del. apply IH; [|exact D].
    unfold keys in *. rewrite map_app in *. simpl in ND.
    now apply NoDup_remove_1 in ND.
  - change (done ++ (k, v) :: todo) with (done ++ [(k, v)] ++ todo).
    rewrite app_assoc. rewrite IH.
    + now rewrite <- app_assoc.
    + now rewrite <- app_assoc.
    + rewrite forallb_app, D. unfold defined_property. simpl. now rewrite U.
Qed.

Lemma obj_get_filter_defined (k : string) (o : Obj) :
  NoDup (keys o) -> obj_get k (filter defined_property o) = obj_get k o.
Proof.
  induction o as [|[a v] o IH]; intros ND; [reflexivity|].
  inversion ND as [|? ? Hn ND']; subst. simpl.
  unfold defined_property at 1. simpl.
  destruct (is_undefined v) eqn:U; simpl.
  - destruct (String.eqb a k) eqn:E.
    + apply String.eqb_eq in E. subst a. destruct v; try discriminate.
      apply obj_get_absent. intros H. apply Hn. unfold keys in *.
      apply in_map_iff in H. destruct H as (kv & <- & Hkv).
      apply filter_In in Hkv. apply in_map. tauto.
    + now apply IH.
  - destruct (String.eqb a k); [reflexivity | now apply IH].
Qed.

(** X6: the clean-up of an options object removes the properties whose
    value is [undefined] and nothing else: what is left are the other
    properties (those set to [null], [false], [0] or the empty string
    included), in their order and with their values, so that reading any
    property gives the same value as before; a second clean-up changes
    nothing. *)
Theorem deleteUndefined_keeps_the_defined_properties (o : Obj) :
  well_formed o ->
  deleteUndefined o = filter (fun kv => negb (is_undefined (snd kv))) o /\
  (forall k, In k (keys (deleteUndefined o)) <->
             In k (keys o) /\ obj_get k o <> undefined) /\
  (forall k, obj_get k (deleteUndefined o) = obj_get k o) /\
  well_formed (deleteUndefined o) /\
  deleteUndefined (deleteUndefined o) = deleteUndefined o.
Proof.
  intros ND.
  assert (E : deleteUndefined o = filter defined_property o)
    by (apply (deleteUndefined_loop [] o ND); reflexivity).
  assert (ND' : NoDup (keys (filter defined_property o))).
  { clear E. unfold keys in *. induction o as [|[a v] o IH]; simpl; [constructor|].
    inversion ND as [|? ? Hn ND1]; subst.
    destruct (defined_property (a, v)); simpl; [constructor|]; auto.
    intros H. apply Hn. apply in_map_iff in H. destruct H as (kv & <- & Hkv).
    apply filter_In in Hkv. apply in_map. tauto. }
  split; [exact E|]. split; [|split; [|split]].
  - intros k. rewrite E. unfold keys. rewrite !in_map_iff. split.
    + intros ([a v] & <- & H). apply filter_In in H. destruct H as [H D]. simpl.
      split; [exists (a, v); auto|].
      assert (G : obj_get a o = v).
      { clear - ND H. induction o as [|[b x] o IH]; [destruct H|].
        inversion ND as [|? ? Hn ND1]; subst. simpl.
        destruct H as [H|H].
        - inversion H; subst. now rewrite String.eqb_refl.
        - destruct (String.eqb b a) eqn:Eb; [|now apply IH].
          apply String.eqb_eq in Eb. subst b. exfalso. apply Hn.
          unfold keys. apply in_map_iff. exists (a, v). auto. }
      rewrite G. unfold defined_property in D. simpl in D. now destruct v.
    + intros [([a v] & <- & H) U]. simpl in U. exists (a, v). split; [reflexivity|].
      apply filter_In. split; [exact H|].
      assert (G : obj_get a o = v).
      { clear - ND H. induction o as [|[b x] o IH]; [destruct H|].
        inversion ND as [|? ? Hn ND1]; subst. simpl.
        destruct H as [H|H].
        - inversion H; subst. now rewrite String.eqb_refl.
        - destruct (String.eqb b a) eqn:Eb; [|now apply IH].
          apply String.eqb_eq in Eb. subst b. exfalso. apply Hn.
          unfold keys. apply in_map_iff. exists (a, v). auto. }
      rewrite G in U. unfold defined_property. simpl. now destruct v.
  - intros k. rewrite E. now apply obj_get_filter_defined.
  - unfold well_formed. now rewrite E.
  - rewrite E.
    assert (E' : deleteUndefined (filter defined_property o) =
                 filter defined_property (filter defined_property o))
      by (apply (deleteUndefined_loop [] _ ND'); reflexivity).
    rewrite E'.
    clear. induction o as [|kv o IH]; simpl; [reflexivity|].
    destruct (defined_property kv) eqn:D; simpl; rewrite ?D, IH; reflexivity.
Qed.

Lemma deleteUndefined_witness :
  deleteUndefined [("id", str "roads"); ("filter", undefined); ("minzoom", number zero);
                   ("source", null); ("layout", undefined)] =
  filter (fun kv => negb (is_undefined (snd kv)))
    [("id", str "roads"); ("filter", undefined); ("minzoom", number zero);
     ("source", null); ("layout", undefined)].
Proof.
  apply (deleteUndefined_keeps_the_defined_properties
           [("id", str "roads"); ("filter", undefined); ("minzoom", number zero);
            ("source", null); ("layout", undefined)]).
  unfold well_formed. simpl.
  repeat constructor; simpl; intuition discriminate.
Defined.

(** ** Calls on the map *)

Lemma sent_app (s : Session) (w : World) (cs : list Forwarded) :
  sent s {| service := w; forwarded := forwarded s ++ cs |} = cs.
Proof.
  unfold sent. simpl. rewrite skipn_app, skipn_all, Nat.sub_diag. reflexivity.
Qed.

Lemma issue_spec (e : Engine) (c : Forwarded) (s : Session) :
  issue e c s =
    (if raises (e (forwarded s) c) then Throws (Raised c)
     else Returns (result (e (forwarded s) c)),
     {| service := service s; forwarded := forwarded s ++ [c] |}).
Proof. reflexivity. Qed.

Lemma onMap_spec (e : Engine) (c : Forwarded) (s : Session) :
  has_map s ->
  onMap e c s =
    (if raises (e (forwarded s) c) then Throws (Raised c)
     else Returns (result (e (forwarded s) c)),
     {| service := service s; forwarded := forwarded s ++ [c] |}).
Proof.
  intros H. unfold onMap, bind, lookup_mapInstance.
  destruct (mapInstance (service s)) eqn:E; [reflexivity|].
  exfalso. apply H. exact E.
Qed.

Lemma onMap_no_map (e : Engine) (c : Forwarded) (s : Session) :
  mapInstance (service s) = None ->
  onMap e c s = (Throws UndefinedMapInstance, s).
Proof.
  intros H. unfold onMap, bind, lookup_mapInstance. rewrite H. reflexivity.
Qed.

Lemma onMap_obliging (e : Engine) (c : Forwarded) (s : Session) :
  obliging e -> has_map s ->
  onMap e c s =
    (Returns (result (e (forwarded s) c)),
     {| service := service s; forwarded := forwarded s ++ [c] |}).
Proof.
  intros O H. rewrite onMap_spec by exact H. now rewrite O.
Qed.

(** ** Loops of conditional calls *)

Lemma forEach_ext {A : Type} (l : list A) (f g : A -> Method) (s : Session) :
  (forall x s', f x s' = g x s') -> forEach l f s = forEach l g s.
Proof.
  intros H. revert s. induction l as [|x l IH]; intros s; [reflexivity|].
  simpl. unfold bind. rewrite H. destruct (g x s) as [[v|f'] s1]; [apply IH | reflexivity].
Qed.

Lemma answered_nil (e : Engine) (h : list Forwarded) : answered e h [].
Proof. intros pre c post H. destruct pre; discriminate. Qed.

Lemma answered_cons (e : Engine) (h : list Forwarded) (c : Forwarded) (cs : list Forwarded) :
  raises (e h c) = false -> answered e (h ++ [c]) cs -> answered e h (c :: cs).
Proof.
  intros R H pre c' post E. destruct pre as [|p pre]; simpl in E; inversion E; subst.
  - now rewrite app_nil_r.
  - specialize (H pre c' post eq_refl). now rewrite <- app_assoc in H.
Qed.

Lemma forEach_Forwards {A : Type} (e : Engine) (l : list A) (cond : A -> bool)
  (call : A -> Forwarded) (s : Session) :
  has_map s ->
  Forwards e (map call (filter cond l)) s
    (forEach l (fun x => if cond x then onMap e (call x) else ret undefined) s).
Proof.
  revert s. induction l as [|x l IH]; intros s M.
  - split; [reflexivity|]. exists 0. simpl. rewrite app_nil_r. split; [reflexivity|].
    left. split; [reflexivity|]. split; [lia | apply answered_nil].
  - simpl. unfold bind at 1. destruct (cond x) eqn:C.
    + rewrite onMap_spec by exact M.
      destruct (raises (e (forwarded s) (call x))) eqn:R.
      * split; [reflexivity|]. exists 1. simpl. split; [reflexivity|].
        right. exists [], (call x). rewrite app_nil_r. simpl.
        repeat split; auto. apply answered_nil.
      * set (s1 := {| service := service s; forwarded := forwarded s ++ [call x] |}).
        destruct (IH s1 M) as [Hs [n [Hf Hr]]]. split; [exact Hs|].
        exists (S n). simpl. split.
        { rewrite Hf. simpl. now rewrite <- app_assoc. }
        destruct Hr as [(Hr & Hn & Ha)|(pre & c & Hp & Hr & Ha & Hc)].
        { left. split; [exact Hr|]. split; [lia|]. now apply answered_cons. }
        { right. exists (call x :: pre), c. rewrite Hp. split; [reflexivity|].
          split; [exact Hr|]. split; [now apply answered_cons|].
          simpl in Hc. rewrite <- app_assoc in Hc. exact Hc. }
    + unfold ret at 1. apply IH. exact M.
Qed.

Lemma Forwards_obliging (e : Engine) (cs : list Forwarded) (s : Session) (r : Result * Session) :
  obliging e -> Forwards e cs s r ->
  r = (Returns undefined, {| service := service s; forwarded := forwarded s ++ cs |}).
Proof.
  intros O [Hs [n [Hf [(Hr & Hn & _)|(pre & c & _ & _ & _ & Hc)]]]].
  - rewrite firstn_all2 in Hf by exact Hn.
    destruct r as [v [w f]]. simpl in *. now subst.
  - rewrite O in Hc. discriminate.
Qed.

Lemma forEach_no_map {A : Type} (e : Engine) (l : list A) (call : A -> Forwarded) (s : Session) :
  mapInstance (service s) = None ->
  forEach l (fun x => onMap e (call x)) s =
    (match l with [] => Returns undefined | _ => Throws UndefinedMapInstance end, s).
Proof.
  intros H. destruct l as [|x l]; [reflexivity|].
  simpl. unfold bind. now rewrite onMap_no_map.
Qed.

(** ** addLayer *)

Lemma addLayer_loop (e : Engine) (layer : SetupLayer) (bindEvents : bool) (before : Value)
  (s : Session) :
  addLayer e layer bindEvents before s =
    (forEach (None :: map Some layer_event_types)
       (fun x =>
          if match x with None => true | Some type => bindEvents && observed layer type end
          then onMap e match x with
                       | None => map_addLayer (deleteUndefined (layerOptions layer)) before
                       | Some type =>
                           map_on type (obj_get "id" (deleteUndefined (layerOptions layer)))
                             (emitter_of type)
                       end
          else ret undefined)) s.
Proof.
  unfold addLayer, when, observed. cbn [forEach map layer_event_types emitter_of].
  unfold bind.
  destruct (onMap e (map_addLayer _ before) s) as [[v|f] s1]; [|reflexivity].
  destruct bindEvents; cbn [andb]; [|reflexivity].
  unfold ret.
  repeat match goal with
         | |- context [Nat.eqb ?n 0] => destruct (Nat.eqb n 0); cbn [negb]; cbv beta iota
         | |- context [onMap e ?c ?s] => destruct (onMap e c s) as [[?|?] ?]; cbv beta iota
         end; reflexivity.
Qed.

Lemma addLayer_calls (layer : SetupLayer) (bindEvents : bool) (before : Value) :
  map (fun x : option LayerEvent =>
         match x with
         | None => map_addLayer (deleteUndefined (layerOptions layer)) before
         | Some type =>
             map_on type (obj_get "id" (deleteUndefined (layerOptions layer))) (emitter_of type)
         end)
    (filter (fun x : option LayerEvent =>
               match x with None => true | Some type => bindEvents && observed layer type end)
       (None :: map Some layer_event_types)) =
  map_addLayer (deleteUndefined (layerOptions layer)) before :: bindings layer bindEvents.
Proof.
  unfold bindings, layer_event_types. cbn [map filter].
  destruct (bindEvents && observed layer click), (bindEvents && observed layer mouseenter),
    (bindEvents && observed layer mouseleave), (bindEvents && observed layer mousemove);
    reflexivity.
Qed.

Lemma bindings_spec (layer : SetupLayer) (bindEvents : bool) (c : Forwarded) :
  In c (bindings layer bindEvents) <->
  exists type,
    c = map_on type (obj_get "id" (deleteUndefined (layerOptions layer))) (emitter_of type) /\
    bindEvents = true /\ layerEvents layer (emitter_of type) <> 0.
Proof.
  unfold bindings. rewrite in_map_iff. split.
  - intros [type [<- H]]. apply filter_In in H. destruct H as [_ H].
    apply andb_true_iff in H. destruct H as [B O]. exists type.
    split; [reflexivity|]. split; [exact B|].
    unfold observed in O. apply negb_true_iff in O. now apply Nat.eqb_neq.
  - intros [type [-> [B O]]]. exists type. split; [reflexivity|].
    apply filter_In. split; [destruct type; simpl; auto|].
    apply andb_true_iff. split; [exact B|].
    unfold observed. apply negb_true_iff. now apply Nat.eqb_neq.
Qed.

Lemma bindings_NoDup (layer : SetupLayer) (bindEvents : bool) :
  NoDup (bindings layer bindEvents).
Proof.
  unfold bindings, layer_event_types. cbn [filter].
  destruct (bindEvents && observed layer click), (bindEvents && observed layer mouseenter),
    (bindEvents && observed layer mouseleave), (bindEvents && observed layer mousemove);
    cbn [map]; repeat constructor; simpl; intuition discriminate.
Qed.

Lemma Forwards_sent (e : Engine) (cs : list Forwarded) (s : Session) (r : Result * Session) :
  Forwards e cs s r -> exists n, sent s (snd r) = firstn n cs.
Proof.
  intros [_ [n [Hf _]]]. exists n. unfold sent. rewrite Hf.
  rewrite skipn_app, skipn_all, Nat.sub_diag. reflexivity.
Qed.

(** What [addLayer] does on a service that has its map, against any engine. *)
Lemma addLayer_binds_spec_aux (e : Engine) (layer : SetupLayer) (bindEvents : bool)
  (before : Value) (s : Session) :
  has_map s ->
  service (snd (addLayer e layer bindEvents before s)) = service s /\
  exists n, sent s (snd (addLayer e layer bindEvents before s)) =
            map_addLayer (deleteUndefined (layerOptions layer)) before ::
            firstn n (bindings layer bindEvents).
Proof.
  intros M.
  assert (F : Forwards e (map_addLayer (deleteUndefined (layerOptions layer)) before ::
                          bindings layer bindEvents) s
                (addLayer e layer bindEvents before s)).
  { rewrite addLayer_loop. rewrite <- addLayer_calls. apply forEach_Forwards. exact M. }
  split; [exact (proj1 F)|].
  destruct F as [_ [n [Hf Hr]]].
  assert (Hs : sent s (snd (addLayer e layer bindEvents before s)) =
               firstn n (map_addLayer (deleteUndefined (layerOptions layer)) before ::
                         bindings layer bindEvents)).
  { unfold sent. rewrite Hf, skipn_app, skipn_all, Nat.sub_diag. reflexivity. }
  destruct n as [|n].
  - exfalso. destruct Hr as [[_ Hn]|[pre [c [Hp _]]]].
    + simpl in Hn. lia.
    + simpl in Hp. destruct pre; discriminate.
  - exists n. exact Hs.
Qed.

(** X7: [addLayer] hands the engine the options without their undefined
    properties and then binds listeners; it leaves the service as it is.
    The calls it makes are the [addLayer] call followed by a prefix of the
    bindings, all of them when the engine returns from every call; when the
    [addLayer] call throws, no listener is bound.  The bindings are: for
    each of the four event types, in the order click, mouseenter,
    mouseleave, mousemove, and only when [bindEvents] is set and the
    emitter of that type has an observer, one listener for the layer's id
    that emits on that emitter. *)
Theorem addLayer_binds_the_observed_events (e : Engine) (layer : SetupLayer)
  (bindEvents : bool) (before : Value) (s : Session) :
  has_map s ->
  let options := deleteUndefined (layerOptions layer) in
  let r := addLayer e layer bindEvents before s in
  service (snd r) = service s /\
  (exists n, sent s (snd r) = map_addLayer options before :: firstn n (bindings layer bindEvents)) /\
  (raises (e (forwarded s) (map_addLayer options before)) = true ->
   r = (Throws (Raised (map_addLayer options before)),
        {| service := service s; forwarded := forwarded s ++ [map_addLayer options before] |})) /\
  (obliging e ->
   r = (Returns undefined,
        {| service := service s;
           forwarded := forwarded s ++ map_addLayer options before :: bindings layer bindEvents |})) /\
  (forall c, In c (bindings layer bindEvents) <->
             exists type, c = map_on type (obj_get "id" options) (emitter_of type) /\
                          bindEvents = true /\ layerEvents layer (emitter_of type) <> 0) /\
  NoDup (bindings layer bindEvents).
Proof.
  intros M options r.
  assert (F : Forwards e (map_addLayer options before :: bindings layer bindEvents) s r).
  { unfold r, options. rewrite addLayer_loop. rewrite <- addLayer_calls.
    apply forEach_Forwards. exact M. }
  split; [exact (proj1 F)|]. split; [|split; [|split; [|split]]].
  - exact (proj2 (addLayer_binds_spec_aux e layer bindEvents before s M)).
  - intros R. unfold r, addLayer, bind. fold options.
    rewrite onMap_spec by exact M. now rewrite R.
  - intros O. exact (Forwards_obliging e _ s r O F).
  - apply bindings_spec.
  - apply bindings_NoDup.
Qed.

Lemma on_map_has_map : has_map on_map.
Proof. unfold has_map. simpl. discriminate. Qed.

Lemma addLayer_binds_witness :
  addLayer at_ease roads true undefined on_map =
    (Returns undefined,
     {| service := with_map;
        forwarded := [map_addLayer [("id", str "roads"); ("type", str "line")] undefined;
                      map_on click (str "roads") click_emitter;
                      map_on mousemove (str "roads") mouseMove_emitter] |}).
Proof.
  apply (addLayer_binds_the_observed_events at_ease roads true undefined on_map on_map_has_map).
  intros h c. reflexivity.
Defined.

Lemma in_prefix {A : Type} (x : A) (n : nat) (l : list A) : In x (firstn n l) -> In x l.
Proof.
  revert l. induction n as [|n IH]; intros [|y l] H; simpl in *; try contradiction.
  destruct H as [H|H]; [now left | right; now apply IH].
Qed.

Lemma deleteUndefined_get (k : string) (o : Obj) :
  well_formed o -> obj_get k (deleteUndefined o) = obj_get k o.
Proof.
  intros ND.
  assert (E : deleteUndefined o = filter defined_property o)
    by (apply (deleteUndefined_loop [] o ND); reflexivity).
  rewrite E. now apply obj_get_filter_defined.
Qed.

(** The calls of a flush that tear one layer down, split at the [off] call
    of one event type. *)
Lemma layer_teardown_split (type : LayerEvent) (layerId : string) :
  exists pre mid,
    returned (teardown_calls (layer_entry layerId)) =
      pre ++ Called (map_off type layerId) false :: mid ++ [Called (map_removeLayer layerId) false].
Proof.
  destruct type; simpl.
  - exists [], [Called (map_off mouseenter layerId) false; Called (map_off mouseleave layerId) false;
                Called (map_off mousemove layerId) false]. reflexivity.
  - exists [Called (map_off click layerId) false],
      [Called (map_off mouseleave layerId) false; Called (map_off mousemove layerId) false].
    reflexivity.
  - exists [Called (map_off click layerId) false; Called (map_off mouseenter layerId) false],
      [Called (map_off mousemove layerId) false]. reflexivity.
  - exists [Called (map_off click layerId) false; Called (map_off mouseenter layerId) false;
            Called (map_off mouseleave layerId) false], []. reflexivity.
Qed.

(** X8: a layer added with [addLayer] and then removed with [removeLayer]
    under the id of its options: against an engine that returns from every
    call, the next flush returns, and for every listener that [addLayer]
    bound (it was bound for that id), the flush calls [off] for the same
    event type and id before it calls [removeLayer] for the id. *)
Theorem listeners_bound_by_addLayer_are_unbound_by_the_flush (e : Engine) (o : Oracle)
  (layer : SetupLayer) (bindEvents : bool) (before : Value) (layerId : string)
  (s : Session) (fuel : nat) :
  has_map s -> quiet o ->
  well_formed (layerOptions layer) ->
  obj_get "id" (layerOptions layer) = str layerId ->
  let s1 := snd (addLayer e layer bindEvents before s) in
  let w2 := snd (removeLayer layerId (service s1)) in
  queue_bound w2 <= fuel ->
  applyChanges o fuel w2 = (Normal, flushed w2) /\
  forall type id emitter,
    In (map_on type id emitter) (sent s s1) ->
    id = str layerId /\
    exists pre mid post,
      written w2 (flushed w2) =
        pre ++ Called (map_off type layerId) false :: mid ++
        Called (map_removeLayer layerId) false :: post.
Proof.
  intros M Q WF Id s1 w2 B.
  destruct (addLayer_binds_spec_aux e layer bindEvents before s M) as [Hs [n Hn]].
  fold s1 in Hs, Hn. unfold w2 in *. clear w2. clearbody s1.
  rewrite Hs in *. unfold has_map in M.
  set (w := service s) in *. clearbody w.
  set (w2 := snd (removeLayer layerId w)) in *.
  assert (Mw : mapInstance w2 <> None) by exact M.
  split; [now apply applyChanges_quiet|].
  intros type id emitter Hin. rewrite Hn in Hin.
  destruct Hin as [Hin|Hin]; [discriminate|].
  apply in_prefix in Hin. apply bindings_spec in Hin.
  destruct Hin as [type' [Heq _]]. inversion Heq; subst type' id emitter.
  rewrite deleteUndefined_get by exact WF. split; [exact Id|].
  assert (W : written w2 (flushed w2) = returned (flat_map teardown_calls (plan w2)))
    by (apply written_app; reflexivity).
  assert (P : plan w2 =
              map layer_entry (layerIdsToRemove w) ++
              layer_entry layerId ::
              (pending Source w2 ++ pending MarkerKind w2 ++ pending PopupKind w2 ++
               pending Image w2)).
  { unfold plan. unfold pending at 1.
    change (layerIdsToRemove w2) with (layerIdsToRemove w ++ [layerId]).
    rewrite map_app, <- app_assoc. reflexivity. }
  rewrite W, P, flat_map_app. cbn [flat_map]. rewrite !returned_app.
  destruct (layer_teardown_split type layerId) as [pre [mid Ht]]. rewrite Ht.
  exists (returned (flat_map teardown_calls (map layer_entry (layerIdsToRemove w))) ++ pre), mid.
  eexists. rewrite <- !app_assoc. cbn [app]. rewrite <- !app_assoc.
  cbn [app]. reflexivity.
Qed.

Lemma listeners_unbound_witness :
  applyChanges silent 1
    (snd (removeLayer "roads" (service (snd (addLayer at_ease roads true undefined on_map))))) =
  (Normal,
   flushed (snd (removeLayer "roads"
                   (service (snd (addLayer at_ease roads true undefined on_map)))))).
Proof.
  apply (listeners_bound_by_addLayer_are_unbound_by_the_flush
           at_ease silent roads true undefined "roads" on_map 1 on_map_has_map silent_quiet).
  - unfold well_formed. simpl. repeat constructor; simpl; intuition discriminate.
  - reflexivity.
  - vm_compute. lia.
Defined.

(** ** move *)

Lemma obj_get_set (k k' : string) (v : Value) (o : Obj) :
  obj_get k (obj_set k' v o) = if String.eqb k' k then v else obj_get k o.
Proof.
  induction o as [|[a x] o IH]; simpl.
  - destruct (String.eqb k' k); reflexivity.
  - destruct (String.eqb a k') eqn:E1; simpl.
    + apply String.eqb_eq in E1. subst a. destruct (String.eqb k' k); reflexivity.
    + destruct (String.eqb a k) eqn:E2; [|exact IH].
      apply String.eqb_eq in E2. subst a. rewrite String.eqb_sym in E1. now rewrite E1.
Qed.

Lemma or_current_spec (e : Engine) (v : Value) (getter : Forwarded) (s : Session) :
  obliging e -> has_map s ->
  or_current v (onMap e getter) s =
    (Returns (if value_truthy v then v else result (e (forwarded s) getter)),
     {| service := service s;
        forwarded := forwarded s ++ (if value_truthy v then [] else [getter]) |}).
Proof.
  intros O M. unfold or_current. destruct (value_truthy v).
  - unfold ret. rewrite app_nil_r. now destruct s.
  - now rewrite onMap_obliging by assumption.
Qed.

(** X9: [move] on a service that has its map, against an engine that
    returns from every call: it calls one getter for each of zoom, center,
    bearing and pitch that is falsy (omitted, null, 0, NaN, the empty
    string), in that order, and then the moving method once.  In the
    options of that call each of the four properties is the argument when
    it is truthy and otherwise what the engine returned from the getter
    call just made ([h0] ... [h3] are the calls forwarded before each
    getter), so a zoom, bearing or pitch of 0 is replaced by the current
    one and a value for them in [movingOptions] never reaches the engine;
    every other property is the one of [movingOptions]. *)
Theorem move_fills_in_the_current_camera (e : Engine) (movingMethod : MovingMethod)
  (movingOptions : option Obj) (zoom center bearing pitch : Value) (s : Session) :
  obliging e -> has_map s ->
  let h0 := forwarded s in
  let h1 := h0 ++ (if value_truthy zoom then [] else [map_getZoom]) in
  let h2 := h1 ++ (if value_truthy center then [] else [map_getCenter]) in
  let h3 := h2 ++ (if value_truthy bearing then [] else [map_getBearing]) in
  exists options,
    move e movingMethod movingOptions zoom center bearing pitch s =
      (Returns undefined,
       {| service := service s;
          forwarded := forwarded s ++ camera_getters zoom center bearing pitch ++
                       [map_moving movingMethod options] |}) /\
    obj_get "zoom" options =
      (if value_truthy zoom then zoom else result (e h0 map_getZoom)) /\
    obj_get "center" options =
      (if value_truthy center then center else result (e h1 map_getCenter)) /\
    obj_get "bearing" options =
      (if value_truthy bearing then bearing else result (e h2 map_getBearing)) /\
    obj_get "pitch" options =
      (if value_truthy pitch then pitch else result (e h3 map_getPitch)) /\
    (forall k, ~ In k ["zoom"; "center"; "bearing"; "pitch"] ->
               obj_get k options = obj_get k (spread movingOptions)).
Proof.
  intros O M h0 h1 h2 h3.
  pose proof (or_current_spec e zoom map_getZoom s O M) as Ez.
  set (s1 := {| service := service s; forwarded := h1 |}).
  pose proof (or_current_spec e center map_getCenter s1 O M) as Ec.
  set (s2 := {| service := service s; forwarded := h2 |}).
  pose proof (or_current_spec e bearing map_getBearing s2 O M) as Eb.
  set (s3 := {| service := service s; forwarded := h3 |}).
  pose proof (or_current_spec e pitch map_getPitch s3 O M) as Ep.
  cbn [service forwarded s1 s2 s3] in Ez, Ec, Eb, Ep.
  exists (obj_set "pitch" (if value_truthy pitch then pitch else result (e h3 map_getPitch))
            (obj_set "bearing"
               (if value_truthy bearing then bearing else result (e h2 map_getBearing))
               (obj_set "center"
                  (if value_truthy center then center else result (e h1 map_getCenter))
                  (obj_set "zoom"
                     (if value_truthy zoom then zoom else result (e h0 map_getZoom))
                     (spread movingOptions))))).
  split.
  - unfold move, bind, lookup_mapInstance.
    destruct (mapInstance (service s)) eqn:Em; [|exfalso; exact (M Em)]. cbn [truthy].
    fold h0 in Ez. fold h1 in Ez. fold s1 in Ez. rewrite Ez.
    fold h2 in Ec. fold s2 in Ec. rewrite Ec.
    fold h3 in Eb. fold s3 in Eb. rewrite Eb. rewrite Ep.
    rewrite issue_spec, O. unfold ret, camera_getters.
    cbn [service forwarded]. unfold h3, h2, h1, h0.
    rewrite <- !app_assoc. reflexivity.
  - rewrite !obj_get_set. cbn [String.eqb Ascii.eqb Bool.eqb andb].
    do 4 (split; [reflexivity|]).
    intros k Hk. rewrite !obj_get_set.
    repeat match goal with
           | |- context [String.eqb ?a k] =>
               destruct (String.eqb_spec a k) as [<-|_]; [exfalso; apply Hk; simpl; tauto|]
           end.
    reflexivity.
Qed.

Lemma move_fills_in_witness :
  exists options,
    move counting_engine flyTo (Some [("zoom", number twenty); ("speed", number twenty)])
      (number zero) (reference 9) undefined (number twenty) on_map =
      (Returns undefined,
       {| service := with_map;
          forwarded := [map_getZoom; map_getBearing; map_moving flyTo options] |}) /\
    obj_get "zoom" options = reference 0 /\
    obj_get "center" options = reference 9 /\
    obj_get "bearing" options = reference 1 /\
    obj_get "pitch" options = number twenty /\
    obj_get "speed" options = number twenty.
Proof.
  destruct (move_fills_in_the_current_camera counting_engine flyTo
              (Some [("zoom", number twenty); ("speed", number twenty)])
              (number zero) (reference 9) undefined (number twenty) on_map)
    as [options [H [Z [C [B [P K]]]]]].
  - intros h c. reflexivity.
  - exact on_map_has_map.
  - exists options. split; [exact H|]. split; [exact Z|]. split; [exact C|].
    split; [exact B|]. split; [exact P|].
    apply (K "speed"). simpl. intuition discriminate.
Defined.

(** ** setLayerZoomRange *)

(** X10: [setLayerZoomRange] on a service that has its map makes one call,
    whose bounds are the arguments when they are truthy; a falsy minimum
    (omitted, 0, NaN) becomes 0 and a falsy maximum becomes 20, so that the
    engine never gets an undefined or NaN bound and never a maximum of 0. *)
Theorem setLayerZoomRange_defaults (e : Engine) (layerId : string)
  (minZoom maxZoom : Value) (s : Session) :
  has_map s ->
  exists lo hi,
    snd (setLayerZoomRange e layerId minZoom maxZoom s) =
      {| service := service s;
         forwarded := forwarded s ++ [map_setLayerZoomRange layerId lo hi] |} /\
    (value_truthy minZoom = true -> lo = minZoom) /\
    (value_truthy minZoom = false -> lo = number zero) /\
    (value_truthy maxZoom = true -> hi = maxZoom) /\
    (value_truthy maxZoom = false -> hi = number twenty) /\
    lo <> undefined /\ lo <> number NaN /\
    hi <> undefined /\ hi <> number NaN /\
    (forall sign, hi <> number (SpecFloat.S754_zero sign)).
Proof.
  intros M.
  exists (if value_truthy minZoom then minZoom else number zero),
         (if value_truthy maxZoom then maxZoom else number twenty).
  split.
  - unfold setLayerZoomRange, bind. rewrite onMap_spec by exact M.
    destruct (raises _); reflexivity.
  - destruct (value_truthy minZoom) eqn:Tmin, (value_truthy maxZoom) eqn:Tmax;
      repeat split; try reflexivity; try discriminate;
      try (intros E; rewrite E in *; simpl in *; discriminate);
      try (intros sign E; rewrite E in *; simpl in *; discriminate).
Qed.

Lemma setLayerZoomRange_witness :
  exists lo hi,
    snd (setLayerZoomRange at_ease "roads" (number zero) undefined on_map) =
      {| service := with_map;
         forwarded := [map_setLayerZoomRange "roads" lo hi] |} /\
    lo = number zero /\ hi = number twenty.
Proof.
  destruct (setLayerZoomRange_defaults at_ease "roads" (number zero) undefined on_map
              on_map_has_map) as [lo [hi [H [_ [L [_ [U _]]]]]]].
  exists lo, hi. split; [exact H|]. split; [apply L | apply U]; reflexivity.
Defined.

(** ** setAllLayerPaintProperty, setAllLayerLayoutProperty *)

Lemma obj_get_in (k : string) (v : Value) (o : Obj) :
  well_formed o -> In (k, v) o -> obj_get k o = v.
Proof.
  unfold well_formed. induction o as [|[a x] o IH]; intros ND H; [destruct H|].
  inversion ND as [|? ? Hn ND1]; subst. simpl. destruct H as [H|H].
  - inversion H; subst. now rewrite String.eqb_refl.
  - destruct (String.eqb a k) eqn:E; [|now apply IH].
    apply String.eqb_eq in E. subst a. exfalso. apply Hn.
    unfold keys. apply in_map_iff. exists (k, v). auto.
Qed.

Lemma property_calls (call : string -> Value -> Forwarded) (o : Obj) :
  well_formed o ->
  map (fun key => call key (obj_get key o)) (keys o) =
  map (fun kv => call (fst kv) (snd kv)) o.
Proof.
  intros WF. unfold keys. rewrite map_map. apply map_ext_in.
  intros [k v] H. simpl. now rewrite (obj_get_in k v o WF H).
Qed.

Lemma forEach_property (e : Engine) (call : string -> Value -> Forwarded) (o : Obj)
  (s : Session) :
  well_formed o ->
  (mapInstance (service s) = None ->
   forEach (keys o) (fun key => onMap e (call key (obj_get key o))) s =
     (match o with [] => Returns undefined | _ => Throws UndefinedMapInstance end, s)) /\
  (has_map s ->
   Forwards e (map (fun kv => call (fst kv) (snd kv)) o) s
     (forEach (keys o) (fun key => onMap e (call key (obj_get key o))) s)).
Proof.
  intros WF. split.
  - intros H. rewrite forEach_no_map by exact H. now destruct o.
  - intros M. rewrite <- property_calls by exact WF.
    pose proof (forEach_Forwards e (keys o) (fun _ => true)
                  (fun key => call key (obj_get key o)) s M) as F.
    cbv beta iota in F.
    replace (filter (fun _ : string => true) (keys o)) with (keys o) in F; [exact F|].
    clear. induction (keys o) as [|k l IH]; simpl; [reflexivity | now rewrite <- IH].
Qed.

(** X11: [setAllLayerPaintProperty] and [setAllLayerLayoutProperty] go
    through the properties of the object they are given, in its order, and
    forward each one with its value (an undefined value included) in a call
    of its own, until a call throws.  On a service that has its map the
    service is left as it is, and ([Forwards]) either the engine has
    returned from every one of these calls, all were made and the method
    returns; or the engine has returned from the first of them and thrown
    in the next one, which is then the last call made, and the method
    throws what that call threw.  On a service without a map an empty
    object makes the method return and any other object makes it throw a
    TypeError, without a call in either case. *)
Theorem setAllLayerProperty_forwards_each_property (e : Engine) (layerId : string)
  (properties : Obj) (s : Session) :
  well_formed properties ->
  (has_map s ->
   Forwards e (map (fun kv => map_setPaintProperty layerId (fst kv) (snd kv)) properties) s
     (setAllLayerPaintProperty e layerId properties s) /\
   Forwards e (map (fun kv => map_setLayoutProperty layerId (fst kv) (snd kv)) properties) s
     (setAllLayerLayoutProperty e layerId properties s)) /\
  (mapInstance (service s) = None ->
   setAllLayerPaintProperty e layerId properties s =
     (match properties with [] => Returns undefined | _ => Throws UndefinedMapInstance end, s) /\
   setAllLayerLayoutProperty e layerId properties s =
     (match properties with [] => Returns undefined | _ => Throws UndefinedMapInstance end, s)).
Proof.
  intros WF.
  destruct (forEach_property e (map_setPaintProperty layerId) properties s WF) as [P0 P1].
  destruct (forEach_property e (map_setLayoutProperty layerId) properties s WF) as [L0 L1].
  split; intros H; split; auto.
Qed.

Lemma setAllLayerProperty_witness :
  Forwards rejects_line_width
    (map (fun kv => map_setPaintProperty "roads" (fst kv) (snd kv))
       [("line-color", str "red"); ("line-width", undefined); ("line-blur", number zero)])
    on_map
    (setAllLayerPaintProperty rejects_line_width "roads"
       [("line-color", str "red"); ("line-width", undefined); ("line-blur", number zero)]
       on_map).
Proof.
  apply (setAllLayerProperty_forwards_each_property rejects_line_width "roads"
           [("line-color", str "red"); ("line-width", undefined); ("line-blur", number zero)]
           on_map).
  - unfold well_formed. simpl. repeat constructor; simpl; intuition discriminate.
  - exact on_map_has_map.
Defined.

Example setAllLayerProperty_scenario :
  setAllLayerPaintProperty rejects_line_width "roads"
    [("line-color", str "red"); ("line-width", undefined); ("line-blur", number zero)] on_map =
  (Throws (Raised (map_setPaintProperty "roads" "line-width" undefined)),
   {| service := with_map;
      forwarded := [map_setPaintProperty "roads" "line-color" (str "red");
                    map_setPaintProperty "roads" "line-width" undefined] |}).
Proof. vm_compute. reflexivity. Qed.

(** ** loadAndAddImage *)

(** X12: [loadAndAddImage] on a service that has its map, followed by one
    run of its callback.  [loadImage] is called, and [addImage] is called
    exactly when the callback gets a falsy error.  The promise is rejected
    with what [loadImage] threw if it threw; otherwise rejected with the
    error if the error is truthy; otherwise fulfilled if [addImage]
    returned; and if [addImage] threw, the promise is left pending and the
    exception goes to the engine that ran the callback. *)
Theorem loadAndAddImage_settles_the_promise (e : Engine) (imageId url : string)
  (options error image : Value) (s : Session) :
  has_map s ->
  let load := map_loadImage url in
  let add := map_addImage imageId image options in
  let run := load_then_callback e imageId url options error image s in
  service (snd run) = service s /\
  sent s (snd run) = load :: (if value_truthy error then [] else [add]) /\
  snd (fst run) =
    (if raises (e (forwarded s) load) then Rejected (Thrown (Raised load))
     else if value_truthy error then Rejected (LoadError error)
     else if raises (e (forwarded s ++ [load]) add) then Pending
     else Fulfilled) /\
  fst (fst run) =
    (if value_truthy error then Returns undefined
     else if raises (e (forwarded s ++ [load]) add) then Throws (Raised add)
     else Returns undefined).
Proof.
  intros M load add run. unfold run, load_then_callback, loadAndAddImage.
  rewrite onMap_spec by exact M. fold load.
  set (s1 := {| service := service s; forwarded := forwarded s ++ [load] |}).
  assert (M1 : has_map s1) by exact M.
  assert (S1 : sent s s1 = [load]) by (unfold s1; apply sent_app).
  unfold loadImage_callback, addImage, bind.
  destruct (raises (e (forwarded s) load)); destruct (value_truthy error);
    try (rewrite onMap_spec by exact M1; fold add;
         destruct (raises (e (forwarded s1) add)) eqn:R; unfold s1 in R; simpl in R;
         rewrite R); cbn [fst snd ret reject resolve service];
    (repeat split; try reflexivity; try exact S1);
    unfold sent; simpl; rewrite <- app_assoc, skipn_app, skipn_all, Nat.sub_diag; reflexivity.
Qed.

Lemma loadAndAddImage_witness :
  snd (fst (load_then_callback rejects_addImage "pin" "pin.png" undefined null (reference 7)
              on_map)) = Pending.
Proof.
  apply (loadAndAddImage_settles_the_promise rejects_addImage "pin" "pin.png" undefined null
           (reference 7) on_map on_map_has_map).
Defined.

(** ** addPopupToMap *)

Lemma delete_close_listener (popup : Popup) (tbl : list (Popup * list string)) :
  delete_close popup tbl = delete_listener "close" popup tbl.
Proof.
  induction tbl as [|[p ks] tbl IH]; simpl; [reflexivity|].
  destruct (Nat.eqb p popup); [reflexivity | now rewrite IH].
Qed.

Lemma listeners_of_delete (type : string) (popup q : Popup) (tbl : list (Popup * list string)) :
  listeners_of q (delete_listener type popup tbl) =
    if Nat.eqb q popup
    then option_map (filter (fun k => negb (String.eqb k type))) (listeners_of q tbl)
    else listeners_of q tbl.
Proof.
  induction tbl as [|[p ks] tbl IH]; simpl.
  - destruct (Nat.eqb q popup); reflexivity.
  - destruct (Nat.eqb p popup) eqn:E1; simpl.
    + apply Nat.eqb_eq in E1. subst p.
      destruct (Nat.eqb popup q) eqn:E2.
      * apply Nat.eqb_eq in E2. subst q. now rewrite Nat.eqb_refl.
      * rewrite Nat.eqb_sym, E2. reflexivity.
    + destruct (Nat.eqb p q) eqn:E2; [|exact IH].
      apply Nat.eqb_eq in E2. subst q. now rewrite E1.
Qed.

Lemma delete_listener_comm (t1 t2 : string) (popup : Popup) (tbl : list (Popup * list string)) :
  delete_listener t1 popup (delete_listener t2 popup tbl) =
  delete_listener t2 popup (delete_listener t1 popup tbl).
Proof.
  induction tbl as [|[p ks] tbl IH]; simpl; [reflexivity|].
  destruct (Nat.eqb p popup) eqn:E; simpl; rewrite E.
  - do 2 f_equal. clear. induction ks as [|k ks IH]; simpl; [reflexivity|].
    destruct (String.eqb k t1) eqn:E1, (String.eqb k t2) eqn:E2; simpl;
      rewrite ?E1, ?E2; simpl; rewrite ?IH; reflexivity.
  - now rewrite IH.
Qed.

Lemma truthy_listeners_delete (type : string) (popup : Popup) (tbl : list (Popup * list string)) :
  truthy (listeners_of popup (delete_listener type popup tbl)) =
  truthy (listeners_of popup tbl).
Proof.
  rewrite listeners_of_delete, Nat.eqb_refl. now destruct (listeners_of popup tbl).
Qed.

Lemma addPopupToMap_service (e : Engine) (popup : Popup) (lngLat : Value)
  (skipOpenEvent : bool) (s : Session) :
  service (snd (addPopupToMap e popup lngLat skipOpenEvent s)) =
    set_popup_listeners (without_open popup skipOpenEvent (popup_listeners (service s)))
      (service s).
Proof.
  unfold addPopupToMap, bind, on_service, without_open, issue, ret.
  cbn [fst snd service forwarded].
  repeat match goal with
         | |- context [raises ?r] => destruct (raises r); cbn [fst snd service forwarded]
         end;
    destruct (skipOpenEvent && truthy _); try reflexivity; now destruct (service s).
Qed.

Lemma removePopupFromMap_listeners (popup : Popup) (skipCloseEvent : bool) (w : World) :
  popup_listeners (snd (removePopupFromMap popup skipCloseEvent w)) =
    if skipCloseEvent && truthy (listeners_of popup (popup_listeners w))
    then delete_listener "close" popup (popup_listeners w) else popup_listeners w.
Proof.
  unfold removePopupFromMap, seq, assign. cbn [fst snd]. rewrite <- delete_close_listener.
  destruct (skipCloseEvent && truthy _); reflexivity.
Qed.

(** X13: [addPopupToMap] changes nothing of the service but the listener
    tables of popups, whatever the engine does: with [skipOpenEvent] the
    open listeners of the popup are dropped from its table, its other
    listeners and the tables of the other popups stay.  The popup is then
    positioned and added to [mapInstance] as it is, so that on a service
    without a map no TypeError is thrown; and dropping the open listeners
    here and the close listeners in [removePopupFromMap] gives the same
    tables in either order. *)
Theorem addPopupToMap_drops_the_open_listeners_only (e : Engine) (popup : Popup)
  (lngLat : Value) (skipOpenEvent skipCloseEvent : bool) (s : Session) :
  let s' := snd (addPopupToMap e popup lngLat skipOpenEvent s) in
  mapInstance (service s') = mapInstance (service s) /\
  (forall k, pending k (service s') = pending k (service s)) /\
  log (service s') = log (service s) /\
  (forall q, listeners_of q (popup_listeners (service s')) =
             if skipOpenEvent && Nat.eqb q popup
             then option_map (filter (fun k => negb (String.eqb k "open")))
                    (listeners_of q (popup_listeners (service s)))
             else listeners_of q (popup_listeners (service s))) /\
  (obliging e ->
   fst (addPopupToMap e popup lngLat skipOpenEvent s) = Returns undefined /\
   sent s s' = [popup_setLngLat popup lngLat; popup_addTo popup (mapInstance (service s))]) /\
  popup_listeners (snd (removePopupFromMap popup skipCloseEvent (service s'))) =
  popup_listeners
    (service (snd (addPopupToMap e popup lngLat skipOpenEvent
                     {| service := snd (removePopupFromMap popup skipCloseEvent (service s));
                        forwarded := forwarded s |}))).
Proof.
  intros s'. pose proof (addPopupToMap_service e popup lngLat skipOpenEvent s) as S.
  fold s' in S. rewrite S.
  split; [reflexivity|]. split; [intros []; reflexivity|]. split; [reflexivity|].
  split; [|split].
  - intros q. cbn [popup_listeners set_popup_listeners]. unfold without_open.
    destruct skipOpenEvent; cbn [andb]; [|reflexivity].
    destruct (truthy (listeners_of popup (popup_listeners (service s)))) eqn:T.
    + apply listeners_of_delete.
    + destruct (Nat.eqb q popup) eqn:E; [|reflexivity].
      apply Nat.eqb_eq in E. subst q.
      destruct (listeners_of popup (popup_listeners (service s))); [discriminate | reflexivity].
  - intros O. unfold s', addPopupToMap, bind, on_service, issue, ret.
    cbn [fst snd service forwarded]. rewrite !O.
    cbn [fst snd service forwarded].
    split; [reflexivity|]. unfold sent. cbn [forwarded].
    rewrite <- app_assoc, skipn_app, skipn_all, Nat.sub_diag.
    destruct (skipOpenEvent && truthy _); reflexivity.
  - rewrite addPopupToMap_service. cbn [service popup_listeners set_popup_listeners].
    rewrite !removePopupFromMap_listeners. cbn [popup_listeners set_popup_listeners].
    unfold without_open.
    destruct skipOpenEvent, skipCloseEvent; cbn [andb]; try reflexivity;
      destruct (truthy (listeners_of popup (popup_listeners (service s)))) eqn:T;
      rewrite ?truthy_listeners_delete, ?T; try reflexivity.
    apply delete_listener_comm.
Qed.

(** ** hookEvents *)

Lemma distinct_NoDup (l : list string) : distinct l = true -> NoDup l.
Proof.
  induction l as [|x l IH]; simpl; intros H; [constructor|].
  apply andb_true_iff in H. destruct H as [H1 H2]. constructor; [|now apply IH].
  intros Hin. apply negb_true_iff in H1.
  assert (E : existsb (String.eqb x) l = true)
    by (apply existsb_exists; exists x; split; [exact Hin | apply String.eqb_refl]).
  rewrite E in H1. discriminate.
Qed.

Lemma distinct_images_filter {A B : Type} (keep : A -> bool) (image : A -> B) :
  forall l, NoDup (map image l) -> NoDup (map image (filter keep l)).
Proof.
  intros l. induction l as [|x l IH]; simpl; intros H; [constructor|].
  inversion H as [|? ? Hn H']; subst.
  destruct (keep x); simpl; [constructor|]; auto.
  intros Hin. apply Hn. apply in_map_iff in Hin. destruct Hin as [y [E Hy]].
  apply filter_In in Hy. rewrite <- E. apply in_map. tauto.
Qed.

Lemma hooked_of_facts (tbl : list (string * string * string)) (events : MapEvent) :
  distinct ("load" :: map (fun h => snd (fst h)) tbl) = true ->
  forallb (fun h => String.eqb (fst (fst h)) (snd h)) tbl = true ->
  NoDup (map fst (hooked_of tbl events)) /\
  List.length (hooked_of tbl events) <= S (List.length tbl) /\
  (forall type emits,
     In (type, emits) (hooked_of tbl events) <->
     (type = "load" /\ emits = "load") \/
     (In (emits, type, emits) tbl /\ events emits <> 0)).
Proof.
  intros D T. split; [|split].
  - apply distinct_NoDup in D. unfold hooked_of. cbn [map fst].
    inversion D as [|? ? Hn D']; subst. constructor.
    + intros Hin. apply Hn. rewrite map_map in Hin. cbn [fst] in Hin.
      apply in_map_iff in Hin. destruct Hin as [h [E Hh]].
      apply filter_In in Hh. rewrite <- E. apply in_map_iff. exists h. tauto.
    + rewrite map_map. cbn [fst]. now apply distinct_images_filter.
  - unfold hooked_of. cbn [List.length]. rewrite length_map.
    pose proof (filter_length_le (fun h : string * string * string =>
                                    negb (Nat.eqb (events (fst (fst h))) 0)) tbl) as L.
    lia.
  - intros type emits. unfold hooked_of. cbn [In]. rewrite in_map_iff.
    rewrite forallb_forall in T. split.
    + intros [H|[[[tested type'] emits'] [E H]]].
      * inversion H. now left.
      * right. apply filter_In in H. destruct H as [H N]. cbn [fst snd] in *.
        inversion E; subst type' emits'.
        specialize (T _ H). cbn [fst snd] in T. apply String.eqb_eq in T. subst tested.
        split; [exact H|]. apply negb_true_iff in N. now apply Nat.eqb_neq.
    + intros [[-> ->]|[H N]]; [now left|]. right.
      exists (emits, type, emits). split; [reflexivity|].
      apply filter_In. split; [exact H|]. cbn [fst snd].
      apply negb_true_iff. now apply Nat.eqb_neq.
Qed.

Lemma hookEvents_obliging (e : Engine) (events : MapEvent) (s : Session) :
  obliging e -> has_map s ->
  hookEvents e events s =
    (Returns undefined,
     {| service := service s;
        forwarded := forwarded s ++
                     map (fun b => map_on_event (fst b) (snd b)) (hooked events) |}).
Proof.
  intros O M. unfold hookEvents, bind. rewrite onMap_obliging by assumption.
  set (s1 := {| service := service s;
                forwarded := forwarded s ++ [map_on_event "load" "load"] |}).
  assert (M1 : has_map s1) by exact M.
  unfold hooked. generalize hooks as tbl. intros tbl.
  pose proof (forEach_Forwards e tbl
                (fun h => negb (Nat.eqb (events (fst (fst h))) 0))
                (fun h => map_on_event (snd (fst h)) (snd h)) s1 M1) as F.
  apply (Forwards_obliging e _ _ _ O) in F.
  rewrite (forEach_ext tbl _
             (fun h => if negb (Nat.eqb (events (fst (fst h))) 0)
                       then onMap e (map_on_event (snd (fst h)) (snd h))
                       else ret undefined)).
  - rewrite F. unfold s1, hooked_of. cbn [service forwarded map fst snd].
    rewrite <- app_assoc, map_map. reflexivity.
  - intros h s'. unfold when. destruct (Nat.eqb _ 0); reflexivity.
Qed.

(** X14: [hookEvents] on a service that has its map, against an engine
    that returns from every call, binds one listener per call, first the
    one for load, whether or not load has an observer, then, in the order
    of the source, one for each of the other 45 events whose emitter has an
    observer, and none for an emitter without observers.  No event type is
    bound twice, and each listener emits on the emitter whose observers
    were counted. *)
Theorem hookEvents_binds_each_observed_event_once (e : Engine) (events : MapEvent)
  (s : Session) :
  obliging e -> has_map s ->
  hookEvents e events s =
    (Returns undefined,
     {| service := service s;
        forwarded := forwarded s ++
                     map (fun b => map_on_event (fst b) (snd b)) (hooked events) |}) /\
  NoDup (map fst (hooked events)) /\
  List.length (hooked events) <= 46 /\
  (forall type emits,
     In (type, emits) (hooked events) <->
     (type = "load" /\ emits = "load") \/
     (In (emits, type, emits) hooks /\ events emits <> 0)).
Proof.
  intros O M. split; [now apply hookEvents_obliging|].
  assert (D : distinct ("load" :: map (fun h : string * string * string => snd (fst h)) hooks) = true)
    by (vm_compute; reflexivity).
  assert (T : forallb (fun h : string * string * string => String.eqb (fst (fst h)) (snd h))
                hooks = true)
    by (vm_compute; reflexivity).
  assert (L : S (List.length hooks) = 46) by (vm_compute; reflexivity).
  destruct (hooked_of_facts hooks events D T) as [H1 [H2 H3]].
  unfold hooked. rewrite L in H2. auto.
Qed.

Lemma hookEvents_witness :
  hookEvents at_ease click_and_zoom on_map =
    (Returns undefined,
     {| service := with_map;
        forwarded := [map_on_event "load" "load"; map_on_event "click" "click";
                      map_on_event "zoom" "zoomEvt"] |}).
Proof.
  assert (H : hookEvents at_ease click_and_zoom on_map =
              (Returns undefined,
               {| service := service on_map;
                  forwarded := forwarded on_map ++
                               map (fun b => map_on_event (fst b) (snd b))
                                 (hooked click_and_zoom) |})).
  { apply (hookEvents_binds_each_observed_event_once at_ease click_and_zoom on_map).
    - intros h c. reflexivity.
    - exact on_map_has_map. }
  rewrite H. vm_compute. reflexivity.
Defined.

(** ** addMarker *)

Lemma marker_bindings_spec (marker : SetupMarker) (m : Value) (c : Forwarded) :
  In c (marker_bindings marker m) <->
  exists emitter, c = marker_on m (marker_event_type emitter) emitter /\
                  markersEvents marker emitter <> 0.
Proof.
  unfold marker_bindings. rewrite in_map_iff. split.
  - intros [em [<- H]]. apply filter_In in H. destruct H as [_ H]. exists em.
    split; [reflexivity|]. apply negb_true_iff in H. now apply Nat.eqb_neq.
  - intros [em [-> H]]. exists em. split; [reflexivity|]. apply filter_In.
    split; [destruct em; simpl; auto|]. apply negb_true_iff. now apply Nat.eqb_neq.
Qed.

(** X15: [addMarker] against an engine that returns from every call.  The
    marker is built from options that always hold offset, anchor (as given,
    undefined included) and draggable, which is a boolean whatever was
    given, and hold the element exactly when it has child nodes.  A
    listener is bound for each of dragstart, drag and dragend whose emitter
    has an observer.  The marker is then put at the coordinates of the
    feature when there is one, whatever [lngLat] is, and at [lngLat]
    otherwise, added to [mapInstance] as it is (no TypeError without a
    map) and returned.  When the feature has a null geometry the method
    throws a TypeError after the marker was built and its listeners bound:
    it is neither positioned nor added. *)
Theorem addMarker_builds_binds_and_positions (e : Engine) (marker : SetupMarker) (s : Session) :
  obliging e ->
  exists options m,
    keys options =
      ["offset"; "anchor"; "draggable"] ++
      (if Nat.ltb 0 (childNodes_length (markersOptions marker)) then ["element"] else []) /\
    obj_get "offset" options = offset (markersOptions marker) /\
    obj_get "anchor" options = anchor (markersOptions marker) /\
    obj_get "draggable" options = boolean (value_truthy (draggable (markersOptions marker))) /\
    (0 < childNodes_length (markersOptions marker) ->
     obj_get "element" options = element (markersOptions marker)) /\
    m = result (e (forwarded s) (new_Marker options)) /\
    (forall c, In c (marker_bindings marker m) <->
               exists emitter, c = marker_on m (marker_event_type emitter) emitter /\
                               markersEvents marker emitter <> 0) /\
    addMarker e marker s =
      match marker_position (markersOptions marker) with
      | Some position =>
          (Returns m,
           {| service := service s;
              forwarded := forwarded s ++ new_Marker options :: marker_bindings marker m ++
                           [marker_setLngLat m position;
                            marker_addTo m (mapInstance (service s))] |})
      | None =>
          (Throws NullGeometry,
           {| service := service s;
              forwarded := forwarded s ++ new_Marker options :: marker_bindings marker m |})
      end.
Proof.
  intros O. eexists. eexists.
  split; [|split; [|split; [|split; [|split; [|split; [reflexivity|split]]]]]];
    [| | | | |apply marker_bindings_spec|].
  6: { unfold addMarker, marker_position, marker_bindings, bind, when, issue, throw, ret.
       cbn [fst snd service forwarded filter map marker_event_type]. rewrite !O.
       destruct (Nat.eqb (markersEvents marker dragStart) 0),
         (Nat.eqb (markersEvents marker drag) 0),
         (Nat.eqb (markersEvents marker dragEnd) 0);
         cbn [negb fst snd service forwarded map]; rewrite ?O;
         destruct (feature (markersOptions marker)) as [[[g|]]|];
         cbn [option_map geometry fst snd service forwarded]; rewrite ?O;
         cbn [fst snd service forwarded]; rewrite ?O;
         rewrite <- ?app_assoc; reflexivity. }
  all: destruct (Nat.ltb 0 (childNodes_length (markersOptions marker))) eqn:L;
    try reflexivity.
  intros H. apply Nat.ltb_ge in L. lia.
Qed.

Lemma addMarker_witness :
  exists options m,
    addMarker at_ease pin on_map =
      (Throws NullGeometry,
       {| service := with_map;
          forwarded := [new_Marker options; marker_on m "drag" drag] |}) /\
    options = [("offset", undefined); ("anchor", str "bottom"); ("draggable", boolean false)].
Proof.
  destruct (addMarker_builds_binds_and_positions at_ease pin on_map (fun h c => eq_refl))
    as [options [m [K [H1 [H2 [H3 [_ [_ [_ H]]]]]]]]].
  exists options, m. split; [exact H|].
  destruct options as [|[k1 v1] [|[k2 v2] [|[k3 v3] [|]]]]; try discriminate K.
  simpl in K. inversion K; subst. simpl in H1, H2, H3. subst. reflexivity.
Defined.
